(** * Adaptive-PSO-FL: the PSO variant runners and the entropy-adaptive optimizer

    A shallow embedding of [algorithms.py], [pyswarms_gbest/gbest.py] and
    [pyswarms_gbest/Pyswarms_entropy_gbest.py].  Costs, positions and the
    coefficients are IEEE-754 binary64 numbers, as numpy and Python have
    them; they are modelled by the kernel's primitive floats, so that every
    definition runs.  Random draws are read from an explicit stream. *)

From Stdlib Require Import ZArith List Bool Lia Floats.
Import ListNotations.

#[global] Set Warnings "-inexact-float".

(** ** Python built-ins *)

Notation "x <- e ;; k" := (match e with Some x => k | None => None end)
  (at level 61, e at next level, right associativity, only parsing).
Notation "' pat <- e ;; k" := (match e with Some pat => k | None => None end)
  (at level 61, pat pattern, e at next level, right associativity, only parsing).

Module Py.

Local Open Scope float_scope.

(** [a > b] and [a >= b] on floats. *)
Definition gtb (a b : float) : bool := b <? a.
Definition geb (a b : float) : bool := b <=? a.

(** [max(a, b)]: the first argument stays unless the second is greater. *)
Definition max (a b : float) : float := if gtb b a then b else a.

(** [False == 0] and [True == 1]: a bool compared with an int is its int. *)
Definition int_of_bool (b : bool) : nat := if b then 1%nat else 0%nat.

(** The float of a small non-negative int, as [/] takes it. *)
Definition float_of_nat (n : nat) : float := of_uint63 (Uint63.of_Z (Z.of_nat n)).

(** [sum(l)]: the start value is the int [0]. *)
Definition sum (l : list float) : float := fold_left add l 0.

Definition all (l : list bool) : bool := forallb (fun b => b) l.

(** [collections.Counter(l)]: the counts, keyed in order of first appearance. *)
Fixpoint counter_add (k : nat) (c : list (nat * nat)) : list (nat * nat) :=
  match c with
  | [] => [(k, 1%nat)]
  | (k', n) :: c' => if Nat.eqb k k' then (k', S n) :: c' else (k', n) :: counter_add k c'
  end.

Definition Counter (l : list nat) : list (nat * nat) :=
  fold_left (fun c k => counter_add k c) l [].

Definition values (c : list (nat * nat)) : list nat := map snd c.

(** [collections.deque(maxlen=n).append(x)]: a full deque drops its oldest
    entry. *)
Definition deque_append (maxlen : nat) (d : list bool) (x : bool) : list bool :=
  let d' := d ++ [x] in
  if (maxlen <? length d')%nat then tl d' else d'.

End Py.

(** ** numpy arrays

    A one-dimensional array is a list, a two-dimensional one a list of rows.
    An operation on two arrays takes arrays of one shape and raises
    [ValueError] ([None]) otherwise; the stretching of axes of length one is
    not modelled. *)

Module np.

Local Open Scope float_scope.

Abbreviation vec := (list float) (only parsing).
Abbreviation matrix := (list (list float)) (only parsing).

Definition inf : float := infinity.

Definition full (n : nat) (v : float) : vec := repeat v n.
Definition zeros2 (n d : nat) : matrix := repeat (repeat 0 d) n.

Fixpoint zip_with {A B C : Type} (op : A -> B -> C) (a : list A) (b : list B)
  : option (list C) :=
  match a, b with
  | [], [] => Some []
  | x :: a', y :: b' => r <- zip_with op a' b' ;; Some (op x y :: r)
  | _, _ => None
  end.

Fixpoint zip_with_opt {A B C : Type} (op : A -> B -> option C) (a : list A) (b : list B)
  : option (list C) :=
  match a, b with
  | [], [] => Some []
  | x :: a', y :: b' => c <- op x y ;; r <- zip_with_opt op a' b' ;; Some (c :: r)
  | _, _ => None
  end.

Fixpoint map_opt {A B : Type} (g : A -> option B) (a : list A) : option (list B) :=
  match a with
  | [] => Some []
  | x :: a' => c <- g x ;; r <- map_opt g a' ;; Some (c :: r)
  end.

(** Element-wise operations: vector with vector, scalar with vector, matrix
    with matrix, scalar with matrix. *)
Definition vop (op : float -> float -> float) (a b : vec) : option vec := zip_with op a b.
Definition sop (op : float -> float -> float) (k : float) (a : vec) : vec := map (op k) a.
Definition mop (op : float -> float -> float) (a b : matrix) : option matrix :=
  zip_with_opt (vop op) a b.
Definition smop (op : float -> float -> float) (k : float) (a : matrix) : matrix :=
  map (sop op k) a.

(** [np.min]: a NaN in the array is the result. *)
Definition min (a : vec) : option float :=
  match a with
  | [] => None
  | x :: r => Some (fold_left (fun m y => if (m <? y) || is_nan m then m else y) r x)
  end.

(** [np.argmin]: the first index of the least entry; the first NaN, when
    there is one, ends the scan and is the result. *)
Fixpoint argmin_from (mp : float) (min_ind i : nat) (rest : vec) : nat :=
  if is_nan mp then min_ind
  else match rest with
       | [] => min_ind
       | x :: r =>
           if negb (Py.geb x mp) then argmin_from x i (S i) r
           else argmin_from mp min_ind (S i) r
       end.

Definition argmin (a : vec) : option nat :=
  match a with
  | [] => None
  | x :: r => Some (argmin_from x 0 1 r)
  end.

(** [np.where(~mask, a, b)]. *)
Definition where_not {A : Type} (mask : list bool) (a b : list A) : option (list A) :=
  r <- zip_with pair a b ;;
  zip_with (fun (m : bool) (xy : A * A) => if negb m then fst xy else snd xy) mask r.

(** [np.array_equal] on matrices. *)
Fixpoint vec_equal (a b : vec) : bool :=
  match a, b with
  | [], [] => true
  | x :: a', y :: b' => (x =? y) && vec_equal a' b'
  | _, _ => false
  end.

Fixpoint array_equal (a b : matrix) : bool :=
  match a, b with
  | [], [] => true
  | x :: a', y :: b' => vec_equal x y && array_equal a' b'
  | _, _ => false
  end.

(** The global random state: the stream of uniform draws in [[0,1)] and how
    many of them were taken. *)
Definition stream := N -> float.

Definition draws (u : stream) (k : N) (n : nat) : vec :=
  map (fun j => u (k + N.of_nat j)%N) (seq 0 n).

(** [np.random.rand(n)]. *)
Definition rand (u : stream) (k : N) (n : nat) : vec * N :=
  (draws u k n, (k + N.of_nat n)%N).

(** [np.random.uniform(low, high, size=n)]: [low + (high - low) * u]. *)
Definition uniform (u : stream) (k : N) (low high : float) (n : nat) : vec * N :=
  (map (fun x => low + (high - low) * x) (draws u k n), (k + N.of_nat n)%N).

(** A matrix of [n] rows of [d] draws, row by row. *)
Fixpoint rand2 (u : stream) (k : N) (n d : nat) : matrix * N :=
  match n with
  | O => ([], k)
  | S n' => let (r, k') := rand u k d in
            let (m, k'') := rand2 u k' n' d in (r :: m, k'')
  end.

(** [a[i] = v] on a list or on the rows of a matrix: [IndexError] out of
    range. *)
Fixpoint set_nth {A : Type} (i : nat) (v : A) (l : list A) : option (list A) :=
  match l, i with
  | [], _ => None
  | _ :: r, O => Some (v :: r)
  | x :: r, S i' => r' <- set_nth i' v r ;; Some (x :: r')
  end.

(** [m[r, c] = v], [m[:, c] = vals] and [m[:, c]]. *)
Definition set_cell (m : matrix) (r c : nat) (v : float) : option matrix :=
  row <- nth_error m r ;;
  row' <- set_nth c v row ;;
  set_nth r row' m.

Definition set_column (m : matrix) (c : nat) (vals : vec) : option matrix :=
  zip_with_opt (fun row v => set_nth c v row) m vals.

Definition column (m : matrix) (c : nat) : option vec :=
  map_opt (fun row => nth_error row c) m.

End np.

(** ** [algorithms.py]

    The module [params] is not part of the sources; its constants are a
    parameter of the model. *)

Class Params := {
  num_iterations : nat;
  num_runs : nat;
  num_particles : nat;
  num_dimensions : nat;
  c1 : float;
  c2 : float;
  w : float }.

Module Algorithms.

Local Open Scope float_scope.

Definition alpha : float := 0.1.

(** The arrays every call of [compute_global_best] reads and writes in
    place, with the position in the random stream. *)
Record Swarm := mkSwarm {
  particles_position : np.matrix;
  particles_velocity : np.matrix;
  personal_best : np.matrix;
  cursor : N }.

(** The module's globals: the two result matrices and the swarm. *)
Record Store := mkStore {
  best_fitness_evolution : np.matrix;
  mean_gbest_evolution : np.matrix;
  swarm : Swarm }.

(** Lines 4-10, run once, when the module is imported. *)
Fixpoint uniform2 (u : np.stream) (k : N) (low high : float) (n d : nat)
  : np.matrix * N :=
  match n with
  | O => ([], k)
  | S n' => let (r, k') := np.uniform u k low high d in
            let (m, k'') := uniform2 u k' low high n' d in (r :: m, k'')
  end.

Definition import_module `{Params} (u : np.stream) (k : N) : Store :=
  let (pos, k') := uniform2 u k (-600) 600 num_particles num_dimensions in
  mkStore (np.zeros2 num_iterations num_runs) (np.zeros2 num_iterations num_runs)
    (mkSwarm pos (np.zeros2 num_particles num_dimensions) pos k').

(** The argument [fac]: the int [1], the float [params.w], or one factor
    per dimension. *)
Inductive Factor := Scalar (x : float) | PerDimension (v : np.vec).

Definition times (a : np.vec) (fac : Factor) : option np.vec :=
  match fac with
  | Scalar x => Some (map (fun y => y * x) a)
  | PerDimension v => np.vop mul a v
  end.

(** Lines 16-27: the body of the loop over the particles; the global best is
    the local variable of [compute_global_best]. *)
Definition particle_update `{Params} (u : np.stream) (fac : Factor)
  (func_bench : np.vec -> float) (i : nat) (acc : Swarm * np.vec)
  : option (Swarm * np.vec) :=
  let (sw, global_best) := acc in
  let (r1, k1) := np.rand u (cursor sw) num_dimensions in
  let (r2, k2) := np.rand u k1 num_dimensions in
  pb <- nth_error (personal_best sw) i ;;
  x <- nth_error (particles_position sw) i ;;
  d1 <- np.vop sub pb x ;;
  t1 <- np.vop mul (np.sop mul c1 r1) d1 ;;
  cognitive_component <- times t1 fac ;;
  d2 <- np.vop sub global_best x ;;
  t2 <- np.vop mul (np.sop mul c2 r2) (map (fun y => y + 0) d2) ;;
  social_component <- times t2 fac ;;
  v <- nth_error (particles_velocity sw) i ;;
  v1 <- np.vop add (np.sop mul w v) cognitive_component ;;
  v' <- np.vop add v1 social_component ;;
  vel <- np.set_nth i v' (particles_velocity sw) ;;
  x' <- np.vop add x v' ;;
  pos <- np.set_nth i x' (particles_position sw) ;;
  if func_bench x' <? func_bench pb then
    pbs <- np.set_nth i x' (personal_best sw) ;;
    if func_bench x' <? func_bench global_best
    then Some (mkSwarm pos vel pbs k2, x')
    else Some (mkSwarm pos vel pbs k2, global_best)
  else Some (mkSwarm pos vel (personal_best sw) k2, global_best).

Fixpoint sweep `{Params} (u : np.stream) (fac : Factor) (func_bench : np.vec -> float)
  (range : list nat) (acc : Swarm * np.vec) : option (Swarm * np.vec) :=
  match range with
  | [] => Some acc
  | i :: rest =>
      acc' <- particle_update u fac func_bench i acc ;;
      sweep u fac func_bench rest acc'
  end.

(** Lines 13-14: the particle the sweep starts from. *)
Definition select_global_best (func_bench : np.vec -> float) (sw : Swarm)
  : option np.vec :=
  global_best_idx <- np.argmin (map func_bench (personal_best sw)) ;;
  nth_error (personal_best sw) global_best_idx.

Definition compute_global_best `{Params} (u : np.stream) (fac : Factor)
  (func_bench : np.vec -> float) (sw : Swarm) : option (np.vec * Swarm) :=
  global_best <- select_global_best func_bench sw ;;
  '(sw', global_best') <- sweep u fac func_bench (seq 0 num_particles) (sw, global_best) ;;
  Some (global_best', sw').

(** The loop of a runner that collects [gbest_values]. *)
Fixpoint collect `{Params} (u : np.stream) (fac : Factor) (func_bench : np.vec -> float)
  (range : list nat) (gbest_values : np.vec) (sw : Swarm) : option (np.vec * Swarm) :=
  match range with
  | [] => Some (gbest_values, sw)
  | _ :: rest =>
      '(global_best, sw') <- compute_global_best u fac func_bench sw ;;
      collect u fac func_bench rest (gbest_values ++ [func_bench global_best]) sw'
  end.

(** [CPSOAlgorithm]: each value goes into its cell as it is found. *)
Fixpoint CPSO_loop `{Params} (u : np.stream) (run : nat) (func_bench : np.vec -> float)
  (range : list nat) (st : Store) : option Store :=
  match range with
  | [] => Some st
  | iteration :: rest =>
      '(global_best, sw') <- compute_global_best u (Scalar 1) func_bench (swarm st) ;;
      m <- np.set_cell (best_fitness_evolution st) iteration run (func_bench global_best) ;;
      CPSO_loop u run func_bench rest (mkStore m (mean_gbest_evolution st) sw')
  end.

Definition CPSOAlgorithm `{Params} (u : np.stream) (run : nat)
  (func_bench : np.vec -> float) (st : Store) : option (np.matrix * Store) :=
  st' <- CPSO_loop u run func_bench (seq 0 num_iterations) st ;;
  Some (best_fitness_evolution st', st').

Definition HCLPSOAlgorithm `{Params} (u : np.stream) (run : nat)
  (func_bench : np.vec -> float) (st : Store) : option (np.matrix * Store) :=
  let sw := swarm st in
  _ <- select_global_best func_bench sw ;;
  let (heterogeneity_factor, k) :=
    np.uniform u (cursor sw) (1 - alpha) (1 + alpha) num_dimensions in
  let sw0 := mkSwarm (particles_position sw) (particles_velocity sw) (personal_best sw) k in
  '(gbest_values, sw') <- collect u (PerDimension heterogeneity_factor) func_bench
                            (seq 0 num_iterations) [] sw0 ;;
  m <- np.set_column (mean_gbest_evolution st) run gbest_values ;;
  Some (m, mkStore (best_fitness_evolution st) m sw').

Definition SPSOAlgorithm `{Params} (u : np.stream) (run : nat)
  (func_bench : np.vec -> float) (st : Store) : option (np.matrix * Store) :=
  _ <- select_global_best func_bench (swarm st) ;;
  '(gbest_values, sw') <- collect u (Scalar 1) func_bench (seq 0 num_iterations) []
                            (swarm st) ;;
  m <- np.set_column (mean_gbest_evolution st) run gbest_values ;;
  Some (m, mkStore (best_fitness_evolution st) m sw').

Definition EPSOAlgorithm `{Params} (u : np.stream) (run : nat)
  (func_bench : np.vec -> float) (st : Store) : option (np.matrix * Store) :=
  _ <- select_global_best func_bench (swarm st) ;;
  '(gbest_values, sw') <- collect u (Scalar w) func_bench (seq 0 num_iterations) []
                            (swarm st) ;;
  m <- np.set_column (best_fitness_evolution st) run gbest_values ;;
  Some (m, mkStore m (mean_gbest_evolution st) sw').

End Algorithms.

(** ** [plotting.py]: the runs of the four variants *)

Module Plotting.

Import Algorithms.

Record Curves := mkCurves {
  cpso : np.matrix; spso : np.matrix; hcpso : np.matrix; epso : np.matrix }.

(** Lines 15-19: one pass of the loop over the runs. *)
Definition plot_run `{Params} (u : np.stream) (func_bench : np.vec -> float) (run : nat)
  (acc : Curves * Store) : option (Curves * Store) :=
  let (cv, st) := acc in
  '(m1, st1) <- CPSOAlgorithm u run func_bench st ;;
  col1 <- np.column m1 run ;;
  cpso' <- np.set_column (cpso cv) run col1 ;;
  '(m2, st2) <- SPSOAlgorithm u run func_bench st1 ;;
  col2 <- np.column m2 run ;;
  spso' <- np.set_column (spso cv) run col2 ;;
  '(m3, st3) <- HCLPSOAlgorithm u run func_bench st2 ;;
  col3 <- np.column m3 run ;;
  hcpso' <- np.set_column (hcpso cv) run col3 ;;
  '(m4, st4) <- EPSOAlgorithm u run func_bench st3 ;;
  col4 <- np.column m4 run ;;
  epso' <- np.set_column (epso cv) run col4 ;;
  Some (mkCurves cpso' spso' hcpso' epso', st4).

Fixpoint plot_runs `{Params} (u : np.stream) (func_bench : np.vec -> float)
  (range : list nat) (acc : Curves * Store) : option (Curves * Store) :=
  match range with
  | [] => Some acc
  | run :: rest => acc' <- plot_run u func_bench run acc ;; plot_runs u func_bench rest acc'
  end.

(** Lines 7-10 and the loop of [plot]. *)
Definition plot `{Params} (u : np.stream) (func_bench : np.vec -> float) (st : Store)
  : option (Curves * Store) :=
  let z := np.zeros2 num_iterations num_runs in
  plot_runs u func_bench (seq 0 num_runs) (mkCurves z z z z, st).

End Plotting.

(** ** The pyswarms back end the optimizer is built on

    [pyswarms.backend] and [pyswarms.base] are an external library; what the
    optimizer calls is modelled after the library's behaviour.  The objective
    is given by its value on one particle and is applied to the whole swarm
    row by row. *)

Module Pyswarms.

Local Open Scope float_scope.

Record Options := mkOptions { c1 : float; c2 : float; w : float }.

Record Swarm := mkSwarm {
  position : np.matrix;
  velocity : np.matrix;
  options : Options;
  pbest_pos : np.matrix;
  best_pos : np.vec;
  pbest_cost : np.vec;
  best_cost : float;
  current_cost : np.vec }.

Definition bounds_t : Type := np.vec * np.vec.
Definition clamp_t : Type := float * float.

(** The strategies of [BoundaryHandler] and [VelocityHandler], chosen by
    name at construction; both repair one coordinate at a time.  An
    [OptionsHandler] without a strategy hands the options back: as a copy of
    the dictionary or as the dictionary itself, which is the library's
    choice. *)
Class Handlers := {
  bh : float -> float -> float -> float;      (* lower, upper, coordinate *)
  vh : option clamp_t -> float -> float;
  oh_copies : bool }.

(** [math.log2]. *)
Class MathLib := { log2 : float -> float }.

(** [generate_swarm]: uniform positions, inside the bounds when given. *)
Definition generate_row (u : np.stream) (k : N) (center : float)
  (bounds : option bounds_t) (d : nat) : option (np.vec * N) :=
  match bounds with
  | None => let (r, k') := np.uniform u k 0 1 d in Some (np.sop mul center r, k')
  | Some (lb, ub) =>
      lu <- np.zip_with pair lb ub ;;
      r <- np.zip_with (fun (b : float * float) (x : float) => fst b + (snd b - fst b) * x)
             lu (np.draws u k d) ;;
      Some (np.sop mul center r, (k + N.of_nat d)%N)
  end.

Fixpoint generate_swarm (u : np.stream) (k : N) (n d : nat) (center : float)
  (bounds : option bounds_t) : option (np.matrix * N) :=
  match n with
  | O => Some ([], k)
  | S n' =>
      '(r, k') <- generate_row u k center bounds d ;;
      '(m, k'') <- generate_swarm u k' n' d center bounds ;;
      Some (r :: m, k'')
  end.

(** [generate_velocity]: uniform in the clamp, or in [[0,1)]. *)
Definition generate_velocity (u : np.stream) (k : N) (n d : nat)
  (clamp : option clamp_t) : np.matrix * N :=
  let (lo, hi) := match clamp with Some c => c | None => (0, 1) end in
  let (m, k') := np.rand2 u k n d in
  (map (map (fun x => (hi - lo) * x + lo)) m, k').

(** [create_swarm] and the defaults of [Swarm]: the personal bests are the
    positions, the costs are empty, the best cost is [inf]. *)
Definition create_swarm (u : np.stream) (k : N) (n d : nat) (opts : Options)
  (bounds : option bounds_t) (center : float) (init_pos : option np.matrix)
  (clamp : option clamp_t) : option (Swarm * N) :=
  '(pos, k1) <- match init_pos with
                | Some p => Some (p, k)
                | None => generate_swarm u k n d center bounds
                end ;;
  let (vel, k2) := generate_velocity u k1 n d clamp in
  Some (mkSwarm pos vel opts pos [] [] np.inf [], k2).

(** [compute_pbest]: a particle's best moves where its current cost is
    strictly below its best cost. *)
Definition compute_pbest (s : Swarm) : option (np.matrix * np.vec) :=
  mask_cost <- np.zip_with ltb (current_cost s) (pbest_cost s) ;;
  new_pbest_pos <- np.where_not mask_cost (pbest_pos s) (position s) ;;
  new_pbest_cost <- np.where_not mask_cost (pbest_cost s) (current_cost s) ;;
  Some (new_pbest_pos, new_pbest_cost).

(** [Star.compute_gbest]: the least personal best replaces the global best
    only when strictly below it. *)
Definition compute_gbest (s : Swarm) : option (np.vec * float) :=
  m <- np.min (pbest_cost s) ;;
  if m <? best_cost s then
    idx <- np.argmin (pbest_cost s) ;;
    row <- nth_error (pbest_pos s) idx ;;
    Some (row, m)
  else Some (best_pos s, best_cost s).

(** [Star.compute_velocity]. *)
Definition compute_velocity `{Handlers} (u : np.stream) (k : N) (s : Swarm)
  (clamp : option clamp_t) : option (np.matrix * N) :=
  let n := length (position s) in
  let d := match position s with r :: _ => length r | [] => O end in
  let o := options s in
  let (u1, k1) := np.rand2 u k n d in
  dp <- np.mop sub (pbest_pos s) (position s) ;;
  cognitive <- np.mop mul (np.smop mul (c1 o) u1) dp ;;
  let (u2, k2) := np.rand2 u k1 n d in
  dg <- np.map_opt (fun x => np.vop sub (best_pos s) x) (position s) ;;
  social <- np.mop mul (np.smop mul (c2 o) u2) dg ;;
  t1 <- np.mop add (np.smop mul (w o) (velocity s)) cognitive ;;
  temp_velocity <- np.mop add t1 social ;;
  Some (map (map (vh clamp)) temp_velocity, k2).

(** [Star.compute_position]. *)
Definition compute_position `{Handlers} (s : Swarm) (bounds : option bounds_t)
  : option np.matrix :=
  temp_position <- np.mop add (position s) (velocity s) ;;
  match bounds with
  | None => Some temp_position
  | Some (lb, ub) =>
      np.map_opt (fun r => lu <- np.zip_with pair lb ub ;;
                           np.zip_with (fun (b : float * float) x => bh (fst b) (snd b) x) lu r)
                 temp_position
  end.

(** [SwarmOptimizer]: what [__init__] stores and [reset] creates. *)
Record Optimizer := mkOptimizer {
  n_particles : nat;
  dimensions : nat;
  bounds : option bounds_t;
  velocity_clamp : option clamp_t;
  swarm_size : nat * nat;
  self_options : Options;
  center : float;
  ftol : float;
  ftol_iter : nat;
  init_pos : option np.matrix;
  swarm : Swarm }.

(** [SwarmOptimizer.__init__], which ends in [self.reset()]; [ftol_iter] is
    asserted to be positive. *)
Definition SwarmOptimizer_init (u : np.stream) (k : N) (n_particles dimensions : nat)
  (opts : Options) (bounds : option bounds_t) (velocity_clamp : option clamp_t)
  (center ftol : float) (ftol_iter : nat) (init_pos : option np.matrix)
  : option (Optimizer * N) :=
  if Nat.eqb ftol_iter 0 then None
  else
    '(sw, k') <- create_swarm u k n_particles dimensions opts bounds center init_pos
                   velocity_clamp ;;
    Some (mkOptimizer n_particles dimensions bounds velocity_clamp
            (n_particles, dimensions) opts center ftol ftol_iter init_pos sw, k').

(** [SwarmOptimizer.reset]: the swarm is created anew from what [__init__]
    stored, with new draws. *)
Definition reset (u : np.stream) (k : N) (o : Optimizer) : option (Optimizer * N) :=
  '(sw, k') <- create_swarm u k (n_particles o) (dimensions o) (self_options o) (bounds o)
                 (center o) (init_pos o) (velocity_clamp o) ;;
  Some (mkOptimizer (n_particles o) (dimensions o) (bounds o) (velocity_clamp o)
          (swarm_size o) (self_options o) (center o) (ftol o) (ftol_iter o) (init_pos o) sw,
        k').

End Pyswarms.

(** ** [pyswarms_gbest/Pyswarms_entropy_gbest.py] *)

Module EntropyGbest.

Import Pyswarms.
Local Open Scope float_scope.

(** [entropy(lst)]. *)
Definition entropy `{MathLib} (lst : list nat) : float :=
  let value_counts := Py.Counter lst in
  let total_size := length lst in
  let probabilities :=
    map (fun count => Py.float_of_nat count / Py.float_of_nat total_size)
        (Py.values value_counts) in
  Py.sum (map (fun p => (- p) * log2 p) probabilities).

(** [GlobalBestPSO_entropy.__init__]: the particle count handed to the base
    class is the literal [50]; the base class has created the swarm when
    line 152 resets the optimizer, so the swarm is created twice and the
    second one stays. *)
Definition init (u : np.stream) (k : N) (n_particles dimensions : nat)
  (opts : Options) (bounds : option bounds_t) (velocity_clamp : option clamp_t)
  (center ftol : float) (ftol_iter : nat) (init_pos : option np.matrix)
  : option (Optimizer * N) :=
  '(o, k1) <- SwarmOptimizer_init u k 50 dimensions opts bounds velocity_clamp center ftol
                ftol_iter init_pos ;;
  reset u k1 o.

(** One record of [logging.info]: the number in brackets, the iteration and
    the two coefficients. *)
Record LogRecord := mkLog { log_tag : nat; log_iter : nat; log_c1 : float; log_c2 : float }.

(** The optimizer and the local variables of [optimize], with the standard
    output, the log and the position in the random stream. *)
Record Run := mkRun {
  self : Optimizer;
  previous_pbest_cost : np.vec;
  cost_history : list float;
  list_R : list nat;
  ftol_history : list bool;
  stdout : list float;
  info_log : list LogRecord;
  cursor : N }.

Definition with_swarm (o : Optimizer) (sw : Swarm) : Optimizer :=
  mkOptimizer (n_particles o) (dimensions o) (bounds o) (velocity_clamp o) (swarm_size o)
    (self_options o) (center o) (ftol o) (ftol_iter o) (init_pos o) sw.

Definition with_options (o : Optimizer) (opts : Options) : Optimizer :=
  mkOptimizer (n_particles o) (dimensions o) (bounds o) (velocity_clamp o) (swarm_size o)
    opts (center o) (ftol o) (ftol_iter o) (init_pos o) (swarm o).

(** Lines 217-221: the costs, the personal bests, the best cost found so far
    and the new global best. *)
Definition evaluate (objective_func : np.vec -> float) (sw : Swarm)
  : option (Swarm * float) :=
  let sw1 := mkSwarm (position sw) (velocity sw) (options sw) (pbest_pos sw) (best_pos sw)
               (pbest_cost sw) (best_cost sw) (map objective_func (position sw)) in
  '(pp, pc) <- compute_pbest sw1 ;;
  let sw2 := mkSwarm (position sw1) (velocity sw1) (options sw1) pp (best_pos sw1)
               pc (best_cost sw1) (current_cost sw1) in
  let best_cost_yet_found := best_cost sw2 in
  '(bp, bc) <- compute_gbest sw2 ;;
  Some (mkSwarm (position sw2) (velocity sw2) (options sw2) (pbest_pos sw2) bp
          (pbest_cost sw2) bc (current_cost sw2), best_cost_yet_found).

(** Lines 236-246: the stop criterion; the result is the window and whether
    the loop breaks. *)
Definition stop_criterion (ftol : float) (ftol_iter i : nat) (ftol_history : list bool)
  (best_cost best_cost_yet_found : float) : list bool * bool :=
  let relative_measure := ftol * (1 + abs best_cost_yet_found) in
  let delta := abs (best_cost - best_cost_yet_found) <? relative_measure in
  if (i <? ftol_iter)%nat then (Py.deque_append ftol_iter ftol_history delta, false)
  else
    let h := Py.deque_append ftol_iter ftol_history delta in
    (h, Py.all h).

(** Lines 256-262: the label of one particle. *)
Definition label (diff : float) : nat :=
  if Py.gtb diff 0.2 then 2%nat
  else if Py.gtb diff (-0.2) then 1%nat
  else 0%nat.

(** Lines 267-283: the new coefficients, the number logged and whether the
    labels are dropped. *)
Definition adjust (R : float) (o : Options) : Options * nat * bool :=
  if Py.gtb R 0.8 then
    (mkOptions (Py.max 0.1 (c1 o + 1)) (Py.max 0.1 (c2 o - 1)) (w o), 1%nat, false)
  else if Py.gtb R 0.6 then
    (mkOptions (Py.max 0.1 (c1 o + 0.2)) (Py.max 0.1 (c2 o - 0.2)) (w o), 2%nat, false)
  else if Py.gtb R 0.3 then
    (mkOptions (Py.max 0.1 (c1 o + 0.2)) (Py.max 0.1 (c2 o + 0.2)) (w o), 3%nat, false)
  else
    (mkOptions (Py.max 0.1 (c1 o - 1)) (Py.max 0.1 (c2 o + 1)) (w o), 3%nat, true).

(** Line 264: [i%100 == False]. *)
Definition recalibration_due (i : nat) : bool :=
  Nat.eqb (i mod 100) (Py.int_of_bool false).

(** Lines 248-288.  The swarm takes its options from the options handler
    before the coefficients change; what it holds after the change are the
    old coefficients when the handler made a copy and the new ones when it
    handed the dictionary itself. *)
Definition control `{MathLib} `{Handlers} (i : nat) (st : Run) : option Run :=
  let o := self st in
  let sw := swarm o in
  let with_coefficients (now : Options) :=
    with_swarm o
      (mkSwarm (position sw) (velocity sw) (if oh_copies then self_options o else now)
         (pbest_pos sw) (best_pos sw) (pbest_cost sw) (best_cost sw) (current_cost sw)) in
  diff_cost <- np.vop sub (current_cost sw) (previous_pbest_cost st) ;;
  let list_R1 := list_R st ++ map label diff_cost in
  if recalibration_due i then
    let R := entropy list_R1 in
    let '(opts, tag, drop) := adjust R (self_options o) in
    Some (mkRun (with_options (with_coefficients opts) opts) (current_cost sw)
            (cost_history st)
            (if drop then [] else list_R1) (ftol_history st) (stdout st ++ [R])
            (info_log st ++ [mkLog tag i (c1 opts) (c2 opts)]) (cursor st))
  else
    Some (mkRun (with_coefficients (self_options o)) (current_cost sw) (cost_history st)
            list_R1 (ftol_history st)
            (stdout st) (info_log st) (cursor st)).

(** Lines 293-298: the velocities, then the positions. *)
Definition move `{Handlers} (u : np.stream) (st : Run) : option Run :=
  let o := self st in
  let sw := swarm o in
  '(v, k) <- compute_velocity u (cursor st) sw (velocity_clamp o) ;;
  let sw1 := mkSwarm (position sw) v (options sw) (pbest_pos sw) (best_pos sw)
               (pbest_cost sw) (best_cost sw) (current_cost sw) in
  x <- compute_position sw1 (bounds o) ;;
  let sw2 := mkSwarm x v (options sw) (pbest_pos sw) (best_pos sw)
               (pbest_cost sw) (best_cost sw) (current_cost sw) in
  Some (mkRun (with_swarm o sw2) (previous_pbest_cost st) (cost_history st) (list_R st)
          (ftol_history st) (stdout st) (info_log st) k).

(** Lines 217-246: the evaluation, the history and the stop criterion;
    [true] is [break]. *)
Definition observe (objective_func : np.vec -> float) (i : nat) (st : Run)
  : option (Run * bool) :=
  let o := self st in
  '(sw, best_cost_yet_found) <- evaluate objective_func (swarm o) ;;
  let cost_history' := cost_history st ++ [best_cost sw] in
  let (h, stop) := stop_criterion (ftol o) (ftol_iter o) i (ftol_history st)
                     (best_cost sw) best_cost_yet_found in
  Some (mkRun (with_swarm o sw) (previous_pbest_cost st) cost_history' (list_R st) h
          (stdout st) (info_log st) (cursor st), stop).

(** The body of the loop at iteration [i]. *)
Definition iteration `{MathLib} `{Handlers} (u : np.stream)
  (objective_func : np.vec -> float) (i : nat) (st : Run) : option (Run * bool) :=
  '(st1, stop) <- observe objective_func i st ;;
  if stop then Some (st1, true)
  else
    st2 <- control i st1 ;;
    st3 <- move u st2 ;;
    Some (st3, false).

(** How the loop ends. *)
Inductive Exit := Converged (i : nat) | MaxIterReached.

Fixpoint loop `{MathLib} `{Handlers} (u : np.stream) (objective_func : np.vec -> float)
  (range : list nat) (st : Run) : option (Run * Exit) :=
  match range with
  | [] => Some (st, MaxIterReached)
  | i :: rest =>
      '(st', stop) <- iteration u objective_func i st ;;
      if stop then Some (st', Converged i) else loop u objective_func rest st'
  end.

(** The state [optimize] enters the loop with. *)
Definition enter (o : Optimizer) (k : N) : Run :=
  let sw := swarm o in
  let n := fst (swarm_size o) in
  mkRun (with_swarm o (mkSwarm (position sw) (velocity sw) (options sw) (pbest_pos sw)
                         (best_pos sw) (np.full n np.inf) (best_cost sw) (current_cost sw)))
    (np.full n np.inf) [] [] [] [] [] k.

(** Line 300, [self.swarm.best_cost.copy()].  The best cost of a new swarm is
    the Python float [inf], which has no [copy]; [compute_gbest] replaces the
    best cost only by a numpy scalar strictly below it, so the best cost is
    that Python float exactly while it is [inf]. *)
Definition copy_best_cost (best_cost : float) : option float :=
  if best_cost =? np.inf then None else Some best_cost.

(** What [optimize] returns, with the state it leaves behind. *)
Record Result := mkResult {
  final_best_cost : float;
  final_best_pos : np.vec;
  history : list float;
  final : Run;
  exit : Exit }.

Definition optimize `{MathLib} `{Handlers} (u : np.stream) (o : Optimizer) (k : N)
  (objective_func : np.vec -> float) (iters : nat) : option Result :=
  '(st, e) <- loop u objective_func (seq 0 iters) (enter o k) ;;
  let sw := swarm (self st) in
  cost <- copy_best_cost (best_cost sw) ;;
  idx <- np.argmin (pbest_cost sw) ;;
  pos <- nth_error (pbest_pos sw) idx ;;
  Some (mkResult cost pos (cost_history st) st e).

End EntropyGbest.

(** ** [pyswarms_gbest/gbest.py]: the entropy optimizer the study runs *)

Module Gbest.

Import Pyswarms.
Local Open Scope float_scope.

Definition lb : np.vec := [-600; -600].
Definition ub : np.vec := [600; 600].

Definition optimizerEntrpy (u : np.stream) (k : N) (options : Options)
  : option (Optimizer * N) :=
  EntropyGbest.init u k 150 2 options (Some (lb, ub)) None 1 neg_infinity 1 None.

End Gbest.

(** ** The vocabulary of the properties *)

Module Spec.

Local Open Scope float_scope.

(** A specification float that is NaN. *)
Definition sf_nan (x : spec_float) : bool :=
  match x with S754_nan => true | _ => false end.

(** A matrix of [n] rows of [d] entries. *)
Definition shape (n d : nat) (m : np.matrix) : Prop :=
  length m = n /\ Forall (fun r => length r = d) m.

(** Each entry of [l] is [<=] the one before it, the first one [<= b]. *)
Fixpoint descending (b : float) (l : list float) : bool :=
  match l with
  | [] => true
  | x :: r => Py.geb b x && descending x r
  end.

(** The values a runner collects. *)
Definition non_increasing (l : list float) : bool :=
  match l with
  | [] => true
  | x :: r => descending x r
  end.

(** The cells of a matrix. *)
Definition cell (m : list (list float)) (r c : nat) : option float :=
  row <- nth_error m r ;; nth_error row c.

Section OfTheOptimizer.

Import Pyswarms EntropyGbest.

(** Bounds of [d] coordinates each, when there are bounds. *)
Definition bounds_fit (d : nat) (b : option bounds_t) : Prop :=
  match b with
  | Some (lb, ub) => length lb = d /\ length ub = d
  | None => True
  end.

(** An optimizer as the constructor leaves it: the swarm of 50 particles
    with their personal bests, and a positive [ftol_iter]. *)
Definition ready (o : Optimizer) : Prop :=
  fst (swarm_size o) = 50%nat /\
  length (position (swarm o)) = 50%nat /\
  length (pbest_pos (swarm o)) = 50%nat /\
  (1 <= ftol_iter o)%nat.

(** What [__init__] fixed and the loop never writes. *)
Definition config (o : Optimizer) :=
  (n_particles o, dimensions o, bounds o, velocity_clamp o, swarm_size o, center o,
   ftol o, ftol_iter o, init_pos o).

(** The costs and bests of a swarm. *)
Definition bests (sw : Swarm) := (pbest_pos sw, best_pos sw, pbest_cost sw, best_cost sw).

(** The number of iterations that ran to the end of the body. *)
Definition completed (e : Exit) (iters : nat) : nat :=
  match e with Converged i => i | MaxIterReached => iters end.

(** The objective that is [0] everywhere. *)
Definition zero_objective : list float -> float := fun _ => 0.

(** The run after its first iteration on the zero objective. *)
Definition settled (d : nat) (st : Run) : Prop :=
  ftol (self st) = 1e-6 /\ ftol_iter (self st) = 5%nat /\
  bounds_fit d (bounds (self st)) /\
  shape 50 d (position (swarm (self st))) /\
  shape 50 d (velocity (swarm (self st))) /\
  shape 50 d (pbest_pos (swarm (self st))) /\
  length (best_pos (swarm (self st))) = d /\
  pbest_cost (swarm (self st)) = repeat 0 50 /\
  best_cost (swarm (self st)) = 0 /\
  length (previous_pbest_cost st) = 50%nat.

(** An optimizer as [__init__] leaves it with [ftol = 1e-6] and
    [ftol_iter = 5]. *)
Definition fresh (d : nat) (o : Optimizer) : Prop :=
  fst (swarm_size o) = 50%nat /\ ftol o = 1e-6 /\ ftol_iter o = 5%nat /\
  bounds_fit d (bounds o) /\
  shape 50 d (position (swarm o)) /\ shape 50 d (velocity (swarm o)) /\
  shape 50 d (pbest_pos (swarm o)) /\ best_cost (swarm o) = np.inf.

End OfTheOptimizer.

Section OfTheVariants.

Import Algorithms.
Context `{Params}.

(** [gb] is one of the personal bests and costs no more than any. *)
Definition least (f : list float -> float) (sw : Swarm) (gb : list float) : Prop :=
  In gb (personal_best sw) /\
  Forall (fun p => (f gb <=? f p) = true) (personal_best sw).

(** No personal best costs NaN. *)
Definition numeric (f : list float -> float) (sw : Swarm) : Prop :=
  Forall (fun p => is_nan (f p) = false) (personal_best sw).

(** The four runners of [algorithms.py]. *)
Inductive Variant := CPSO | SPSO | HCLPSO | EPSO.

(** The function of a variant. *)
Definition run_variant (v : Variant) :=
  match v with
  | CPSO => CPSOAlgorithm
  | SPSO => SPSOAlgorithm
  | HCLPSO => HCLPSOAlgorithm
  | EPSO => EPSOAlgorithm
  end.

(** The factor a runner hands to [compute_global_best]; HCLPSO draws its
    factors from the stream before its first call. *)
Definition variant_factor (v : Variant) (u : np.stream) (sw : Swarm) : Factor :=
  match v with
  | CPSO | SPSO => Scalar 1
  | HCLPSO =>
      PerDimension (fst (np.uniform u (cursor sw) (1 - alpha) (1 + alpha) num_dimensions))
  | EPSO => Scalar w
  end.

(** The swarm the first call of a runner works on. *)
Definition variant_start (v : Variant) (sw : Swarm) : Swarm :=
  match v with
  | HCLPSO => mkSwarm (particles_position sw) (particles_velocity sw) (personal_best sw)
                (cursor sw + N.of_nat num_dimensions)
  | _ => sw
  end.

(** The factor that multiplies coordinate [j]. *)
Definition factor_at (fac : Factor) (j : nat) : float :=
  match fac with
  | Scalar x => x
  | PerDimension h => nth j h 0
  end.

(** The rows of particle [i] in a swarm. *)
Definition rows (sw : Swarm) (i : nat) :=
  (nth_error (particles_position sw) i, nth_error (particles_velocity sw) i,
   nth_error (personal_best sw) i).

(** The new velocity and position of one particle, coordinate by
    coordinate, with the draws at positions [k ..] of the stream. *)
Definition updated (u : np.stream) (fac : Factor) (k : N) (pb x v gb v' x' : list float)
  : Prop :=
  length v' = num_dimensions /\ length x' = num_dimensions /\
  forall j, (j < num_dimensions)%nat ->
    nth j v' 0 =
      w * nth j v 0
      + c1 * u (k + N.of_nat j)%N * (nth j pb 0 - nth j x 0) * factor_at fac j
      + c2 * u (k + N.of_nat num_dimensions + N.of_nat j)%N
          * (nth j gb 0 - nth j x 0 + 0) * factor_at fac j /\
    nth j x' 0 = nth j x 0 + nth j v' 0.

End OfTheVariants.

End Spec.

Import Spec.

(** ** Instances of the external parts

    A [math.log2] that is exact on the powers of two (and NaN elsewhere), and
    the handlers of the strategies [nearest] and [unmodified]. *)

Module Instances.

Local Open Scope float_scope.

Definition float_of_Z (z : Z) : float :=
  match z with
  | Z0 => 0
  | Zpos _ => of_uint63 (Uint63.of_Z z)
  | Zneg q => - of_uint63 (Uint63.of_Z (Zpos q))
  end.

Definition log2_dyadic (x : float) : float :=
  let (m, e) := Z.frexp x in
  if m =? 0.5 then float_of_Z (e - 1) else nan.

#[export] Instance dyadic : Pyswarms.MathLib := {| Pyswarms.log2 := log2_dyadic |}.

Definition clip (lo hi x : float) : float :=
  if x <? lo then lo else if hi <? x then hi else x.

#[export] Instance nearest_unmodified : Pyswarms.Handlers :=
  {| Pyswarms.bh := clip;
     Pyswarms.vh := fun clamp v =>
       match clamp with Some (lo, hi) => clip lo hi v | None => v end;
     Pyswarms.oh_copies := true |}.

(** A stream of draws in [[0,1)] and the objective [Sphere]. *)
Definition lcg (k : N) : float :=
  of_uint63 (Uint63.of_Z ((Z.of_N k * 37 + 11) mod 64)) / 64.

Definition Sphere (x : np.vec) : float :=
  fold_left add (map (fun y => y * y) x) 0.

End Instances.

(** ** A run of the study's optimizer, on [Sphere] *)

Module Demo.

Import Pyswarms.
Local Open Scope float_scope.

Definition options : Options := mkOptions 0.5 0.3 0.9.

Definition no_swarm : Swarm := mkSwarm [] [] options [] [] [] np.inf [].

Definition no_optimizer : Optimizer :=
  mkOptimizer 0 0 None None (0%nat, 0%nat) options 1 neg_infinity 1 None no_swarm.

(** The optimizer of [gbest.py], built at the start of the stream; its
    constructor reads 400 draws. *)
Definition get {A : Type} (default : A) (x : option A) : A :=
  match x with Some a => a | None => default end.

Definition optimizer : Optimizer :=
  fst (get (no_optimizer, 0%N) (Gbest.optimizerEntrpy Instances.lcg 0 options)).

Definition no_result : EntropyGbest.Result :=
  EntropyGbest.mkResult 0 [] [] (EntropyGbest.enter no_optimizer 0)
    EntropyGbest.MaxIterReached.

(** [optimizerEntrpy.optimize(Sphere, iters=201)], from where the constructor
    left the stream. *)
Definition run : option EntropyGbest.Result :=
  @EntropyGbest.optimize Instances.dyadic Instances.nearest_unmodified
    Instances.lcg optimizer 400 Instances.Sphere 201.

Definition result : EntropyGbest.Result := get no_result run.

(** An optimizer built with [ftol=1e-6] and [ftol_iter=5]. *)
Definition tolerant : Optimizer * N :=
  get (no_optimizer, 0%N)
    (EntropyGbest.init Instances.lcg 0 150 2 options (Some (Gbest.lb, Gbest.ub)) None 1
       1e-6 5 None).

(** An optimizer built with [ftol=1e-6] and [ftol_iter=100], and its run of
    201 iterations on the objective that is [0] everywhere. *)
Definition patient : Optimizer * N :=
  get (no_optimizer, 0%N)
    (EntropyGbest.init Instances.lcg 0 150 2 options (Some (Gbest.lb, Gbest.ub)) None 1
       1e-6 100 None).

Definition stopped : EntropyGbest.Result :=
  get no_result
    (@EntropyGbest.optimize Instances.dyadic Instances.nearest_unmodified
       Instances.lcg (fst patient) (snd patient) zero_objective 201).

End Demo.

(** ** A small run of the variants *)

Module Study.

Local Open Scope float_scope.

(** A small study: three particles in two dimensions, two iterations, one
    run. *)
#[export] Instance study : Params :=
  {| num_iterations := 2; num_runs := 1; num_particles := 3; num_dimensions := 2;
     c1 := 1.5; c2 := 1.5; w := 0.5 |}.

(** The module as imported at the start of the stream. *)
Definition store : Algorithms.Store := Algorithms.import_module Instances.lcg 0.

Definition no_store : Algorithms.Store :=
  Algorithms.mkStore [] [] (Algorithms.mkSwarm [] [] [] 0).

(** An objective that is not a number where the second coordinate is
    negative. *)
Definition root (x : np.vec) : float := sqrt (hd 0 (tl x)).

(** [CPSOAlgorithm(0, Sphere)] and [CPSOAlgorithm(0, root)] on the module as
    imported. *)
Definition after_CPSO : np.matrix * Algorithms.Store :=
  Demo.get ([], no_store) (Algorithms.CPSOAlgorithm Instances.lcg 0 Instances.Sphere store).

Definition after_CPSO_root : np.matrix * Algorithms.Store :=
  Demo.get ([], no_store) (Algorithms.CPSOAlgorithm Instances.lcg 0 root store).

(** One call [compute_global_best(1, Sphere)] on the module as imported. *)
Definition after_call : np.vec * Algorithms.Swarm :=
  Demo.get ([], Algorithms.swarm no_store)
    (Algorithms.compute_global_best Instances.lcg (Algorithms.Scalar 1) Instances.Sphere
       (Algorithms.swarm store)).

End Study.

(** ** What the loops keep

    The shapes and the orderings that the properties below are stated
    with. *)

Module Invariants.

(** The sign of a specification float that has one. *)
Definition signed (s : bool) (x : spec_float) : Prop :=
  match x with
  | S754_zero s' | S754_infinity s' | S754_finite s' _ _ => s' = s
  | S754_nan => True
  end.

Section OfTheOptimizer.

Import Pyswarms EntropyGbest.
Local Open Scope float_scope.

(** No personal best cost is NaN, nor is the best cost, which is at most
    each of them. *)
Definition sound (sw : Swarm) : Prop :=
  Forall (fun c => is_nan c = false) (pbest_cost sw) /\
  is_nan (best_cost sw) = false /\
  Forall (fun c => (best_cost sw <=? c) = true) (pbest_cost sw).

(** Each personal best cost is [inf] or the objective at the personal best
    position; the best cost is [inf] or equal to a personal best cost. *)
Definition tracked (f : list float -> float) (sw : Swarm) : Prop :=
  (forall i pc, nth_error (pbest_cost sw) i = Some pc ->
     pc = np.inf \/ exists pp, nth_error (pbest_pos sw) i = Some pp /\ pc = f pp) /\
  (best_cost sw = np.inf \/
   exists c, In c (pbest_cost sw) /\ (c =? best_cost sw) = true).

(** Both acceleration coefficients are at least [0.1]. *)
Definition floored (o : Options) : Prop :=
  Py.geb (c1 o) 0.1 = true /\ Py.geb (c2 o) 0.1 = true.

(** The arrays of a swarm of [n] particles in [d] dimensions, with bounds
    that fit. *)
Definition arrays (n d : nat) (o : Optimizer) : Prop :=
  (0 < n)%nat /\ bounds_fit d (bounds o) /\
  shape n d (position (swarm o)) /\ shape n d (velocity (swarm o)) /\
  shape n d (pbest_pos (swarm o)).

(** A swarm that has found a best: its best position has [d] coordinates
    and its best cost is below [inf]. *)
Definition started (d : nat) (sw : Swarm) : Prop :=
  length (best_pos sw) = d /\ (best_cost sw <? np.inf) = true.

(** An optimizer [optimize] can be called on: its swarm has found a best, or
    it has none yet and some particle costs less than [inf]. *)
Definition operable (f : list float -> float) (n d : nat) (o : Optimizer) : Prop :=
  arrays n d o /\ fst (swarm_size o) = n /\
  (started d (swarm o) \/
   best_cost (swarm o) = np.inf /\
   Exists (fun x => (f x <? np.inf) = true) (position (swarm o))).

(** A run inside the loop. *)
Definition going (f : list float -> float) (n d : nat) (st : Run) : Prop :=
  arrays n d (self st) /\
  length (pbest_cost (swarm (self st))) = n /\ length (previous_pbest_cost st) = n /\
  sound (swarm (self st)) /\
  (started d (swarm (self st)) \/
   best_cost (swarm (self st)) = np.inf /\
   pbest_cost (swarm (self st)) = np.full n np.inf /\
   Exists (fun x => (f x <? np.inf) = true) (position (swarm (self st)))).

(** A new optimizer: no best position, the best cost [inf]. *)
Definition unstarted (n d : nat) (o : Optimizer) : Prop :=
  arrays n d o /\ fst (swarm_size o) = n /\ (1 <= ftol_iter o)%nat /\
  best_pos (swarm o) = [] /\ best_cost (swarm o) = np.inf.

End OfTheOptimizer.

Section OfTheVariants.

Import Algorithms.
Context `{Params}.

(** The arrays of the swarm, one row of [num_dimensions] coordinates for
    each of the [num_particles] particles. *)
Definition fits (sw : Swarm) : Prop :=
  shape num_particles num_dimensions (particles_position sw) /\
  shape num_particles num_dimensions (particles_velocity sw) /\
  shape num_particles num_dimensions (personal_best sw).

(** A factor the update can multiply by. *)
Definition factor_fits (fac : Factor) : Prop :=
  match fac with
  | Scalar _ => True
  | PerDimension v => length v = num_dimensions
  end.

(** The module's globals as the import shapes them. *)
Definition store_fits (st : Store) : Prop :=
  shape num_iterations num_runs (best_fitness_evolution st) /\
  shape num_iterations num_runs (mean_gbest_evolution st) /\
  fits (swarm st).

(** The matrix a runner writes and returns, and the one it leaves alone. *)
Definition written (v : Variant) (st : Store) : list (list float) :=
  match v with
  | CPSO | EPSO => best_fitness_evolution st
  | SPSO | HCLPSO => mean_gbest_evolution st
  end.

Definition kept (v : Variant) (st : Store) : list (list float) :=
  match v with
  | CPSO | EPSO => mean_gbest_evolution st
  | SPSO | HCLPSO => best_fitness_evolution st
  end.

End OfTheVariants.

Section OfThePlot.

Import Algorithms Plotting.
Context `{Params}.
Local Open Scope float_scope.

(** The four matrices of [plotting.py], one column for each run. *)
Definition curves_fit (cv : Curves) : Prop :=
  shape num_iterations num_runs (cpso cv) /\ shape num_iterations num_runs (spso cv) /\
  shape num_iterations num_runs (hcpso cv) /\ shape num_iterations num_runs (epso cv).

(** The matrix of [plotting.py] that holds the curve of a variant. *)
Definition curve (v : Variant) (cv : Curves) : list (list float) :=
  match v with
  | CPSO => cpso cv
  | SPSO => spso cv
  | HCLPSO => hcpso cv
  | EPSO => epso cv
  end.

(** A swarm that holds a personal best of least cost, and that cost not
    above zero. *)
Definition at_zero (f : list float -> float) (st : Store) : Prop :=
  exists gb, least f (swarm st) gb /\ (f gb <=? 0) = true.

(** A list of zeros, of either sign. *)
Definition zeros (l : list float) : Prop := Forall (fun c => (c =? 0) = true) l.

End OfThePlot.

End Invariants.

Import Invariants.

(** ** [plotting.py]: the means and the minima of the curves

    What [plot] does between the loop over the runs and the call of the
    optimizers of [gbest.py]. *)

Module Summary.

Import Plotting.
Local Open Scope float_scope.

(** [np.add.reduce] along an axis, whose order of summation numpy leaves
    open, and [math.log] where it is defined. *)
Class Numerics := {
  add_reduce : np.vec -> float;
  ln : float -> float }.

(** [np.mean] of one row. *)
Definition mean `{Numerics} (a : np.vec) : float :=
  add_reduce a / Py.float_of_nat (length a).

(** [math.log(x)]: [ValueError] for a zero or a negative [x]. *)
Definition math_log `{Numerics} (x : float) : option float :=
  if x <=? 0 then None else Some (ln x).

(** [np.min(m, axis=0)] on a matrix of [num_runs] columns: [ValueError] when
    a column is empty. *)
Definition min_axis0 `{Params} (m : np.matrix) : option np.vec :=
  np.map_opt (fun c => col <- np.column m c ;; np.min col) (seq 0 num_runs).

(** [np.mean(m, axis=1)]. *)
Definition mean_axis1 `{Numerics} (m : np.matrix) : np.vec := map mean m.

Record Summaries := mkSummaries {
  mean_it_CPSO : np.vec; min_run_CPSO : np.vec;
  mean_it_SPSO : np.vec; min_run_SPSO : np.vec;
  mean_it_HCPSO : np.vec; min_run_HCPSO : np.vec;
  mean_it_EPSO : np.vec; min_run_EPSO : np.vec }.

(** Lines 23-26, the means and the minima, and lines 27-30, the logarithms
    of the means. *)
Definition summaries `{Params} `{Numerics} (cv : Curves) : option Summaries :=
  let mean_it_CPSO := mean_axis1 (cpso cv) in
  min_run_CPSO <- min_axis0 (cpso cv) ;;
  let mean_it_SPSO := mean_axis1 (spso cv) in
  min_run_SPSO <- min_axis0 (spso cv) ;;
  let mean_it_HCPSO := mean_axis1 (hcpso cv) in
  min_run_HCPSO <- min_axis0 (hcpso cv) ;;
  let mean_it_EPSO := mean_axis1 (epso cv) in
  min_run_EPSO <- min_axis0 (epso cv) ;;
  mean_it_CPSO <- np.map_opt math_log mean_it_CPSO ;;
  mean_it_SPSO <- np.map_opt math_log mean_it_SPSO ;;
  mean_it_HCPSO <- np.map_opt math_log mean_it_HCPSO ;;
  mean_it_EPSO <- np.map_opt math_log mean_it_EPSO ;;
  Some (mkSummaries mean_it_CPSO min_run_CPSO mean_it_SPSO min_run_SPSO
          mean_it_HCPSO min_run_HCPSO mean_it_EPSO min_run_EPSO).

(** The minima of the runs of a variant. *)
Definition min_run (v : Variant) (s : Summaries) : np.vec :=
  match v with
  | CPSO => min_run_CPSO s
  | SPSO => min_run_SPSO s
  | HCLPSO => min_run_HCPSO s
  | EPSO => min_run_EPSO s
  end.

End Summary.

(** ** Further runs of the optimizer and of the variants *)

Module Trials.

Local Open Scope float_scope.

(** Sums taken in order from [0], and a logarithm that is left out: it
    answers NaN, and no property reads what it answers. *)
#[export] Instance in_order : Summary.Numerics :=
  {| Summary.add_reduce := Py.sum; Summary.ln := fun _ => nan |}.

(** An objective that costs [1000] everywhere, and one that never costs a
    number. *)
Definition flat (x : np.vec) : float := 1000.
Definition void (x : np.vec) : float := nan.

(** A second call of [optimize], with the objective [flat], on the
    optimizer as the run of the study left it. *)
Definition again : EntropyGbest.Result :=
  Demo.get Demo.no_result
    (@EntropyGbest.optimize Instances.dyadic Instances.nearest_unmodified Instances.lcg
       (EntropyGbest.self (EntropyGbest.final Demo.result)) 0 flat 3).

(** A run on the zero objective of the optimizer built with [ftol=1e-6] and
    [ftol_iter=5]. *)
Definition converged : EntropyGbest.Result :=
  Demo.get Demo.no_result
    (@EntropyGbest.optimize Instances.dyadic Instances.nearest_unmodified Instances.lcg
       (fst Demo.tolerant) 400 zero_objective 100).

(** The first iteration of the run of the study. *)
Definition first_iteration : EntropyGbest.Run :=
  fst (Demo.get (EntropyGbest.enter Demo.no_optimizer 0, false)
         (@EntropyGbest.iteration Instances.dyadic Instances.nearest_unmodified
            Instances.lcg Instances.Sphere 0 (EntropyGbest.enter Demo.optimizer 400))).

(** [SPSOAlgorithm(0, Sphere)] on the module of the small study as
    imported. *)
Definition after_SPSO : np.matrix * Algorithms.Store :=
  Demo.get ([], Study.no_store)
    (@Algorithms.SPSOAlgorithm Study.study Instances.lcg 0 Instances.Sphere Study.store).

(** [plot] on the small study: its first pass, and the whole loop with
    [Sphere] and with the zero objective. *)
Definition no_curves : Plotting.Curves := Plotting.mkCurves [] [] [] [].

Definition blank : Plotting.Curves :=
  let z := np.zeros2 2 1 in Plotting.mkCurves z z z z.

Definition first_pass : Plotting.Curves * Algorithms.Store :=
  Demo.get (no_curves, Study.no_store)
    (@Plotting.plot_run Study.study Instances.lcg Instances.Sphere 0 (blank, Study.store)).

Definition plotted : Plotting.Curves * Algorithms.Store :=
  Demo.get (no_curves, Study.no_store)
    (@Plotting.plot Study.study Instances.lcg Instances.Sphere Study.store).

Definition plotted_zero : Plotting.Curves * Algorithms.Store :=
  Demo.get (no_curves, Study.no_store)
    (@Plotting.plot Study.study Instances.lcg zero_objective Study.store).

Definition no_summaries : Summary.Summaries :=
  Summary.mkSummaries [] [] [] [] [] [] [] [].

Definition table : Summary.Summaries :=
  Demo.get no_summaries (@Summary.summaries Study.study in_order (fst plotted)).

End Trials.

(** * Properties *)

(** ** IEEE-754 comparisons *)

Module F64.

Local Open Scope float_scope.

Lemma is_nan_spec (x : float) : is_nan x = sf_nan (Prim2SF x).
Proof.
  unfold is_nan. rewrite eqb_spec. unfold SFeqb.
  destruct (Prim2SF x) as [s| s| |s m e]; simpl; try reflexivity.
  - destruct s; reflexivity.
  - destruct s; rewrite Z.compare_refl, Pos.compare_cont_refl; reflexivity.
Qed.

Lemma SFcompare_refl (x : spec_float) :
  sf_nan x = false -> SFcompare x x = Some Eq.
Proof.
  destruct x as [s| s| |s m e]; simpl; intros H; try discriminate; try reflexivity.
  - destruct s; reflexivity.
  - destruct s; rewrite Z.compare_refl, Pos.compare_cont_refl; reflexivity.
Qed.

Lemma SFcompare_total (x y : spec_float) :
  sf_nan x = false -> sf_nan y = false -> exists c, SFcompare x y = Some c.
Proof.
  destruct x as [s| s| |s m e], y as [s'| s'| |s' m' e']; simpl; intros; try discriminate; eauto.
Qed.

(** Case analysis on every integer and mantissa comparison in sight. *)
Ltac cmp_cases :=
  change (Pos.compare_cont Eq) with Pos.compare in *;
  repeat match goal with
         | H : context [(?a ?= ?b)%Z] |- _ => destruct (Z.compare_spec a b)
         | |- context [(?a ?= ?b)%Z] => destruct (Z.compare_spec a b)
         | H : context [(?a ?= ?b)%positive] |- _ => destruct (Pos.compare_spec a b)
         | |- context [(?a ?= ?b)%positive] => destruct (Pos.compare_spec a b)
         end;
  simpl in *; subst; try discriminate; try reflexivity; try lia.

Lemma SFleb_trans (x y z : spec_float) :
  SFleb x y = true -> SFleb y z = true -> SFleb x z = true.
Proof.
  unfold SFleb.
  destruct x as [sx| sx| |sx mx ex], y as [sy| sy| |sy my ey], z as [sz| sz| |sz mz ez];
    simpl; try discriminate; try reflexivity;
    try destruct sx; try destruct sy; try destruct sz;
    simpl; try discriminate; try reflexivity; intros; cmp_cases.
Qed.

Lemma SFltb_SFleb (x y : spec_float) : SFltb x y = true -> SFleb x y = true.
Proof.
  unfold SFltb, SFleb. destruct (SFcompare x y) as [[ | | ]|]; intros; congruence.
Qed.

Lemma SFleb_refl (x : spec_float) : sf_nan x = false -> SFleb x x = true.
Proof.
  intros H. unfold SFleb. rewrite (SFcompare_refl _ H). reflexivity.
Qed.

Lemma SFleb_total (x y : spec_float) :
  sf_nan x = false -> sf_nan y = false -> SFltb x y = false -> SFleb y x = true.
Proof.
  unfold SFleb, SFltb.
  destruct x as [sx| sx| |sx mx ex], y as [sy| sy| |sy my ey];
    simpl; try discriminate; try reflexivity;
    try destruct sx; try destruct sy;
    simpl; try discriminate; try reflexivity; intros; cmp_cases.
Qed.

Lemma SFltb_SFleb_trans (x y z : spec_float) :
  SFltb x y = true -> SFleb y z = true -> SFltb x z = true.
Proof.
  unfold SFleb, SFltb.
  destruct x as [sx| sx| |sx mx ex], y as [sy| sy| |sy my ey], z as [sz| sz| |sz mz ez];
    simpl; try discriminate; try reflexivity;
    try destruct sx; try destruct sy; try destruct sz;
    simpl; try discriminate; try reflexivity; intros; cmp_cases.
Qed.

Lemma SFleb_SFltb_trans (x y z : spec_float) :
  SFleb x y = true -> SFltb y z = true -> SFltb x z = true.
Proof.
  unfold SFleb, SFltb.
  destruct x as [sx| sx| |sx mx ex], y as [sy| sy| |sy my ey], z as [sz| sz| |sz mz ez];
    simpl; try discriminate; try reflexivity;
    try destruct sx; try destruct sy; try destruct sz;
    simpl; try discriminate; try reflexivity; intros; cmp_cases.
Qed.

Lemma SFleb_false (x y : spec_float) :
  sf_nan x = false -> sf_nan y = false -> SFleb x y = false -> SFltb y x = true.
Proof.
  unfold SFleb, SFltb.
  destruct x as [sx| sx| |sx mx ex], y as [sy| sy| |sy my ey];
    simpl; try discriminate; try reflexivity;
    try destruct sx; try destruct sy;
    simpl; try discriminate; try reflexivity; intros; cmp_cases.
Qed.

Lemma SFltb_not_nan (x y : spec_float) :
  SFltb x y = true -> sf_nan x = false /\ sf_nan y = false.
Proof.
  unfold SFltb. destruct x, y; simpl; try discriminate; auto.
Qed.

Lemma SFleb_not_nan (x y : spec_float) :
  SFleb x y = true -> sf_nan x = false /\ sf_nan y = false.
Proof.
  unfold SFleb. destruct x, y; simpl; try discriminate; auto.
Qed.

(** The same facts on binary64 numbers. *)

Lemma ltb_leb (x y : float) : (x <? y) = true -> (x <=? y) = true.
Proof. rewrite ltb_spec, leb_spec. apply SFltb_SFleb. Qed.

Lemma leb_refl (x : float) : is_nan x = false -> (x <=? x) = true.
Proof. rewrite is_nan_spec, leb_spec. apply SFleb_refl. Qed.

Lemma leb_trans (x y z : float) : (x <=? y) = true -> (y <=? z) = true -> (x <=? z) = true.
Proof. rewrite !leb_spec. apply SFleb_trans. Qed.

Lemma ltb_leb_trans (x y z : float) : (x <? y) = true -> (y <=? z) = true -> (x <? z) = true.
Proof. rewrite !ltb_spec, leb_spec. apply SFltb_SFleb_trans. Qed.

Lemma leb_total (x y : float) :
  is_nan x = false -> is_nan y = false -> (x <? y) = false -> (y <=? x) = true.
Proof. rewrite !is_nan_spec, ltb_spec, leb_spec. apply SFleb_total. Qed.

Lemma leb_ltb_trans (x y z : float) :
  (x <=? y) = true -> (y <? z) = true -> (x <? z) = true.
Proof. rewrite !ltb_spec, leb_spec. apply SFleb_SFltb_trans. Qed.

Lemma leb_false (x y : float) :
  is_nan x = false -> is_nan y = false -> (x <=? y) = false -> (y <? x) = true.
Proof. rewrite !is_nan_spec, ltb_spec, leb_spec. apply SFleb_false. Qed.

(** NaN is above nothing, and nothing is at most NaN. *)
Lemma ltb_nan_r (x y : float) : is_nan y = true -> (x <? y) = false.
Proof.
  rewrite is_nan_spec, ltb_spec. unfold SFltb.
  destruct (Prim2SF y); try discriminate. destruct (Prim2SF x); reflexivity.
Qed.

Lemma leb_nan_r (x y : float) : is_nan y = true -> (x <=? y) = false.
Proof.
  rewrite is_nan_spec, leb_spec. unfold SFleb.
  destruct (Prim2SF y); try discriminate. destruct (Prim2SF x); reflexivity.
Qed.

(** What is below something is below [inf], and is not [inf]. *)
Lemma ltb_below_inf (x y : float) : (x <? y) = true -> (x <? infinity) = true.
Proof.
  rewrite !ltb_spec. change (Prim2SF infinity) with (S754_infinity false). unfold SFltb.
  destruct (Prim2SF x) as [sx| sx| |sx mx ex], (Prim2SF y) as [sy| sy| |sy my ey];
    try destruct sx; try destruct sy; simpl; try discriminate; reflexivity.
Qed.

Lemma ltb_inf_not_eqb (x : float) : (x <? infinity) = true -> (x =? infinity) = false.
Proof.
  rewrite ltb_spec, eqb_spec. change (Prim2SF infinity) with (S754_infinity false).
  unfold SFltb, SFeqb.
  destruct (Prim2SF x) as [sx| sx| |sx mx ex]; try destruct sx; simpl;
    try discriminate; reflexivity.
Qed.

Lemma ltb_not_nan (x y : float) : (x <? y) = true -> is_nan x = false /\ is_nan y = false.
Proof. rewrite !is_nan_spec, ltb_spec. apply SFltb_not_nan. Qed.

Lemma leb_not_nan (x y : float) : (x <=? y) = true -> is_nan x = false /\ is_nan y = false.
Proof. rewrite !is_nan_spec, leb_spec. apply SFleb_not_nan. Qed.

Lemma nan_ltb_l (x y : float) : is_nan x = true -> (x <? y) = false.
Proof.
  intros H. destruct (x <? y) eqn:E; [|reflexivity].
  apply ltb_not_nan in E. destruct E; congruence.
Qed.

Lemma nan_ltb_r (x y : float) : is_nan y = true -> (x <? y) = false.
Proof.
  intros H. destruct (x <? y) eqn:E; [|reflexivity].
  apply ltb_not_nan in E. destruct E; congruence.
Qed.

Lemma nan_leb_l (x y : float) : is_nan x = true -> (x <=? y) = false.
Proof.
  intros H. destruct (x <=? y) eqn:E; [|reflexivity].
  apply leb_not_nan in E. destruct E; congruence.
Qed.

Lemma nan_leb_r (x y : float) : is_nan y = true -> (x <=? y) = false.
Proof.
  intros H. destruct (x <=? y) eqn:E; [|reflexivity].
  apply leb_not_nan in E. destruct E; congruence.
Qed.

End F64.

(** ** Shapes of arrays *)

Module Shape.

Lemma zip_with_length {A B C : Type} (op : A -> B -> C) (a : list A) :
  forall (b : list B) (r : list C),
    np.zip_with op a b = Some r -> length b = length a /\ length r = length a.
Proof.
  induction a as [|x a IH]; intros [|y b] r; simpl; try discriminate.
  - intros [= <-]. auto.
  - destruct (np.zip_with op a b) as [r'|] eqn:E; [|discriminate].
    intros [= <-]. destruct (IH _ _ E). simpl. auto.
Qed.

Lemma zip_with_some {A B C : Type} (op : A -> B -> C) (a : list A) :
  forall (b : list B), length b = length a -> exists r, np.zip_with op a b = Some r.
Proof.
  induction a as [|x a IH]; intros [|y b]; simpl; try discriminate; eauto.
  intros [= E]. destruct (IH _ E) as [r ->]. eauto.
Qed.

Lemma zip_with_opt_length {A B C : Type} (op : A -> B -> option C) (a : list A) :
  forall (b : list B) (r : list C),
    np.zip_with_opt op a b = Some r -> length b = length a /\ length r = length a.
Proof.
  induction a as [|x a IH]; intros [|y b] r; simpl; try discriminate.
  - intros [= <-]. auto.
  - destruct (op x y); [|discriminate].
    destruct (np.zip_with_opt op a b) as [r'|] eqn:E; [|discriminate].
    intros [= <-]. destruct (IH _ _ E). simpl. auto.
Qed.

Lemma map_opt_length {A B : Type} (g : A -> option B) (a : list A) :
  forall r, np.map_opt g a = Some r -> length r = length a.
Proof.
  induction a as [|x a IH]; simpl; intros r.
  - intros [= <-]. reflexivity.
  - destruct (g x); [|discriminate].
    destruct (np.map_opt g a) as [r'|]; [|discriminate].
    intros [= <-]. simpl. f_equal. apply IH. reflexivity.
Qed.

Lemma rand2_shape (u : np.stream) (n d : nat) :
  forall k, shape n d (fst (np.rand2 u k n d)) /\
            snd (np.rand2 u k n d) = (k + N.of_nat (n * d))%N.
Proof.
  induction n as [|n IH]; intros k; simpl.
  - split; [split; [reflexivity|constructor]|lia].
  - destruct (np.rand2 u (k + N.of_nat d) n d) as [m k''] eqn:E.
    specialize (IH (k + N.of_nat d)%N). rewrite E in IH. simpl in *.
    destruct IH as [[Hl Hf] Hk]. split; [split|].
    + simpl. congruence.
    + constructor; [|exact Hf]. unfold np.draws. now rewrite length_map, length_seq.
    + lia.
Qed.

Lemma where_not_some {A : Type} (mask : list bool) (a b : list A) :
  length a = length mask -> length b = length mask ->
  exists r, np.where_not mask a b = Some r /\ length r = length mask.
Proof.
  intros Ha Hb. unfold np.where_not.
  destruct (@zip_with_some _ _ (A * A) pair a b) as [ab Hab]; [congruence|].
  rewrite Hab. apply zip_with_length in Hab. destruct Hab as [_ Hab].
  destruct (@zip_with_some _ _ A
              (fun (m : bool) (xy : A * A) => if negb m then fst xy else snd xy) mask ab)
    as [r Hr]; [congruence|].
  exists r. split; [exact Hr|]. apply zip_with_length in Hr. tauto.
Qed.

Lemma zip_with_Forall {A B C : Type} (op : A -> B -> C) (P : C -> Prop) (a : list A) :
  forall (b : list B) (r : list C),
    (forall x y, In x a -> In y b -> P (op x y)) ->
    np.zip_with op a b = Some r -> Forall P r.
Proof.
  induction a as [|x a IH]; intros [|y b] r HP; simpl; try discriminate.
  - intros [= <-]. constructor.
  - destruct (np.zip_with op a b) as [r'|] eqn:E; [|discriminate].
    intros [= <-]. constructor.
    + apply HP; now left.
    + eapply IH; [|exact E]. intros; apply HP; now right.
Qed.

Lemma where_not_Forall {A : Type} (P : A -> Prop) (mask : list bool) (a b r : list A) :
  Forall P a -> Forall P b -> np.where_not mask a b = Some r -> Forall P r.
Proof.
  intros Ha Hb. unfold np.where_not.
  destruct (np.zip_with pair a b) as [ab|] eqn:Hab; [|discriminate].
  intros Hr. eapply zip_with_Forall; [|exact Hr].
  intros m [x y] _ Hin. simpl.
  assert (Hxy : Forall (fun xy : A * A => P (fst xy) /\ P (snd xy)) ab).
  { eapply zip_with_Forall; [|exact Hab]. intros x' y' Hx Hy. simpl.
    rewrite Forall_forall in Ha, Hb. auto. }
  rewrite Forall_forall in Hxy. destruct (Hxy _ Hin). now destruct (negb m).
Qed.

Lemma argmin_from_lt (rest : np.vec) :
  forall mp min_ind i, (min_ind < i)%nat ->
    (np.argmin_from mp min_ind i rest < i + length rest)%nat.
Proof.
  induction rest as [|x r IH]; intros mp min_ind i Hlt; simpl.
  - destruct (is_nan mp); lia.
  - destruct (is_nan mp); [lia|].
    destruct (negb (Py.geb x mp)).
    + specialize (IH x i (S i)). lia.
    + specialize (IH mp min_ind (S i)). lia.
Qed.

Lemma argmin_lt (a : np.vec) (i : nat) : np.argmin a = Some i -> (i < length a)%nat.
Proof.
  destruct a as [|x r]; simpl; [discriminate|]. intros [= <-].
  pose proof (argmin_from_lt r x 0 1). lia.
Qed.

Lemma nth_error_some {A : Type} (l : list A) (i : nat) :
  (i < length l)%nat -> exists x, nth_error l i = Some x /\ In x l.
Proof.
  intros Hi. destruct (nth_error l i) as [x|] eqn:E.
  - exists x. split; [reflexivity|]. eapply nth_error_In; eassumption.
  - apply nth_error_None in E. lia.
Qed.

Lemma vop_some (op : float -> float -> float) (a b : list float) :
  length b = length a ->
  exists r, np.vop op a b = Some r /\ length r = length a.
Proof.
  intros E. destruct (zip_with_some op a b E) as [r Hr].
  exists r. split; [exact Hr|]. apply zip_with_length in Hr. tauto.
Qed.

Lemma map_opt_shape {A : Type} (g : A -> option (list float)) (d : nat) (a : list A) :
  (forall x, In x a -> exists y, g x = Some y /\ length y = d) ->
  exists r, np.map_opt g a = Some r /\ shape (length a) d r.
Proof.
  induction a as [|x a IH]; intros Hg; simpl.
  - exists []. split; [reflexivity|split; [reflexivity|constructor]].
  - destruct (Hg x) as [y [-> Hy]]; [now left|].
    destruct IH as [r [-> [Hl Hf]]]; [intros; apply Hg; now right|].
    exists (y :: r). split; [reflexivity|]. split; [simpl; congruence|now constructor].
Qed.

Lemma mop_shape (op : float -> float -> float) (d : nat) (a : list (list float)) :
  forall b n, shape n d a -> shape n d b ->
    exists r, np.mop op a b = Some r /\ shape n d r.
Proof.
  unfold np.mop.
  induction a as [|x a IH]; intros [|y b] m [Hla Hfa] [Hlb Hfb]; simpl in *;
    try congruence.
  - exists []. split; [reflexivity|]. split; [assumption|constructor].
  - inversion Hfa as [|? ? Hx Hfa']; inversion Hfb as [|? ? Hy Hfb']; subst.
    destruct (vop_some op x y) as [z [-> Hz]]; [congruence|].
    destruct (IH b (length a)) as [r [-> [Hl Hf]]];
      [split; [reflexivity|assumption]|split; [congruence|assumption]|].
    exists (z :: r). split; [reflexivity|].
    split; [simpl; congruence|constructor; [congruence|assumption]].
Qed.

Lemma map_map_shape (g : float -> float) (n d : nat) (a : list (list float)) :
  shape n d a -> shape n d (map (map g) a).
Proof.
  intros [Hl Hf]. split; [now rewrite length_map|].
  apply Forall_map. eapply Forall_impl; [|exact Hf].
  intros r Hr. simpl. now rewrite length_map.
Qed.

Lemma shape_first (n d : nat) (a : list (list float)) :
  (0 < n)%nat -> shape n d a ->
  match a with r :: _ => length r | [] => O end = d.
Proof.
  intros Hn [Hl Hf]. destruct a as [|r a]; [simpl in Hl; lia|].
  now inversion Hf.
Qed.

Lemma where_not_true {A : Type} (n : nat) :
  forall a b : list A, length a = n -> length b = n ->
    np.where_not (repeat true n) a b = Some b.
Proof.
  unfold np.where_not.
  induction n as [|n IH]; intros [|x a] [|y b]; simpl; try discriminate; auto.
  intros [= Ha] [= Hb]. specialize (IH a b Ha Hb).
  destruct (np.zip_with pair a b) as [ab|]; [|discriminate]. simpl in *.
  destruct (np.zip_with _ (repeat true n) ab); [|discriminate].
  now injection IH as ->.
Qed.

Lemma where_not_false {A : Type} (n : nat) :
  forall a b : list A, length a = n -> length b = n ->
    np.where_not (repeat false n) a b = Some a.
Proof.
  unfold np.where_not.
  induction n as [|n IH]; intros [|x a] [|y b]; simpl; try discriminate; auto.
  intros [= Ha] [= Hb]. specialize (IH a b Ha Hb).
  destruct (np.zip_with pair a b) as [ab|]; [|discriminate]. simpl in *.
  destruct (np.zip_with _ (repeat false n) ab); [|discriminate].
  now injection IH as ->.
Qed.

Lemma map_const {A B : Type} (c : B) (l : list A) :
  map (fun _ => c) l = repeat c (length l).
Proof. induction l; simpl; congruence. Qed.

End Shape.

(** ** The entropy of the labels *)

Section Entropy.

Import Pyswarms EntropyGbest.
Local Open Scope float_scope.
Context `{MathLib}.

(** C9: [entropy] is exactly [1.0] on [[0,0,0,1,1,1]] and exactly [0.0] on
    [[0,0,0,0]], for every [log2] that is exact at [0.5] and at [1]. *)
Theorem entropy_two_labels_one_label :
  log2 0.5 = -1 -> log2 1 = 0 ->
  entropy [0; 0; 0; 1; 1; 1]%nat = 1 /\ entropy [0; 0; 0; 0]%nat = 0.
Proof.
  intros Hhalf Hone. split.
  - change (entropy [0; 0; 0; 1; 1; 1]%nat)
      with (0 + (- 0.5) * log2 0.5 + (- 0.5) * log2 0.5).
    rewrite Hhalf. reflexivity.
  - change (entropy [0; 0; 0; 0]%nat) with (0 + (- 1) * log2 1).
    rewrite Hone. reflexivity.
Qed.

End Entropy.

(** C9 at the [log2] that is exact on the powers of two. *)
Lemma entropy_two_labels_one_label_dyadic :
  @EntropyGbest.entropy Instances.dyadic [0; 0; 0; 1; 1; 1]%nat = 1%float /\
  @EntropyGbest.entropy Instances.dyadic [0; 0; 0; 0]%nat = 0%float.
Proof.
  apply (@entropy_two_labels_one_label Instances.dyadic); reflexivity.
Defined.

(** ** Construction *)

Section Construction.

Import Pyswarms EntropyGbest Shape.
Local Open Scope float_scope.

Lemma generate_row_some (u : np.stream) (k : N) (d : nat) (center : float)
  (bounds : option bounds_t) :
  match bounds with
  | Some (lb, ub) => length lb = d /\ length ub = d
  | None => True
  end ->
  exists r, generate_row u k center bounds d = Some (r, (k + N.of_nat d)%N) /\ length r = d.
Proof.
  destruct bounds as [[lb ub]|]; intros Hb; unfold generate_row.
  - destruct Hb as [Hl Hu].
    destruct (@zip_with_some _ _ (float * float) pair lb ub) as [lu Hlu]; [congruence|].
    rewrite Hlu. apply zip_with_length in Hlu. destruct Hlu as [_ Hlu].
    destruct (@zip_with_some _ _ float
                (fun (b : float * float) (x : float) => fst b + (snd b - fst b) * x)
                lu (np.draws u k d)) as [r Hr].
    { unfold np.draws. rewrite length_map, length_seq. congruence. }
    rewrite Hr. apply zip_with_length in Hr. destruct Hr as [_ Hr].
    eexists. split; [reflexivity|].
    unfold np.sop. rewrite length_map. congruence.
  - unfold np.uniform, np.sop, np.draws. eexists. split; [reflexivity|].
    now rewrite !length_map, length_seq.
Qed.

Lemma generate_swarm_some (u : np.stream) (d : nat) (center : float)
  (bounds : option bounds_t) :
  match bounds with
  | Some (lb, ub) => length lb = d /\ length ub = d
  | None => True
  end ->
  forall n k, exists m,
    generate_swarm u k n d center bounds = Some (m, (k + N.of_nat (n * d))%N) /\ shape n d m.
Proof.
  intros Hb. induction n as [|n IH]; intros k; simpl.
  - exists []. split; [f_equal; f_equal; lia|split; [reflexivity|constructor]].
  - destruct (generate_row_some u k d center bounds Hb) as [r [-> Hr]].
    destruct (IH (k + N.of_nat d)%N) as [m [-> [Hl Hf]]].
    exists (r :: m). split; [f_equal; f_equal; lia|].
    split; [simpl; congruence|constructor; assumption].
Qed.

Lemma generate_velocity_shape (u : np.stream) (k : N) (n d : nat) (clamp : option clamp_t) :
  shape n d (fst (generate_velocity u k n d clamp)) /\
  snd (generate_velocity u k n d clamp) = (k + N.of_nat (n * d))%N.
Proof.
  unfold generate_velocity.
  destruct (match clamp with Some c => c | None => (0, 1) end) as [lo hi].
  destruct (rand2_shape u n d k) as [[Hl Hf] Hk].
  destruct (np.rand2 u k n d) as [m k']. simpl in *.
  split; [split|exact Hk].
  - now rewrite length_map.
  - apply Forall_map. eapply Forall_impl; [|exact Hf].
    intros r Hr. simpl. now rewrite length_map.
Qed.

(** A swarm created without initial positions: the personal bests are the
    positions, and [2 * n * d] draws are read. *)
Lemma create_swarm_some (u : np.stream) (k : N) (n d : nat) (opts : Options)
  (b : option bounds_t) (center : float) (clamp : option clamp_t) :
  bounds_fit d b ->
  exists m v,
    create_swarm u k n d opts b center None clamp =
      Some (mkSwarm m v opts m [] [] np.inf [],
            (k + N.of_nat (n * d) + N.of_nat (n * d))%N) /\
    shape n d m /\ shape n d v.
Proof.
  intros Hb. unfold create_swarm.
  destruct (generate_swarm_some u d center b Hb n k) as [m [-> Hm]].
  destruct (generate_velocity_shape u (k + N.of_nat (n * d))%N n d clamp) as [Hv Hk].
  destruct (generate_velocity u (k + N.of_nat (n * d))%N n d clamp) as [v k2].
  simpl in Hv, Hk. subst k2. exists m, v. auto.
Qed.

(** The constructor returns when [ftol_iter] is positive and the bounds fit;
    the swarm it leaves is the second one, created after the [2 * 50 * d]
    draws of the first. *)
Lemma init_some (u : np.stream) (k : N) (n d : nat) (opts : Options)
  (b : option bounds_t) (clamp : option clamp_t) (center ftol : float) (F : nat) :
  F <> 0%nat -> bounds_fit d b ->
  exists m v,
    init u k n d opts b clamp center ftol F None =
      Some (mkOptimizer 50 d b clamp (50%nat, d) opts center ftol F None
              (mkSwarm m v opts m [] [] np.inf []),
            (k + N.of_nat (50 * d) + N.of_nat (50 * d)
               + N.of_nat (50 * d) + N.of_nat (50 * d))%N) /\
    shape 50 d m /\ shape 50 d v.
Proof.
  intros HF Hb. unfold init, SwarmOptimizer_init, reset.
  destruct (Nat.eqb_spec F 0) as [E|_]; [contradiction|].
  destruct (create_swarm_some u k 50 d opts b center clamp Hb) as [m0 [v0 [-> _]]].
  cbn [Pyswarms.n_particles Pyswarms.dimensions Pyswarms.self_options Pyswarms.bounds
       Pyswarms.center Pyswarms.init_pos Pyswarms.velocity_clamp Pyswarms.swarm_size
       Pyswarms.ftol Pyswarms.ftol_iter].
  destruct (create_swarm_some u (k + N.of_nat (50 * d) + N.of_nat (50 * d))%N 50 d opts b
              center clamp Hb) as [m [v [-> [Hm Hv]]]].
  exists m, v. auto.
Qed.

Lemma init_positive (u : np.stream) (k : N) (n d : nat) (opts : Options)
  (b : option bounds_t) (clamp : option clamp_t) (center ftol : float) (F : nat)
  (ip : option np.matrix) (o : Optimizer) (k' : N) :
  init u k n d opts b clamp center ftol F ip = Some (o, k') -> F <> 0%nat.
Proof.
  unfold init, SwarmOptimizer_init. intros E ->. discriminate E.
Qed.

(** The optimizer of [gbest.py] is built, and what it holds. *)
Lemma optimizerEntrpy_built (u : np.stream) (k : N) (options : Options) :
  exists o k', Gbest.optimizerEntrpy u k options = Some (o, k') /\
    n_particles o = 50%nat /\ swarm_size o = (50%nat, 2%nat) /\
    ftol o = neg_infinity /\ ftol_iter o = 1%nat /\
    shape 50 2 (position (swarm o)) /\ shape 50 2 (velocity (swarm o)) /\
    pbest_pos (swarm o) = position (swarm o) /\ best_cost (swarm o) = np.inf.
Proof.
  unfold Gbest.optimizerEntrpy.
  destruct (init_some u k 150 2 options (Some (Gbest.lb, Gbest.ub)) None 1 neg_infinity 1)
    as [m [v [-> [Hm Hv]]]]; [discriminate|split; reflexivity|].
  do 2 eexists. split; [reflexivity|]. simpl. auto 10.
Qed.

(** C4 at the optimizer of [gbest.py]: it is constructed with
    [n_particles=150] and holds 50 positions, 50 velocities and 50 personal
    bests. *)
Theorem optimizerEntrpy_has_50_particles (u : np.stream) (k : N) (options : Options) :
  exists o k', Gbest.optimizerEntrpy u k options = Some (o, k') /\
    n_particles o = 50%nat /\
    length (position (swarm o)) = 50%nat /\
    length (velocity (swarm o)) = 50%nat /\
    length (pbest_pos (swarm o)) = 50%nat.
Proof.
  destruct (optimizerEntrpy_built u k options)
    as [o [k' [E [Hn [_ [_ [_ [[Hp _] [[Hv _] [Hpb _]]]]]]]]]].
  exists o, k'. rewrite Hpb. auto.
Qed.

End Construction.

(** ** The controller *)

Section Controller.

Import Pyswarms EntropyGbest.
Local Open Scope float_scope.

Lemma max_floor (x : float) : Py.geb (Py.max 0.1 x) 0.1 = true.
Proof.
  unfold Py.max, Py.geb, Py.gtb. destruct (0.1 <? x) eqn:E.
  - apply F64.ltb_leb. exact E.
  - reflexivity.
Qed.

(** C8: whatever the entropy and the coefficients, the adjusted [c1] and
    [c2] are both [>= 0.1]. *)
Theorem adjust_keeps_floor (R : float) (o : Options) :
  Py.geb (c1 (fst (fst (adjust R o)))) 0.1 = true /\
  Py.geb (c2 (fst (fst (adjust R o)))) 0.1 = true.
Proof.
  unfold adjust.
  destruct (Py.gtb R 0.8); [|destruct (Py.gtb R 0.6); [|destruct (Py.gtb R 0.3)]];
    simpl; split; apply max_floor.
Qed.

(** In the loop: after an iteration at which the controller recalibrates,
    the coefficients of the optimizer are both [>= 0.1]. *)
Lemma control_keeps_floor `{MathLib} `{Handlers} (i : nat) (st st2 : Run) :
  control i st = Some st2 -> recalibration_due i = true ->
  Py.geb (c1 (self_options (self st2))) 0.1 = true /\
  Py.geb (c2 (self_options (self st2))) 0.1 = true.
Proof.
  unfold control. destruct (np.vop sub _ _) as [diff|]; [|discriminate].
  intros E Hdue. rewrite Hdue in E. unfold adjust in E.
  destruct (Py.gtb _ 0.8); [|destruct (Py.gtb _ 0.6); [|destruct (Py.gtb _ 0.3)]];
    injection E as <-; simpl; split; apply max_floor.
Qed.

End Controller.

(** ** The first iteration *)

Section FirstIteration.

Import Pyswarms EntropyGbest Shape.
Local Open Scope float_scope.
Context `{MathLib} `{Handlers}.

(** A cost compared with the initial [inf] is labelled [0], whatever it is. *)
Lemma label_against_inf (c : float) : label (c - np.inf) = 0%nat.
Proof.
  assert (E : forall t, (t <? c - np.inf) =
                        SFltb (Prim2SF t) (SF64sub (Prim2SF c) (Prim2SF np.inf))).
  { intros t. now rewrite ltb_spec, sub_spec. }
  unfold label, Py.gtb. rewrite !E.
  change (Prim2SF np.inf) with (S754_infinity false).
  destruct (Prim2SF c) as [s|s| |s m e]; try destruct s; reflexivity.
Qed.

Lemma labels_against_inf (cur : np.vec) :
  forall n r, np.vop sub cur (np.full n np.inf) = Some r ->
    map label r = repeat 0%nat (length cur).
Proof.
  unfold np.vop, np.full.
  induction cur as [|c cur IH]; intros [|n] r; simpl; try discriminate.
  - intros [= <-]. reflexivity.
  - destruct (np.zip_with sub cur (repeat np.inf n)) as [r'|] eqn:E; [|discriminate].
    intros [= <-]. simpl. rewrite label_against_inf. f_equal. eapply IH. exact E.
Qed.

(** Lines 217-221 succeed on a swarm whose arrays have one length. *)
Lemma evaluate_some (f : np.vec -> float) (sw0 : Swarm) (n : nat) :
  (0 < n)%nat ->
  length (position sw0) = n -> length (pbest_pos sw0) = n -> length (pbest_cost sw0) = n ->
  exists sw, evaluate f sw0 = Some (sw, best_cost sw0) /\
    position sw = position sw0 /\ velocity sw = velocity sw0 /\
    options sw = options sw0 /\ current_cost sw = map f (position sw0) /\
    length (pbest_pos sw) = n /\ length (pbest_cost sw) = n.
Proof.
  intros Hn Hpos Hpb Hpc. unfold evaluate, compute_pbest. simpl.
  destruct (@zip_with_some _ _ bool ltb (map f (position sw0)) (pbest_cost sw0))
    as [mask Hmask]; [rewrite length_map; congruence|].
  rewrite Hmask. apply zip_with_length in Hmask. rewrite length_map in Hmask.
  destruct Hmask as [_ Hmask].
  destruct (where_not_some mask (pbest_pos sw0) (position sw0)) as [pp [-> Hpp]];
    try congruence.
  destruct (where_not_some mask (pbest_cost sw0) (map f (position sw0))) as [pc [-> Hpc']];
    try (rewrite ?length_map; congruence).
  unfold compute_gbest. simpl.
  destruct pc as [|c0 pc]; [simpl in Hpc'; lia|].
  simpl np.min. cbv iota beta.
  match goal with |- context [if ?b then _ else _] => destruct b end.
  - destruct (np.argmin (c0 :: pc)) as [idx|] eqn:Ei; [|discriminate].
    apply argmin_lt in Ei.
    destruct (nth_error_some pp idx) as [row [-> _]]; [congruence|].
    eexists. split; [reflexivity|]. simpl in *. repeat split; congruence.
  - eexists. split; [reflexivity|]. simpl in *. repeat split; congruence.
Qed.

(** C10: the first iteration of [optimize], on any optimizer the constructor
    built and for any objective: every cost is labelled [0] against the
    initial [inf], the loop does not break, the entropy printed is [0], the
    last branch is taken ([c1] becomes [max(0.1, c1 - 1)], [c2] becomes
    [max(0.1, c2 + 1)]), the labels are dropped, and the iteration ends with
    these coefficients and no labels when the move succeeds. *)
Theorem first_iteration_takes_low_entropy_branch
  (u : np.stream) (f : np.vec -> float) (o : Optimizer) (k : N) :
  log2 1 = 0 -> ready o ->
  let c1' := Py.max 0.1 (c1 (self_options o) - 1) in
  let c2' := Py.max 0.1 (c2 (self_options o) + 1) in
  (forall c, label (c - np.inf) = 0%nat) /\
  (exists st1 st2,
     observe f 0 (enter o k) = Some (st1, false) /\
     control 0 st1 = Some st2 /\
     stdout st2 = [0] /\
     info_log st2 = [mkLog 3 0 c1' c2'] /\
     self_options (self st2) = mkOptions c1' c2' (w (self_options o)) /\
     list_R st2 = []) /\
  (forall st3 stop, iteration u f 0 (enter o k) = Some (st3, stop) ->
     stop = false /\
     self_options (self st3) = mkOptions c1' c2' (w (self_options o)) /\
     list_R st3 = []).
Proof.
  intros Hone [Hn [Hpos [Hpb Hft]]] c1' c2'.
  assert (Hobs : exists st1 st2,
     observe f 0 (enter o k) = Some (st1, false) /\
     control 0 st1 = Some st2 /\
     stdout st2 = [0] /\
     info_log st2 = [mkLog 3 0 c1' c2'] /\
     self_options (self st2) = mkOptions c1' c2' (w (self_options o)) /\
     list_R st2 = []).
  { unfold observe, enter. rewrite Hn. cbn [self with_swarm swarm ftol ftol_iter].
    match goal with |- context [evaluate f ?s] =>
      destruct (evaluate_some f s 50) as [sw [-> [Ep [Ev [Eo [Ec [Lp Lc]]]]]]]
    end; try (simpl; auto; lia).
    simpl in Ep, Ev, Eo, Ec.
    unfold stop_criterion.
    replace (0 <? ftol_iter o)%nat with true by (symmetry; apply Nat.ltb_lt; lia).
    do 2 eexists. split; [reflexivity|].
    unfold control. cbn [self with_swarm swarm previous_pbest_cost current_cost
      self_options list_R cost_history ftol_history stdout info_log cursor].
    rewrite Ec.
    destruct (np.vop sub (map f (position (swarm o))) (np.full 50 np.inf)) as [diff|] eqn:Ed.
    2:{ exfalso. unfold np.vop in Ed.
        destruct (@zip_with_some _ _ float sub (map f (position (swarm o)))
                    (np.full 50 np.inf)) as [r Hr].
        - unfold np.full. rewrite repeat_length, length_map. congruence.
        - congruence. }
    rewrite (labels_against_inf _ _ _ Ed), length_map, Hpos.
    change (recalibration_due 0) with true. cbv iota.
    change (entropy ([] ++ repeat 0%nat 50)) with (0 + (- 1) * log2 1).
    rewrite Hone.
    change (0 + -1 * 0) with 0.
    split; [reflexivity|]. simpl. auto. }
  split; [exact label_against_inf|]. split; [exact Hobs|].
  intros st3 stop. unfold iteration.
  destruct Hobs as [st1 [st2 [-> [-> [_ [_ [Ho Hl]]]]]]].
  unfold move. destruct (compute_velocity _ _ _ _) as [[v k']|]; [|discriminate].
  destruct (compute_position _ _) as [x|]; [|discriminate].
  intros [= <- <-]. simpl. auto.
Qed.

End FirstIteration.

(** ** What each part of the loop body changes *)

Section Frames.

Import Pyswarms EntropyGbest Shape.
Local Open Scope float_scope.
Context `{MathLib} `{Handlers}.

Lemma copy_best_cost_inv (c c' : float) :
  copy_best_cost c = Some c' -> c' = c /\ (c =? np.inf) = false.
Proof.
  unfold copy_best_cost. destruct (c =? np.inf); [discriminate|]. intros [= <-]. auto.
Qed.

Lemma copy_best_cost_some (c : float) :
  (c <? np.inf) = true -> copy_best_cost c = Some c.
Proof.
  intros Hc. unfold copy_best_cost, np.inf in *. now rewrite (F64.ltb_inf_not_eqb _ Hc).
Qed.

Lemma compute_gbest_cost (s : Swarm) (bp : list float) (bc : float) :
  compute_gbest s = Some (bp, bc) ->
  (bc = best_cost s /\ bp = best_pos s) \/ (bc <? best_cost s) = true.
Proof.
  unfold compute_gbest. destruct (np.min (pbest_cost s)) as [m|]; [|discriminate].
  destruct (m <? best_cost s) eqn:E.
  - destruct (np.argmin (pbest_cost s)) as [idx|]; [|discriminate].
    destruct (nth_error (pbest_pos s) idx); [|discriminate].
    intros [= <- <-]. now right.
  - intros [= <- <-]. now left.
Qed.

Lemma evaluate_inv (f : list float -> float) (sw0 sw : Swarm) (b : float) :
  evaluate f sw0 = Some (sw, b) ->
  b = best_cost sw0 /\
  position sw = position sw0 /\ velocity sw = velocity sw0 /\ options sw = options sw0 /\
  current_cost sw = map f (position sw0) /\
  (best_cost sw = best_cost sw0 \/ (best_cost sw <? best_cost sw0) = true).
Proof.
  unfold evaluate. destruct (compute_pbest _) as [[pp pc]|]; [|discriminate].
  destruct (compute_gbest _) as [[bp bc]|] eqn:E; [|discriminate].
  intros [= <- <-]. simpl. apply compute_gbest_cost in E. simpl in E.
  repeat split; tauto.
Qed.

Lemma observe_inv (f : list float -> float) (i : nat) (st st1 : Run) (stop : bool) :
  observe f i st = Some (st1, stop) ->
  config (self st1) = config (self st) /\
  self_options (self st1) = self_options (self st) /\
  previous_pbest_cost st1 = previous_pbest_cost st /\
  list_R st1 = list_R st /\ stdout st1 = stdout st /\ info_log st1 = info_log st /\
  cursor st1 = cursor st /\
  cost_history st1 = cost_history st ++ [best_cost (swarm (self st1))] /\
  evaluate f (swarm (self st)) = Some (swarm (self st1), best_cost (swarm (self st))) /\
  (ftol_history st1, stop) =
    stop_criterion (ftol (self st)) (ftol_iter (self st)) i (ftol_history st)
      (best_cost (swarm (self st1))) (best_cost (swarm (self st))).
Proof.
  unfold observe. destruct (evaluate f (swarm (self st))) as [[sw b]|] eqn:E; [|discriminate].
  destruct (stop_criterion _ _ _ _ _ _) as [h s'] eqn:Es.
  intros [= <- <-]. simpl. destruct (evaluate_inv _ _ _ _ E) as [Hb _]. subst b.
  rewrite Es. repeat split.
Qed.

Lemma control_inv (i : nat) (st st2 : Run) :
  control i st = Some st2 ->
  config (self st2) = config (self st) /\
  bests (swarm (self st2)) = bests (swarm (self st)) /\
  position (swarm (self st2)) = position (swarm (self st)) /\
  velocity (swarm (self st2)) = velocity (swarm (self st)) /\
  current_cost (swarm (self st2)) = current_cost (swarm (self st)) /\
  (options (swarm (self st2)) = self_options (self st) \/
   options (swarm (self st2)) = self_options (self st2)) /\
  previous_pbest_cost st2 = current_cost (swarm (self st)) /\
  cost_history st2 = cost_history st /\ ftol_history st2 = ftol_history st /\
  cursor st2 = cursor st /\
  map log_iter (info_log st2) =
    map log_iter (info_log st) ++ (if recalibration_due i then [i] else []) /\
  length (stdout st2) =
    (length (stdout st) + (if recalibration_due i then 1 else 0))%nat.
Proof.
  unfold control. destruct (np.vop sub _ _) as [diff|]; [|discriminate].
  destruct (recalibration_due i).
  - destruct (adjust _ _) as [[opts tag] drop].
    intros [= <-]. simpl. rewrite map_app, length_app. simpl.
    repeat split. destruct oh_copies; auto.
  - intros [= <-]. simpl. rewrite app_nil_r, Nat.add_0_r.
    repeat split. destruct oh_copies; auto.
Qed.

Lemma move_inv (u : np.stream) (st st3 : Run) :
  move u st = Some st3 ->
  config (self st3) = config (self st) /\
  self_options (self st3) = self_options (self st) /\
  bests (swarm (self st3)) = bests (swarm (self st)) /\
  current_cost (swarm (self st3)) = current_cost (swarm (self st)) /\
  options (swarm (self st3)) = options (swarm (self st)) /\
  previous_pbest_cost st3 = previous_pbest_cost st /\
  cost_history st3 = cost_history st /\ list_R st3 = list_R st /\
  ftol_history st3 = ftol_history st /\
  stdout st3 = stdout st /\ info_log st3 = info_log st.
Proof.
  unfold move. destruct (compute_velocity _ _ _ _) as [[v k]|]; [|discriminate].
  destruct (compute_position _ _) as [x|]; [|discriminate].
  intros [= <-]. simpl. repeat split.
Qed.

End Frames.

(** ** The iterations at which the controller recalibrates *)

Section Recalibration.

Import Pyswarms EntropyGbest Shape.
Local Open Scope float_scope.
Context `{MathLib} `{Handlers}.

(** What the controller does in iteration [i], read off its result. *)
Lemma control_effect (i : nat) (st st2 : Run) :
  control i st = Some st2 ->
  exists diff_cost,
    np.vop sub (current_cost (swarm (self st))) (previous_pbest_cost st) = Some diff_cost /\
    let labels := list_R st ++ map label diff_cost in
    if (i mod 100 =? 0)%nat then
      let R := entropy labels in
      let '(opts, tag, drop) := adjust R (self_options (self st)) in
      self_options (self st2) = opts /\
      stdout st2 = stdout st ++ [R] /\
      info_log st2 = info_log st ++ [mkLog tag i (c1 opts) (c2 opts)] /\
      list_R st2 = (if drop then [] else labels)
    else
      self_options (self st2) = self_options (self st) /\
      stdout st2 = stdout st /\ info_log st2 = info_log st /\ list_R st2 = labels.
Proof.
  unfold control. destruct (np.vop sub _ _) as [diff|]; [|discriminate].
  change (recalibration_due i) with (i mod 100 =? 0)%nat.
  intros Hc. exists diff. split; [reflexivity|]. cbv zeta.
  destruct (i mod 100 =? 0)%nat.
  - destruct (adjust _ _) as [[opts tag] drop]. injection Hc as <-. simpl. auto.
  - injection Hc as <-. simpl. auto.
Qed.

(** One iteration: it records one cost; when it breaks, the controller has
    not run; when it goes on, the controller has labelled the particles and,
    at a multiple of 100, recalibrated. *)
Lemma iteration_effect (u : np.stream) (f : list float -> float) (i : nat)
  (st st' : Run) (stop : bool) :
  iteration u f i st = Some (st', stop) ->
  length (cost_history st') = S (length (cost_history st)) /\
  if stop then
    self_options (self st') = self_options (self st) /\
    stdout st' = stdout st /\ info_log st' = info_log st /\ list_R st' = list_R st
  else
    exists diff_cost,
      np.vop sub (map f (position (swarm (self st)))) (previous_pbest_cost st)
        = Some diff_cost /\
      let labels := list_R st ++ map label diff_cost in
      if (i mod 100 =? 0)%nat then
        let R := entropy labels in
        let '(opts, tag, drop) := adjust R (self_options (self st)) in
        self_options (self st') = opts /\
        stdout st' = stdout st ++ [R] /\
        info_log st' = info_log st ++ [mkLog tag i (c1 opts) (c2 opts)] /\
        list_R st' = (if drop then [] else labels)
      else
        self_options (self st') = self_options (self st) /\
        stdout st' = stdout st /\ info_log st' = info_log st /\ list_R st' = labels.
Proof.
  unfold iteration.
  destruct (observe f i st) as [[st1 b]|] eqn:Eo; [|discriminate].
  apply observe_inv in Eo.
  destruct Eo as [_ [Eso [Epp [Elr [Est [Eil [_ [Ech [Eev _]]]]]]]]].
  apply evaluate_inv in Eev. destruct Eev as [_ [_ [_ [_ [Ecur _]]]]].
  destruct b.
  - intros [= <- <-]. rewrite Ech, length_app. simpl. split; [lia|]. auto.
  - destruct (control i st1) as [st2|] eqn:Ec; [|discriminate].
    destruct (move u st2) as [st3|] eqn:Em; [|discriminate].
    intros [= <- <-].
    pose proof (control_inv _ _ _ Ec) as [_ [_ [_ [_ [_ [_ [_ [Ech2 _]]]]]]]].
    apply control_effect in Ec. apply move_inv in Em.
    destruct Em as [_ [Mso [_ [_ [_ [_ [Mch [Mlr [_ [Mst Mil]]]]]]]]]].
    split; [rewrite Mch, Ech2, Ech, length_app; simpl; lia|].
    destruct Ec as [diff [Ed Hc]]. exists diff.
    rewrite Ecur, Epp in Ed. split; [exact Ed|].
    rewrite Mso, Mlr, Mst, Mil. rewrite Elr, Eso, Est, Eil in Hc. exact Hc.
Qed.

Lemma iteration_log (u : np.stream) (f : list float -> float) (i : nat)
  (st st' : Run) (stop : bool) :
  iteration u f i st = Some (st', stop) ->
  map log_iter (info_log st') =
    map log_iter (info_log st) ++
    (if stop then [] else if recalibration_due i then [i] else []) /\
  length (stdout st') =
    (length (stdout st) +
     (if stop then 0 else if recalibration_due i then 1 else 0))%nat.
Proof.
  intros Hi. apply iteration_effect in Hi. destruct Hi as [_ Hi].
  change (recalibration_due i) with (i mod 100 =? 0)%nat.
  destruct stop.
  - destruct Hi as [_ [-> [-> _]]]. rewrite app_nil_r. auto.
  - destruct Hi as [diff [_ Hi]]. cbv zeta in Hi. destruct (i mod 100 =? 0)%nat.
    + destruct (adjust _ _) as [[opts tag] drop]. destruct Hi as [_ [-> [-> _]]].
      rewrite map_app, length_app. simpl. auto.
    + destruct Hi as [_ [-> [-> _]]]. rewrite app_nil_r. auto.
Qed.

(** The printed entropies are what the coefficients went through. *)
Lemma iteration_replay (u : np.stream) (f : list float -> float) (i : nat)
  (st st' : Run) (stop : bool) :
  iteration u f i st = Some (st', stop) ->
  exists Rs,
    stdout st' = stdout st ++ Rs /\
    self_options (self st') =
      fold_left (fun opts R => fst (fst (adjust R opts))) Rs (self_options (self st)).
Proof.
  intros Hi. apply iteration_effect in Hi. destruct Hi as [_ Hi]. destruct stop.
  - destruct Hi as [-> [-> _]]. exists []. now rewrite app_nil_r.
  - destruct Hi as [diff [_ Hi]]. cbv zeta in Hi. destruct (i mod 100 =? 0)%nat.
    + eexists [_]. destruct (adjust _ _) as [[opts tag] drop] eqn:Ea.
      destruct Hi as [-> [-> _]]. split; [reflexivity|]. simpl. now rewrite Ea.
    + destruct Hi as [-> [-> _]]. exists []. now rewrite app_nil_r.
Qed.

Lemma loop_replay (u : np.stream) (f : list float -> float) (range : list nat) :
  forall st st' e,
    loop u f range st = Some (st', e) ->
    exists Rs,
      stdout st' = stdout st ++ Rs /\
      self_options (self st') =
        fold_left (fun opts R => fst (fst (adjust R opts))) Rs (self_options (self st)).
Proof.
  induction range as [|i rest IH]; intros st st' e; simpl.
  - intros [= <- <-]. exists []. now rewrite app_nil_r.
  - destruct (iteration u f i st) as [[st1 stop]|] eqn:Ei; [|discriminate].
    apply iteration_replay in Ei. destruct Ei as [Rs [Es Eo]]. destruct stop.
    + intros [= <- <-]. eauto.
    + intros Hl. destruct (IH _ _ _ Hl) as [Rs' [Es' Eo']]. exists (Rs ++ Rs').
      rewrite Es', Es, Eo', Eo, fold_left_app, <- app_assoc. auto.
Qed.

Lemma loop_log (u : np.stream) (f : list float -> float) (n : nat) :
  forall a st st' e,
    loop u f (seq a n) st = Some (st', e) ->
    (a <= completed e (a + n) <= a + n)%nat /\
    map log_iter (info_log st') =
      map log_iter (info_log st) ++
      filter recalibration_due (seq a (completed e (a + n) - a)) /\
    length (stdout st') =
      (length (stdout st) +
       length (filter recalibration_due (seq a (completed e (a + n) - a))))%nat.
Proof.
  induction n as [|n IH]; intros a st st' e; simpl.
  - intros [= <- <-]. simpl. rewrite Nat.add_0_r, Nat.sub_diag. simpl.
    rewrite app_nil_r. repeat split; lia.
  - destruct (iteration u f a st) as [[st1 stop]|] eqn:Ei; [|discriminate].
    apply iteration_log in Ei. destruct Ei as [El Es]. destruct stop.
    + intros [= <- <-]. simpl. rewrite Nat.sub_diag. simpl.
      rewrite El, Es. repeat split; lia.
    + intros Hl. apply IH in Hl. destruct Hl as [Hc [Hl Hs]].
      replace (S a + n)%nat with (a + S n)%nat in * by lia.
      set (c := completed e (a + S n)) in *.
      replace (c - a)%nat with (S (c - S a)) by lia. simpl.
      rewrite Hl, Hs, El, Es. split; [lia|].
      destruct (recalibration_due a); simpl; rewrite <- ?app_assoc; simpl;
        split; try reflexivity; lia.
Qed.

(** One cost is recorded for each iteration that began, the one that broke
    the loop included. *)
Lemma loop_began (u : np.stream) (f : list float -> float) (n : nat) :
  forall a st st' e,
    loop u f (seq a n) st = Some (st', e) ->
    (length (cost_history st') + a =
     length (cost_history st) +
     match e with Converged i => S i | MaxIterReached => a + n end)%nat /\
    forall i, e = Converged i -> (a <= i < a + n)%nat.
Proof.
  induction n as [|n IH]; intros a st st' e; simpl.
  - intros [= <- <-]. split; [lia|discriminate].
  - destruct (iteration u f a st) as [[st1 stop]|] eqn:Ei; [|discriminate].
    apply iteration_effect in Ei. destruct Ei as [Eh _]. destruct stop.
    + intros [= <- <-]. split; [lia|]. intros i [= <-]. lia.
    + intros Hl. apply IH in Hl. destruct Hl as [Hh Hc]. split.
      * destruct e; lia.
      * intros i Hi. specialize (Hc i Hi). lia.
Qed.

(** C1, as the code has it.  In a run of [optimize]: the recalibrations
    logged are those of the iterations [i] with [i mod 100 = 0], iteration
    [0] included, among the iterations that ran to the end of the body, in
    order and once each, with one entropy printed for each, and the
    coefficients the optimizer is left with are its coefficients adjusted by
    the printed entropies in turn; the iteration that breaks the loop has
    begun (its cost is recorded) and is not among them.  In every iteration:
    when it breaks on the stop criterion the coefficients, the output, the log
    and the labels stay as they were, whatever [i] is; when it goes on, the
    particles are labelled by the difference between their cost and their
    cost one iteration earlier, and then, when [i mod 100 = 0], the entropy
    of the accumulated labels is printed, [c1] and [c2] become what
    [adjust] makes of them at that entropy and the log takes a record of
    iteration [i]; when [i mod 100 <> 0] the coefficients, the output and the
    log stay as they were. *)
Theorem recalibration_at_multiples_of_100_that_run_on
  (u : np.stream) (f : np.vec -> float) (o : Optimizer) (k : N) (iters : nat)
  (r : Result) :
  optimize u o k f iters = Some r ->
  (completed (exit r) iters <= iters)%nat /\
  map log_iter (info_log (final r)) =
    filter (fun i => (i mod 100 =? 0)%nat) (seq 0 (completed (exit r) iters)) /\
  length (stdout (final r)) = length (info_log (final r)) /\
  self_options (self (final r)) =
    fold_left (fun opts R => fst (fst (adjust R opts))) (stdout (final r))
      (self_options o) /\
  (forall i, exit r = Converged i -> (i < iters)%nat /\ length (history r) = S i) /\
  forall (i : nat) (st st' : Run) (stop : bool),
    iteration u f i st = Some (st', stop) ->
    if stop then
      self_options (self st') = self_options (self st) /\
      stdout st' = stdout st /\ info_log st' = info_log st /\ list_R st' = list_R st
    else
      exists diff_cost,
        np.vop sub (map f (position (swarm (self st)))) (previous_pbest_cost st)
          = Some diff_cost /\
        let labels := list_R st ++ map label diff_cost in
        if (i mod 100 =? 0)%nat then
          let R := entropy labels in
          let '(opts, tag, drop) := adjust R (self_options (self st)) in
          self_options (self st') = opts /\
          stdout st' = stdout st ++ [R] /\
          info_log st' = info_log st ++ [mkLog tag i (c1 opts) (c2 opts)] /\
          list_R st' = (if drop then [] else labels)
        else
          self_options (self st') = self_options (self st) /\
          stdout st' = stdout st /\ info_log st' = info_log st /\ list_R st' = labels.
Proof.
  unfold optimize.
  destruct (loop u f (seq 0 iters) (enter o k)) as [[st e]|] eqn:El; [|discriminate].
  destruct (copy_best_cost _) as [cost|]; [|discriminate].
  destruct (np.argmin _) as [idx|]; [|discriminate].
  destruct (nth_error _ idx) as [pos|]; [|discriminate].
  intros [= <-]. simpl.
  pose proof (loop_log _ _ _ _ _ _ _ El) as [Hc [Hl Hs]].
  pose proof (loop_replay _ _ _ _ _ _ El) as [Rs [Hr Ho]].
  pose proof (loop_began _ _ _ _ _ _ _ El) as [Hh Hb].
  simpl in Hc, Hl, Hs, Hr, Ho, Hh, Hb. rewrite Nat.sub_0_r in Hl, Hs.
  split; [lia|]. split; [exact Hl|].
  split; [rewrite Hs, <- (length_map log_iter), Hl; reflexivity|].
  split; [rewrite Hr; exact Ho|].
  split.
  - intros i ->. split; [apply (Hb i eq_refl)|lia].
  - intros i st0 st' stop Hi. apply (iteration_effect _ _ _ _ _ _ Hi).
Qed.

End Recalibration.

(** ** The move keeps the shape of the swarm *)

Section Move.

Import Pyswarms EntropyGbest Shape.
Local Open Scope float_scope.
Context `{MathLib} `{Handlers}.

Lemma compute_velocity_some (u : np.stream) (k : N) (s : Swarm)
  (clamp : option clamp_t) (n d : nat) :
  (0 < n)%nat ->
  shape n d (position s) -> shape n d (velocity s) -> shape n d (pbest_pos s) ->
  length (best_pos s) = d ->
  exists v k', compute_velocity u k s clamp = Some (v, k') /\ shape n d v.
Proof.
  intros Hn Hx Hv Hp Hb. unfold compute_velocity.
  rewrite (shape_first n d _ Hn Hx). destruct Hx as [Hxl Hxf]. rewrite Hxl.
  destruct (rand2_shape u n d k) as [Hu1 _].
  destruct (np.rand2 u k n d) as [u1 k1]. simpl in Hu1.
  destruct (mop_shape sub d (pbest_pos s) _ n Hp (conj Hxl Hxf)) as [dp [-> Hdp]].
  destruct (mop_shape mul d (np.smop mul (c1 (options s)) u1) _ n
              (map_map_shape _ n d _ Hu1) Hdp) as [cog [-> Hcog]].
  destruct (rand2_shape u n d k1) as [Hu2 _].
  destruct (np.rand2 u k1 n d) as [u2 k2]. simpl in Hu2.
  destruct (@map_opt_shape _ (fun x => np.vop sub (best_pos s) x) d (position s))
    as [dg [-> Hdg]].
  { intros x Hin. rewrite Forall_forall in Hxf.
    destruct (vop_some sub (best_pos s) x) as [y [Hy Hl]]; [rewrite (Hxf _ Hin); congruence|].
    exists y. split; [exact Hy|congruence]. }
  rewrite Hxl in Hdg.
  destruct (mop_shape mul d (np.smop mul (c2 (options s)) u2) _ n
              (map_map_shape _ n d _ Hu2) Hdg) as [soc [-> Hsoc]].
  destruct (mop_shape add d (np.smop mul (w (options s)) (velocity s)) _ n
              (map_map_shape _ n d _ Hv) Hcog) as [t1 [-> Ht1]].
  destruct (mop_shape add d t1 _ n Ht1 Hsoc) as [tv [-> Htv]].
  do 2 eexists. split; [reflexivity|]. now apply map_map_shape.
Qed.

Lemma compute_position_some (s : Swarm) (b : option bounds_t) (n d : nat) :
  shape n d (position s) -> shape n d (velocity s) -> bounds_fit d b ->
  exists x, compute_position s b = Some x /\ shape n d x.
Proof.
  intros Hx Hv Hb. unfold compute_position.
  destruct (mop_shape add d (position s) _ n Hx Hv) as [t [-> Ht]].
  destruct b as [[lb ub]|]; [|exists t; auto].
  destruct Hb as [Hlb Hub]. destruct Ht as [Htl Htf].
  rewrite <- Htl. apply map_opt_shape.
  intros r Hin. rewrite Forall_forall in Htf. specialize (Htf _ Hin).
  destruct (@zip_with_some _ _ (float * float) pair lb ub) as [lu Hlu]; [congruence|].
  rewrite Hlu. apply zip_with_length in Hlu. destruct Hlu as [_ Hlu].
  destruct (@zip_with_some _ _ float
              (fun (b0 : float * float) x => bh (fst b0) (snd b0) x) lu r) as [y Hy];
    [congruence|].
  exists y. split; [exact Hy|]. apply zip_with_length in Hy. destruct Hy. congruence.
Qed.

Lemma move_some (u : np.stream) (st : Run) (n d : nat) :
  (0 < n)%nat ->
  shape n d (position (swarm (self st))) -> shape n d (velocity (swarm (self st))) ->
  shape n d (pbest_pos (swarm (self st))) -> length (best_pos (swarm (self st))) = d ->
  bounds_fit d (bounds (self st)) ->
  exists st3, move u st = Some st3 /\
    shape n d (position (swarm (self st3))) /\ shape n d (velocity (swarm (self st3))).
Proof.
  intros Hn Hx Hv Hp Hb Hbd. unfold move.
  destruct (compute_velocity_some u (cursor st) _ (velocity_clamp (self st)) n d Hn Hx Hv Hp Hb)
    as [v [k' [-> Hv']]].
  match goal with |- context [compute_position ?s ?b] =>
    destruct (compute_position_some s b n d) as [x [-> Hx']]
  end; try assumption.
  eexists. split; [reflexivity|]. simpl. auto.
Qed.

End Move.

(** ** The stop criterion on a constant objective *)

Section ConstantObjective.

Import Pyswarms EntropyGbest Shape.
Local Open Scope float_scope.
Context `{MathLib} `{Handlers}.

Lemma config_eq (o' o : Optimizer) :
  config o' = config o ->
  ftol o' = ftol o /\ ftol_iter o' = ftol_iter o /\ bounds o' = bounds o.
Proof. unfold config. intros [= _ _ -> _ _ _ -> -> _]. auto. Qed.

Lemma control_some (i : nat) (st : Run) :
  length (previous_pbest_cost st) = length (current_cost (swarm (self st))) ->
  exists st2, control i st = Some st2.
Proof.
  intros E. unfold control.
  destruct (vop_some sub (current_cost (swarm (self st))) (previous_pbest_cost st) E)
    as [diff [-> _]].
  destruct (recalibration_due i); [|eauto].
  destruct (adjust _ _) as [[opts tag] drop]. eauto.
Qed.

(** After the controller and the move, a run keeps the bests and the
    shapes it had after the evaluation. *)
Lemma finish_iteration (u : np.stream) (i : nat) (d : nat) (st1 : Run) :
  length (current_cost (swarm (self st1))) = 50%nat ->
  settled d st1 ->
  exists st3, (st2 <- control i st1 ;; move u st2) = Some st3 /\
    settled d st3 /\ cost_history st3 = cost_history st1 /\
    ftol_history st3 = ftol_history st1.
Proof.
  intros Hc [Hft [Hfi [Hbd [Hx [Hv [Hp [Hb [Hpc [Hbc Hprev]]]]]]]]].
  destruct (control_some i st1) as [st2 E2]; [congruence|]. rewrite E2.
  apply control_inv in E2.
  destruct E2 as [Ecfg [Ebests [Epos [Evel [Ecur [_ [Eprev [Ech [Efh _]]]]]]]]].
  unfold bests in Ebests. injection Ebests as Ep Eb Epc Ebc.
  destruct (config_eq _ _ Ecfg) as [Ef1 [Ef2 Ef3]].
  destruct (move_some u st2 50 d) as [st3 [E3 [Hx3 Hv3]]]; try congruence; try lia.
  exists st3. split; [exact E3|]. apply move_inv in E3.
  destruct E3 as [Ecfg3 [_ [Ebests3 [_ [_ [Eprev3 [Ech3 [_ [Efh3 _]]]]]]]]].
  unfold bests in Ebests3. injection Ebests3 as Ep3 Eb3 Epc3 Ebc3.
  destruct (config_eq _ _ Ecfg3) as [Eg1 [Eg2 Eg3]].
  unfold settled. repeat split; try congruence; try apply Hx3; try apply Hv3;
    try (rewrite Ep3, Ep; apply Hp); try (rewrite Eg3, Ef3; exact Hbd).
Qed.

(** The evaluation once the swarm has settled: nothing moves. *)
Lemma evaluate_settled (sw : Swarm) (d : nat) :
  shape 50 d (position sw) -> shape 50 d (pbest_pos sw) ->
  pbest_cost sw = repeat 0 50 -> best_cost sw = 0 ->
  evaluate zero_objective sw =
    Some (mkSwarm (position sw) (velocity sw) (options sw) (pbest_pos sw) (best_pos sw)
            (repeat 0 50) 0 (repeat 0 50), 0).
Proof.
  intros [Hx _] [Hp _] Hpc Hbc. unfold evaluate, compute_pbest, zero_objective.
  cbn [position velocity options pbest_pos best_pos pbest_cost best_cost current_cost].
  rewrite map_const, Hx, Hpc.
  replace (np.zip_with ltb (repeat 0 50) (repeat 0 50)) with (Some (repeat false 50))
    by reflexivity.
  rewrite (where_not_false 50 _ _ Hp Hx).
  replace (np.where_not (repeat false 50) (repeat 0 50) (repeat 0 50))
    with (Some (repeat 0 50)) by reflexivity.
  unfold compute_gbest.
  cbn [position velocity options pbest_pos best_pos pbest_cost best_cost current_cost].
  rewrite Hbc. reflexivity.
Qed.

(** The first evaluation: every personal best becomes the position, at
    cost [0], and the first of them is the global best. *)
Lemma evaluate_first (sw : Swarm) (d : nat) :
  shape 50 d (position sw) -> shape 50 d (pbest_pos sw) ->
  pbest_cost sw = np.full 50 np.inf -> best_cost sw = np.inf ->
  exists row,
    evaluate zero_objective sw =
      Some (mkSwarm (position sw) (velocity sw) (options sw) (position sw) row
              (repeat 0 50) 0 (repeat 0 50), np.inf) /\
    length row = d.
Proof.
  intros [Hx Hxf] [Hp _] Hpc Hbc. unfold evaluate, compute_pbest, zero_objective.
  cbn [position velocity options pbest_pos best_pos pbest_cost best_cost current_cost].
  rewrite map_const, Hx, Hpc.
  replace (np.zip_with ltb (repeat 0 50) (np.full 50 np.inf)) with (Some (repeat true 50))
    by reflexivity.
  rewrite (where_not_true 50 _ _ Hp Hx).
  replace (np.where_not (repeat true 50) (np.full 50 np.inf) (repeat 0 50))
    with (Some (repeat 0 50)) by reflexivity.
  unfold compute_gbest.
  cbn [position velocity options pbest_pos best_pos pbest_cost best_cost current_cost].
  rewrite Hbc.
  replace (np.min (repeat 0 50)) with (Some 0) by reflexivity.
  replace (0 <? np.inf) with true by reflexivity.
  replace (np.argmin (repeat 0 50)) with (Some 0%nat) by reflexivity.
  destruct (position sw) as [|row rest] eqn:E; [discriminate|].
  exists row. split; [reflexivity|]. now inversion Hxf.
Qed.

Lemma init_fresh (u : np.stream) (k0 k : N) (n d : nat) (opts : Options)
  (b : option bounds_t) (clamp : option clamp_t) (center : float) (o : Optimizer) :
  init u k0 n d opts b clamp center 1e-6 5 None = Some (o, k) ->
  bounds_fit d b -> fresh d o.
Proof.
  intros E Hb.
  destruct (init_some u k0 n d opts b clamp center 1e-6 5) as [m [v [Ei [Hm Hv]]]];
    [discriminate|exact Hb|].
  rewrite Ei in E. injection E as <- <-. unfold fresh. simpl. auto 10.
Qed.

Lemma observe_settled (i d : nat) (st : Run) :
  settled d st ->
  exists st1,
    observe zero_objective i st =
      Some (st1, if (i <? 5)%nat then false
                 else Py.all (Py.deque_append 5 (ftol_history st) true)) /\
    settled d st1 /\ length (current_cost (swarm (self st1))) = 50%nat /\
    cost_history st1 = cost_history st ++ [0] /\
    ftol_history st1 = Py.deque_append 5 (ftol_history st) true.
Proof.
  intros [Hft [Hfi [Hbd [Hx [Hv [Hp [Hb [Hpc [Hbc Hprev]]]]]]]]].
  unfold observe.
  rewrite (evaluate_settled _ d Hx Hp Hpc Hbc), Hft, Hfi.
  cbn [best_cost]. unfold stop_criterion.
  replace (abs (0 - 0) <? 1e-6 * (1 + abs 0)) with true by reflexivity.
  destruct (i <? 5)%nat; cbv zeta iota beta;
    (eexists; split; [reflexivity|]; unfold settled; simpl;
     repeat split; try assumption; try apply Hx; try apply Hv; try apply Hp).
Qed.

Lemma later_iteration (u : np.stream) (i d : nat) (st : Run) :
  settled d st ->
  exists st',
    iteration u zero_objective i st =
      Some (st', if (i <? 5)%nat then false
                 else Py.all (Py.deque_append 5 (ftol_history st) true)) /\
    settled d st' /\ cost_history st' = cost_history st ++ [0] /\
    ftol_history st' = Py.deque_append 5 (ftol_history st) true.
Proof.
  intros Hs. destruct (observe_settled i d st Hs) as [st1 [Eo [Hs1 [Hc1 [Hh1 Hf1]]]]].
  unfold iteration. rewrite Eo.
  destruct (if (i <? 5)%nat then false
            else Py.all (Py.deque_append 5 (ftol_history st) true)).
  - exists st1. auto.
  - destruct (finish_iteration u i d st1 Hc1 Hs1) as [st3 [E3 [Hs3 [Hc3 Hh3]]]].
    exists st3. destruct (control i st1) as [st2|]; [|discriminate]. rewrite E3.
    repeat split; try apply Hs3; congruence.
Qed.

Lemma first_iteration_zero (u : np.stream) (d : nat) (o : Optimizer) (k : N) :
  fresh d o ->
  exists st',
    iteration u zero_objective 0 (enter o k) = Some (st', false) /\
    settled d st' /\ cost_history st' = [0] /\ ftol_history st' = [false].
Proof.
  intros [Hn [Hft [Hfi [Hbd [Hx [Hv [Hp Hbc]]]]]]].
  unfold iteration, observe, enter. rewrite Hn.
  cbn [self with_swarm swarm ftol ftol_iter cost_history ftol_history
       previous_pbest_cost list_R stdout info_log cursor].
  match goal with |- context [evaluate zero_objective ?s] =>
    destruct (evaluate_first s d) as [row [-> Hrow]]
  end; try assumption; try reflexivity.
  rewrite Hft, Hfi.
  cbn [position velocity options pbest_pos best_pos pbest_cost best_cost current_cost].
  replace (stop_criterion 1e-6 5 0 [] 0 np.inf) with ([false], false) by reflexivity.
  cbv zeta iota beta.
  match goal with |- context [control 0 ?s] => set (st1 := s) end.
  assert (Hs1 : settled d st1).
  { unfold settled, st1. simpl. repeat split; try assumption; try apply Hx; try apply Hv. }
  destruct (finish_iteration u 0 d st1) as [st3 [E3 [Hs3 [Hc3 Hh3]]]];
    [reflexivity|exact Hs1|].
  exists st3. destruct (control 0 st1) as [st2|]; [|discriminate]. rewrite E3.
  repeat split; try assumption; apply Hs3.
Qed.

(** C6: an optimizer built with [ftol = 1e-6] and [ftol_iter = 5], run on
    the objective that is [0] everywhere for at least six iterations, breaks
    at iteration 5, the first at which the window holds five true entries. *)
Theorem constant_objective_stops_at_iteration_5
  (u u0 : np.stream) (k0 k k' : N) (n d : nat) (opts : Options) (b : option bounds_t)
  (clamp : option clamp_t) (center : float) (o : Optimizer) (iters : nat) :
  init u0 k0 n d opts b clamp center 1e-6 5 None = Some (o, k') ->
  bounds_fit d b -> (6 <= iters)%nat ->
  exists r,
    optimize u o k zero_objective iters = Some r /\
    exit r = Converged 5 /\
    history r = [0; 0; 0; 0; 0; 0] /\
    ftol_history (final r) = [true; true; true; true; true] /\
    final_best_cost r = 0.
Proof.
  intros Einit Hb Hit. pose proof (init_fresh _ _ _ _ _ _ _ _ _ _ Einit Hb) as Hfresh.
  unfold optimize.
  replace iters with (6 + (iters - 6))%nat by lia.
  cbn [seq Nat.add loop].
  destruct (first_iteration_zero u d o k Hfresh) as [s0 [-> [I0 [K0 F0]]]]. cbv iota beta.
  destruct (later_iteration u 1 d s0 I0) as [s1 [-> [I1 [K1 F1]]]]. cbv iota beta.
  change (1 <? 5)%nat with true. cbv iota.
  destruct (later_iteration u 2 d s1 I1) as [s2 [-> [I2 [K2 F2]]]]. cbv iota beta.
  change (2 <? 5)%nat with true. cbv iota.
  destruct (later_iteration u 3 d s2 I2) as [s3 [-> [I3 [K3 F3]]]]. cbv iota beta.
  change (3 <? 5)%nat with true. cbv iota.
  destruct (later_iteration u 4 d s3 I3) as [s4 [-> [I4 [K4 F4]]]]. cbv iota beta.
  change (4 <? 5)%nat with true. cbv iota.
  destruct (later_iteration u 5 d s4 I4) as [s5 [-> [I5 [K5 F5]]]]. cbv iota beta.
  rewrite F0 in F1. change (Py.deque_append 5 [false] true) with [false; true] in F1.
  rewrite F1 in F2.
  change (Py.deque_append 5 [false; true] true) with [false; true; true] in F2.
  rewrite F2 in F3.
  change (Py.deque_append 5 [false; true; true] true)
    with [false; true; true; true] in F3.
  rewrite F3 in F4.
  change (Py.deque_append 5 [false; true; true; true] true)
    with [false; true; true; true; true] in F4.
  rewrite F4 in F5. rewrite F4.
  change (Py.deque_append 5 [false; true; true; true; true] true)
    with [true; true; true; true; true] in *.
  change (5 <? 5)%nat with false.
  change (Py.all [true; true; true; true; true]) with true.
  cbv iota beta.
  destruct I5 as [_ [_ [_ [_ [_ [[Hpl _] [_ [Hpc [Hbc _]]]]]]]]].
  rewrite Hbc. change (copy_best_cost 0) with (Some 0). cbv iota beta.
  rewrite Hpc. change (np.argmin (repeat 0 50)) with (Some 0%nat). cbv iota beta.
  destruct (pbest_pos (swarm (self s5))) as [|row rest]; [discriminate|].
  eexists. split; [reflexivity|]. simpl.
  rewrite K5, K4, K3, K2, K1, K0, F5. auto.
Qed.

End ConstantObjective.

(** ** The best cost of the entropy optimizer never rises *)

Section BestCost.

Import Pyswarms EntropyGbest Shape.
Local Open Scope float_scope.
Context `{MathLib} `{Handlers}.

Lemma iteration_best (u : np.stream) (f : list float -> float) (i : nat)
  (st st' : Run) (stop : bool) :
  iteration u f i st = Some (st', stop) ->
  cost_history st' = cost_history st ++ [best_cost (swarm (self st'))] /\
  (best_cost (swarm (self st')) = best_cost (swarm (self st)) \/
   (best_cost (swarm (self st')) <? best_cost (swarm (self st))) = true).
Proof.
  unfold iteration.
  destruct (observe f i st) as [[st1 b]|] eqn:Eo; [|discriminate].
  apply observe_inv in Eo.
  destruct Eo as [_ [_ [_ [_ [_ [_ [_ [Ech [Eev _]]]]]]]]].
  apply evaluate_inv in Eev. destruct Eev as [_ [_ [_ [_ [_ Hb]]]]].
  destruct b.
  - intros [= <- <-]. auto.
  - destruct (control i st1) as [st2|] eqn:Ec; [|discriminate].
    destruct (move u st2) as [st3|] eqn:Em; [|discriminate].
    intros [= <- <-].
    apply control_inv in Ec. apply move_inv in Em.
    destruct Ec as [_ [Eb2 [_ [_ [_ [_ [_ [Ec2 _]]]]]]]].
    destruct Em as [_ [_ [Eb3 [_ [_ [_ [Ec3 _]]]]]]].
    unfold bests in Eb2, Eb3. injection Eb2 as _ _ _ Eb2. injection Eb3 as _ _ _ Eb3.
    rewrite Ec3, Ec2, Eb3, Eb2. auto.
Qed.

Lemma step_down (b b' : float) :
  is_nan b = false -> b' = b \/ (b' <? b) = true ->
  Py.geb b b' = true /\ is_nan b' = false.
Proof.
  unfold Py.geb. intros Hn [->|Hlt].
  - split; [now apply F64.leb_refl|assumption].
  - split; [now apply F64.ltb_leb|]. now apply F64.ltb_not_nan in Hlt.
Qed.

Lemma loop_descending (u : np.stream) (f : list float -> float) (range : list nat) :
  forall st st' e,
    is_nan (best_cost (swarm (self st))) = false ->
    loop u f range st = Some (st', e) ->
    exists new,
      cost_history st' = cost_history st ++ new /\
      descending (best_cost (swarm (self st))) new = true /\
      is_nan (best_cost (swarm (self st'))) = false.
Proof.
  induction range as [|i rest IH]; intros st st' e Hn; simpl.
  - intros [= <- <-]. exists []. rewrite app_nil_r. auto.
  - destruct (iteration u f i st) as [[st1 stop]|] eqn:Ei; [|discriminate].
    apply iteration_best in Ei. destruct Ei as [Ech Hb].
    destruct (step_down _ _ Hn Hb) as [Hge Hn1].
    destruct stop.
    + intros [= <- <-]. exists [best_cost (swarm (self st1))].
      simpl. rewrite Hge. auto.
    + intros Hl. destruct (IH _ _ _ Hn1 Hl) as [new [Hc [Hd Hn']]].
      exists (best_cost (swarm (self st1)) :: new).
      rewrite Hc, Ech, <- app_assoc. simpl. rewrite Hge, Hd. auto.
Qed.

(** The entropy optimizer: from a best cost that is a number (the [inf] of a
    new optimizer, or what an earlier call left), the costs [optimize]
    records never rise, and the best cost it leaves is a number again. *)
Lemma optimize_descending (u : np.stream) (f : list float -> float) (o : Optimizer)
  (k : N) (iters : nat) (r : Result) :
  is_nan (best_cost (swarm o)) = false ->
  optimize u o k f iters = Some r ->
  descending (best_cost (swarm o)) (history r) = true /\
  is_nan (best_cost (swarm (self (final r)))) = false.
Proof.
  intros Hn. unfold optimize.
  destruct (loop u f (seq 0 iters) (enter o k)) as [[st e]|] eqn:El; [|discriminate].
  destruct (copy_best_cost _) as [cost|]; [|discriminate].
  destruct (np.argmin _) as [idx|]; [|discriminate].
  destruct (nth_error _ idx) as [pos|]; [|discriminate].
  intros [= <-]. simpl.
  apply loop_descending in El; [|exact Hn].
  destruct El as [new [Hc [Hd Hn']]]. simpl in Hc, Hd. rewrite Hc. auto.
Qed.

End BestCost.

(** ** Lists written in place, and [argmin] *)

Module ArrayFacts.

Local Open Scope float_scope.

Lemma set_nth_some {A : Type} (v : A) (l : list A) :
  forall i, (i < length l)%nat -> exists l', np.set_nth i v l = Some l'.
Proof.
  induction l as [|x l IH]; intros [|i] Hi; simpl in *; try lia; eauto.
  destruct (IH i) as [l' ->]; [lia|]. eauto.
Qed.

Lemma set_nth_length {A : Type} (v : A) (l : list A) :
  forall i l', np.set_nth i v l = Some l' -> length l' = length l.
Proof.
  induction l as [|x l IH]; intros [|i] l'; simpl; try discriminate.
  - intros [= <-]. reflexivity.
  - destruct (np.set_nth i v l) as [r|] eqn:E; [|discriminate].
    intros [= <-]. simpl. f_equal. eapply IH. exact E.
Qed.

Lemma set_nth_same {A : Type} (v : A) (l : list A) :
  forall i l', np.set_nth i v l = Some l' -> nth_error l' i = Some v.
Proof.
  induction l as [|x l IH]; intros [|i] l'; simpl; try discriminate.
  - intros [= <-]. reflexivity.
  - destruct (np.set_nth i v l) as [r|] eqn:E; [|discriminate].
    intros [= <-]. simpl. eapply IH. exact E.
Qed.

Lemma set_nth_other {A : Type} (v : A) (l : list A) :
  forall i l' j, np.set_nth i v l = Some l' -> j <> i -> nth_error l' j = nth_error l j.
Proof.
  induction l as [|x l IH]; intros [|i] l' j; simpl; try discriminate.
  - intros [= <-] Hj. destruct j; [congruence|reflexivity].
  - destruct (np.set_nth i v l) as [r|] eqn:E; [|discriminate].
    intros [= <-] Hj. destruct j; [reflexivity|]. simpl. eapply IH; [exact E|congruence].
Qed.

Lemma set_nth_Forall {A : Type} (P : A -> Prop) (v : A) (l : list A) :
  forall i l', np.set_nth i v l = Some l' -> Forall P l -> P v -> Forall P l'.
Proof.
  induction l as [|x l IH]; intros [|i] l'; simpl; try discriminate.
  - intros [= <-] Hl Hv. inversion Hl; subst. now constructor.
  - destruct (np.set_nth i v l) as [r|] eqn:E; [|discriminate].
    intros [= <-] Hl Hv. inversion Hl; subst. constructor; [assumption|].
    eapply IH; eassumption.
Qed.

Lemma set_nth_In {A : Type} (v : A) (l : list A) (i : nat) (l' : list A) :
  np.set_nth i v l = Some l' -> In v l'.
Proof. intros E. eapply nth_error_In. eapply set_nth_same. exact E. Qed.

Lemma set_nth_In_old {A : Type} (v old g : A) (l : list A) (i : nat) (l' : list A) :
  np.set_nth i v l = Some l' -> nth_error l i = Some old -> In g l ->
  g = old \/ In g l'.
Proof.
  intros E Hold Hin. apply In_nth_error in Hin. destruct Hin as [j Hj].
  destruct (Nat.eq_dec j i) as [->|Hne].
  - left. congruence.
  - right. eapply nth_error_In. rewrite (set_nth_other _ _ _ _ _ E Hne). exact Hj.
Qed.

(** [argmin] on numbers: the entry found is [<=] every entry. *)
Lemma argmin_from_least (rest : list float) :
  forall pre mp min_ind,
    nth_error pre min_ind = Some mp ->
    Forall (fun x => (mp <=? x) = true) pre ->
    Forall (fun x => is_nan x = false) rest ->
    exists v,
      nth_error (pre ++ rest) (np.argmin_from mp min_ind (length pre) rest) = Some v /\
      Forall (fun x => (v <=? x) = true) (pre ++ rest).
Proof.
  induction rest as [|x r IH]; intros pre mp min_ind Hmp Hpre Hrest.
  - exists mp. rewrite app_nil_r. split; [|exact Hpre].
    simpl. destruct (is_nan mp); exact Hmp.
  - assert (Hmn : is_nan mp = false).
    { apply nth_error_In in Hmp. rewrite Forall_forall in Hpre.
      apply Hpre in Hmp. now apply F64.leb_not_nan in Hmp. }
    inversion Hrest as [|? ? Hx Hr]; subst.
    simpl. rewrite Hmn. unfold Py.geb.
    replace (pre ++ x :: r) with ((pre ++ [x]) ++ r) by (rewrite <- app_assoc; reflexivity).
    replace (S (length pre)) with (length (pre ++ [x])) by (rewrite length_app; simpl; lia).
    destruct (mp <=? x) eqn:E; simpl.
    + apply IH; [|apply Forall_app; split; [exact Hpre|constructor; [exact E|constructor]]
                 |exact Hr].
      rewrite nth_error_app1; [exact Hmp|]. apply nth_error_Some. congruence.
    + apply IH; [| |exact Hr].
      * rewrite nth_error_app2 by lia. now rewrite Nat.sub_diag.
      * pose proof (F64.leb_false _ _ Hmn Hx E) as Hlt.
        apply Forall_app. split.
        -- eapply Forall_impl; [|exact Hpre]. intros y Hy. simpl in Hy.
           apply F64.ltb_leb. eapply F64.ltb_leb_trans; eassumption.
        -- constructor; [now apply F64.leb_refl|constructor].
Qed.

Lemma argmin_least (a : list float) (i : nat) :
  Forall (fun x => is_nan x = false) a -> np.argmin a = Some i ->
  exists v, nth_error a i = Some v /\ Forall (fun x => (v <=? x) = true) a.
Proof.
  destruct a as [|x r]; simpl; [discriminate|]. intros Ha [= <-].
  inversion Ha as [|? ? Hx Hr]; subst.
  apply (argmin_from_least r [x] x 0); [reflexivity| |exact Hr].
  constructor; [now apply F64.leb_refl|constructor].
Qed.

(** [argmin] when a NaN is there: the entry found is a NaN. *)
Lemma argmin_from_nan (rest : list float) :
  forall pre mp min_ind,
    nth_error pre min_ind = Some mp ->
    Exists (fun x => is_nan x = true) (mp :: rest) ->
    exists v,
      nth_error (pre ++ rest) (np.argmin_from mp min_ind (length pre) rest) = Some v /\
      is_nan v = true.
Proof.
  induction rest as [|x r IH]; intros pre mp min_ind Hmp Hex.
  - exists mp. rewrite app_nil_r. simpl.
    inversion Hex as [? ? Hn|? ? Hn]; subst; [|inversion Hn].
    rewrite Hn. auto.
  - simpl. destruct (is_nan mp) eqn:Hmn.
    + exists mp. split; [|exact Hmn].
      rewrite nth_error_app1; [exact Hmp|]. apply nth_error_Some. congruence.
    + assert (Hex' : Exists (fun y => is_nan y = true) (x :: r)).
      { inversion Hex; subst; [congruence|assumption]. }
      unfold Py.geb.
      replace (pre ++ x :: r) with ((pre ++ [x]) ++ r)
        by (rewrite <- app_assoc; reflexivity).
      replace (S (length pre)) with (length (pre ++ [x]))
        by (rewrite length_app; simpl; lia).
      destruct (mp <=? x) eqn:E; simpl.
      * apply IH.
        -- rewrite nth_error_app1; [exact Hmp|]. apply nth_error_Some. congruence.
        -- inversion Hex' as [? ? Hn|? ? Hn]; subst.
           ++ apply F64.leb_not_nan in E. destruct E. congruence.
           ++ now apply Exists_cons_tl.
      * apply IH; [|exact Hex'].
        rewrite nth_error_app2 by lia. now rewrite Nat.sub_diag.
Qed.

Lemma argmin_nan (a : list float) (i : nat) :
  Exists (fun x => is_nan x = true) a -> np.argmin a = Some i ->
  exists v, nth_error a i = Some v /\ is_nan v = true.
Proof.
  destruct a as [|x r]; simpl; [discriminate|]. intros Ha [= <-].
  apply (argmin_from_nan r [x] x 0); [reflexivity|exact Ha].
Qed.

Lemma set_cell_same (m m' : list (list float)) (r c : nat) (v : float) :
  np.set_cell m r c v = Some m' -> cell m' r c = Some v.
Proof.
  unfold np.set_cell, cell.
  destruct (nth_error m r) as [row|]; [|discriminate].
  destruct (np.set_nth c v row) as [row'|] eqn:Er; [|discriminate].
  intros Em. rewrite (set_nth_same _ _ _ _ Em). eapply set_nth_same. exact Er.
Qed.

Lemma set_cell_other_row (m m' : list (list float)) (r c : nat) (v : float) (r' : nat) :
  np.set_cell m r c v = Some m' -> r' <> r -> nth_error m' r' = nth_error m r'.
Proof.
  unfold np.set_cell.
  destruct (nth_error m r) as [row|]; [|discriminate].
  destruct (np.set_nth c v row) as [row'|]; [|discriminate].
  intros Em Hne. eapply set_nth_other; eassumption.
Qed.

Lemma column_nth (c : nat) (m : list (list float)) :
  forall col r, np.column m c = Some col -> nth_error col r = cell m r c.
Proof.
  unfold np.column, cell.
  induction m as [|row m IH]; intros col r; simpl.
  - intros [= <-]. now destruct r.
  - destruct (nth_error row c) as [x|] eqn:Ex; [|discriminate].
    destruct (np.map_opt _ m) as [col'|] eqn:Ec; [|discriminate].
    intros [= <-]. destruct r; simpl; [now rewrite Ex|]. now apply IH.
Qed.

Lemma set_column_column (c : nat) (m : list (list float)) :
  forall vals m', np.set_column m c vals = Some m' -> np.column m' c = Some vals.
Proof.
  unfold np.set_column, np.column.
  induction m as [|row m IH]; intros [|v vals] m'; simpl; try discriminate.
  - intros [= <-]. reflexivity.
  - destruct (np.set_nth c v row) as [row'|] eqn:Er; [|discriminate].
    destruct (np.zip_with_opt _ m vals) as [m1|] eqn:Em; [|discriminate].
    intros [= <-]. simpl. rewrite (set_nth_same _ _ _ _ Er), (IH _ _ Em). reflexivity.
Qed.

(** Entry by entry. *)
Lemma zip_with_nth (op : float -> float -> float) (a : list float) :
  forall b r, np.zip_with op a b = Some r ->
    forall j, (j < length r)%nat -> nth j r 0 = op (nth j a 0) (nth j b 0).
Proof.
  induction a as [|x a IH]; intros [|y b] r; simpl; try discriminate.
  - intros [= <-] j Hj. simpl in Hj. lia.
  - destruct (np.zip_with op a b) as [r'|] eqn:E; [|discriminate].
    intros [= <-] [|j] Hj; simpl in *; [reflexivity|]. apply (IH _ _ E). lia.
Qed.

Lemma map_nth_float (g : float -> float) (a : list float) :
  forall j, (j < length a)%nat -> nth j (map g a) 0 = g (nth j a 0).
Proof.
  induction a as [|x a IH]; intros [|j] Hj; simpl in *; try lia; [reflexivity|].
  apply IH. lia.
Qed.

Lemma draws_nth (u : np.stream) (k : N) (n j : nat) :
  (j < n)%nat -> nth j (np.draws u k n) 0 = u (k + N.of_nat j)%N.
Proof.
  intros Hj. unfold np.draws.
  rewrite (nth_indep _ 0 (u (k + N.of_nat 0)%N)) by (rewrite length_map, length_seq; lia).
  rewrite (map_nth (fun i => u (k + N.of_nat i)%N)). now rewrite seq_nth.
Qed.

Lemma draws_length (u : np.stream) (k : N) (n : nat) : length (np.draws u k n) = n.
Proof. unfold np.draws. now rewrite length_map, length_seq. Qed.

End ArrayFacts.

(** ** One sweep of [compute_global_best] *)

Section Sweep.

Import Algorithms ArrayFacts Shape.
Local Open Scope float_scope.
Context `{Params}.

Ltac inv_opt H :=
  repeat match type of H with
         | match ?e with Some _ => _ | None => _ end = Some _ =>
             let E := fresh "E" in destruct e eqn:E; [|discriminate H]
         end.

(** The body of the loop, read off its result. *)
Lemma particle_update_inv (u : np.stream) (fac : Factor) (f : list float -> float)
  (i : nat) (sw sw' : Swarm) (gb gb' : list float) :
  particle_update u fac f i (sw, gb) = Some (sw', gb') ->
  exists pb x v d1 t1 cog d2 t2 soc v1 v' x',
    nth_error (personal_best sw) i = Some pb /\
    nth_error (particles_position sw) i = Some x /\
    nth_error (particles_velocity sw) i = Some v /\
    np.vop sub pb x = Some d1 /\
    np.vop mul (np.sop mul c1 (np.draws u (cursor sw) num_dimensions)) d1 = Some t1 /\
    times t1 fac = Some cog /\
    np.vop sub gb x = Some d2 /\
    np.vop mul (np.sop mul c2
                  (np.draws u (cursor sw + N.of_nat num_dimensions) num_dimensions))
      (map (fun y => y + 0) d2) = Some t2 /\
    times t2 fac = Some soc /\
    np.vop add (np.sop mul w v) cog = Some v1 /\
    np.vop add v1 soc = Some v' /\
    np.vop add x v' = Some x' /\
    np.set_nth i v' (particles_velocity sw) = Some (particles_velocity sw') /\
    np.set_nth i x' (particles_position sw) = Some (particles_position sw') /\
    cursor sw' = (cursor sw + N.of_nat num_dimensions + N.of_nat num_dimensions)%N /\
    ((f x' <? f pb) = true /\
     np.set_nth i x' (personal_best sw) = Some (personal_best sw') /\
     gb' = (if f x' <? f gb then x' else gb)
     \/
     (f x' <? f pb) = false /\ personal_best sw' = personal_best sw /\ gb' = gb).
Proof.
  unfold particle_update, np.rand. intros Hu. inv_opt Hu.
  exists l, l0, l7, l1, l2, l3, l4, l5, l6, l8, l9, l11.
  destruct (f l11 <? f l) eqn:Elt.
  - destruct (np.set_nth i l11 (personal_best sw)) as [pbs|] eqn:Ep; [|discriminate].
    destruct (f l11 <? f gb) eqn:Eg; injection Hu as <- <-; simpl;
      repeat (split; [assumption || reflexivity|]); left; auto.
  - injection Hu as <- <-; simpl.
    repeat (split; [assumption || reflexivity|]); right; auto.
Qed.

Lemma least_numeric (f : list float -> float) (sw : Swarm) (gb : list float) :
  least f sw gb -> numeric f sw.
Proof.
  intros [_ Hf]. eapply Forall_impl; [|exact Hf].
  intros p Hp. simpl in Hp. now apply F64.leb_not_nan in Hp.
Qed.

Lemma select_inv (f : list float -> float) (sw : Swarm) (gb : list float) :
  select_global_best f sw = Some gb ->
  In gb (personal_best sw) /\
  (numeric f sw -> least f sw gb) /\
  (Exists (fun p => is_nan (f p) = true) (personal_best sw) -> is_nan (f gb) = true).
Proof.
  unfold select_global_best.
  destruct (np.argmin (map f (personal_best sw))) as [idx|] eqn:Ea; [|discriminate].
  intros Hn. pose proof (map_nth_error f _ _ Hn) as Hm.
  split; [eapply nth_error_In; eassumption|]. split.
  - intros Hnum. split; [eapply nth_error_In; eassumption|].
    destruct (argmin_least (map f (personal_best sw)) idx) as [v [Hv Hf]];
      [now apply Forall_map|exact Ea|].
    rewrite Hm in Hv. injection Hv as <-. now apply Forall_map in Hf.
  - intros Hex.
    destruct (argmin_nan (map f (personal_best sw)) idx) as [v [Hv Hf]];
      [now apply Exists_map|exact Ea|].
    rewrite Hm in Hv. now injection Hv as <-.
Qed.

Lemma particle_update_least (u : np.stream) (fac : Factor) (f : list float -> float)
  (i : nat) (sw sw' : Swarm) (gb gb' : list float) :
  least f sw gb ->
  particle_update u fac f i (sw, gb) = Some (sw', gb') ->
  least f sw' gb' /\ (f gb' <=? f gb) = true.
Proof.
  intros [Hin Hall] Hu. apply particle_update_inv in Hu.
  destruct Hu as [pb [x [v [d1 [t1 [cog [d2 [t2 [soc [v1 [v' [x' Hu]]]]]]]]]]]].
  destruct Hu as [Hpb [_ [_ [_ [_ [_ [_ [_ [_ [_ [_ [_ [_ [_ [_ Hcase]]]]]]]]]]]]]]].
  assert (Hgg : (f gb <=? f gb) = true).
  { rewrite Forall_forall in Hall. now apply Hall. }
  unfold least.
  destruct Hcase as [[Hlt [Hset ->]]|[_ [-> ->]]]; [|split; [split|]; assumption].
  destruct (f x' <? f gb) eqn:Eg.
  - split; [split|now apply F64.ltb_leb].
    + eapply set_nth_In. exact Hset.
    + eapply set_nth_Forall; [exact Hset| |].
      * eapply Forall_impl; [|exact Hall]. intros p Hp. simpl in Hp.
        apply F64.ltb_leb. eapply F64.ltb_leb_trans; eassumption.
      * apply F64.leb_refl. now apply F64.ltb_not_nan in Eg.
  - split; [split|exact Hgg].
    + destruct (set_nth_In_old _ _ _ _ _ _ Hset Hpb Hin) as [->|Hin']; [|exact Hin'].
      congruence.
    + eapply set_nth_Forall; [exact Hset|exact Hall|].
      apply F64.leb_total; [now apply F64.ltb_not_nan in Hlt| |exact Eg].
      now apply F64.leb_not_nan in Hgg.
Qed.

Lemma sweep_least (u : np.stream) (fac : Factor) (f : list float -> float)
  (range : list nat) :
  forall sw gb sw' gb',
    least f sw gb ->
    sweep u fac f range (sw, gb) = Some (sw', gb') ->
    least f sw' gb' /\ (f gb' <=? f gb) = true.
Proof.
  induction range as [|i rest IH]; intros sw gb sw' gb' Hl; cbn [sweep].
  - intros [= <- <-]. split; [exact Hl|].
    destruct Hl as [Hin Hall]. rewrite Forall_forall in Hall. now apply Hall.
  - destruct (particle_update u fac f i (sw, gb)) as [[sw1 gb1]|] eqn:E; [|discriminate].
    intros Hs. destruct (particle_update_least _ _ _ _ _ _ _ _ Hl E) as [Hl1 Hle1].
    destruct (IH _ _ _ _ Hl1 Hs) as [Hl' Hle']. split; [exact Hl'|].
    eapply F64.leb_trans; eassumption.
Qed.

(** One call: the best it returns is the least of the personal bests it
    leaves, and costs no more than any best that was least before. *)
Lemma compute_global_best_least (u : np.stream) (fac : Factor)
  (f : list float -> float) (sw sw' : Swarm) (gb : list float) :
  numeric f sw ->
  compute_global_best u fac f sw = Some (gb, sw') ->
  least f sw' gb /\ (forall gb0, least f sw gb0 -> (f gb <=? f gb0) = true).
Proof.
  intros Hnum. unfold compute_global_best.
  destruct (select_global_best f sw) as [g0|] eqn:Es; [|discriminate].
  destruct (sweep u fac f _ (sw, g0)) as [[sw1 g1]|] eqn:Ew; [|discriminate].
  intros [= <- <-]. apply select_inv in Es. destruct Es as [_ [Hl0 _]].
  specialize (Hl0 Hnum).
  destruct (sweep_least _ _ _ _ _ _ _ _ Hl0 Ew) as [Hl1 Hle1].
  split; [exact Hl1|]. intros gb0 [Hin0 _].
  eapply F64.leb_trans; [exact Hle1|].
  destruct Hl0 as [_ Hall0]. rewrite Forall_forall in Hall0. now apply Hall0.
Qed.

Lemma collect_descending (u : np.stream) (fac : Factor) (f : list float -> float)
  (range : list nat) :
  forall vals sw vals' sw' gb0,
    least f sw gb0 ->
    collect u fac f range vals sw = Some (vals', sw') ->
    exists new, vals' = vals ++ new /\ length new = length range /\
                descending (f gb0) new = true /\ numeric f sw'.
Proof.
  induction range as [|i rest IH]; intros vals sw vals' sw' gb0 Hl; cbn [collect].
  - intros [= <- <-]. exists []. rewrite app_nil_r.
    repeat split. eapply least_numeric; eassumption.
  - destruct (compute_global_best u fac f sw) as [[gb sw1]|] eqn:E; [|discriminate].
    intros Hc.
    destruct (compute_global_best_least _ _ _ _ _ _ (least_numeric _ _ _ Hl) E)
      as [Hl1 Hle].
    destruct (IH _ _ _ _ _ Hl1 Hc) as [new [-> [Hlen [Hd Hn]]]].
    exists (f gb :: new). rewrite <- app_assoc. simpl.
    unfold Py.geb. rewrite (Hle _ Hl), Hd. auto.
Qed.

Lemma collect_non_increasing (u : np.stream) (fac : Factor) (f : list float -> float)
  (range : list nat) (sw sw' : Swarm) (vals : list float) :
  numeric f sw ->
  collect u fac f range [] sw = Some (vals, sw') ->
  length vals = length range /\ non_increasing vals = true /\ numeric f sw'.
Proof.
  destruct range as [|i rest]; cbn [collect]; intros Hnum.
  - intros [= <- <-]. auto.
  - destruct (compute_global_best u fac f sw) as [[gb sw1]|] eqn:E; [|discriminate].
    intros Hc.
    destruct (compute_global_best_least _ _ _ _ _ _ Hnum E) as [Hl1 _].
    destruct (collect_descending _ _ _ _ _ _ _ _ _ Hl1 Hc) as [new [-> [Hlen [Hd Hn]]]].
    simpl. auto.
Qed.

(** [CPSOAlgorithm] collects the values the other runners collect, and
    writes each into its cell of column [run]. *)
Lemma CPSO_loop_collect (u : np.stream) (run : nat) (f : list float -> float) (n : nat) :
  forall a st st',
    CPSO_loop u run f (seq a n) st = Some st' ->
    exists new,
      length new = n /\
      (forall acc, collect u (Scalar 1) f (seq a n) acc (swarm st) =
                   Some (acc ++ new, swarm st')) /\
      mean_gbest_evolution st' = mean_gbest_evolution st /\
      (forall r, (r < a)%nat ->
         nth_error (best_fitness_evolution st') r = nth_error (best_fitness_evolution st) r) /\
      (forall j, (j < n)%nat ->
         cell (best_fitness_evolution st') (a + j) run = nth_error new j).
Proof.
  induction n as [|n IH]; intros a st st'; cbn [seq CPSO_loop collect].
  - intros [= <-]. exists []. repeat split; try (intros; lia).
    intros acc. now rewrite app_nil_r.
  - destruct (compute_global_best u (Scalar 1) f (swarm st)) as [[gb sw1]|] eqn:E;
      [|discriminate].
    destruct (np.set_cell _ a run (f gb)) as [m1|] eqn:Em; [|discriminate].
    intros Hl. destruct (IH _ _ _ Hl) as [new [Hlen [Hc [Hm [Hfr Hcells]]]]].
    simpl in Hc, Hm, Hfr.
    exists (f gb :: new). split; [simpl; congruence|]. split; [|split; [exact Hm|split]].
    + intros acc. rewrite Hc, <- app_assoc. reflexivity.
    + intros r Hr. rewrite Hfr by lia. eapply set_cell_other_row; [exact Em|lia].
    + intros [|j] Hj.
      * rewrite Nat.add_0_r. unfold cell. rewrite Hfr by lia.
        apply set_cell_same in Em. exact Em.
      * replace (a + S j)%nat with (S a + j)%nat by lia. simpl. apply Hcells. lia.
Qed.

Lemma firstn_cells (m : list (list float)) (c n : nat) (new col : list float) :
  length new = n ->
  (forall j, (j < n)%nat -> cell m j c = nth_error new j) ->
  np.column m c = Some col -> firstn n col = new.
Proof.
  intros Hlen Hcells Hcol. apply nth_error_ext. intros j.
  rewrite nth_error_firstn. destruct (j <? n)%nat eqn:E.
  - apply Nat.ltb_lt in E. rewrite (column_nth _ _ _ _ Hcol). now apply Hcells.
  - apply Nat.ltb_ge in E. symmetry. apply nth_error_None. lia.
Qed.

Lemma firstn_set_column (m m' : list (list float)) (c n : nat) (vals col : list float) :
  length vals = n ->
  np.set_column m c vals = Some m' -> np.column m' c = Some col -> firstn n col = vals.
Proof.
  intros Hlen Hs Hc. rewrite (set_column_column _ _ _ _ Hs) in Hc.
  injection Hc as <-. rewrite <- Hlen. apply firstn_all.
Qed.

Lemma collect_length (u : np.stream) (fac : Factor) (f : list float -> float)
  (range : list nat) :
  forall vals sw vals' sw',
    collect u fac f range vals sw = Some (vals', sw') ->
    length vals' = (length vals + length range)%nat.
Proof.
  induction range as [|i rest IH]; intros vals sw vals' sw'; cbn [collect].
  - intros [= <- <-]. simpl. lia.
  - destruct (compute_global_best u fac f sw) as [[gb sw1]|]; [|discriminate].
    intros Hc. apply IH in Hc. rewrite Hc, length_app. simpl. lia.
Qed.

(** Every runner is [num_iterations] calls of [compute_global_best] with
    its factor, from the swarm it finds; what column [run] then holds are the
    costs of the bests these calls returned. *)
Lemma runner_collect (v : Variant) (u : np.stream) (run : nat) (f : list float -> float)
  (st st' : Store) (m : list (list float)) :
  run_variant v u run f st = Some (m, st') ->
  exists vals,
    collect u (variant_factor v u (swarm st)) f (seq 0 num_iterations) []
      (variant_start v (swarm st)) = Some (vals, swarm st') /\
    forall col, np.column m run = Some col -> firstn num_iterations col = vals.
Proof.
  destruct v; simpl.
  - unfold CPSOAlgorithm.
    destruct (CPSO_loop u run f (seq 0 num_iterations) st) as [st1|] eqn:E; [|discriminate].
    intros [= <- <-]. apply CPSO_loop_collect in E.
    destruct E as [new [Hlen [Hc [_ [_ Hcells]]]]].
    exists new. split; [apply (Hc [])|]. intros col Hcol.
    eapply firstn_cells; eassumption.
  - unfold SPSOAlgorithm.
    destruct (select_global_best f (swarm st)); [|discriminate].
    destruct (collect u (Scalar 1) f _ [] (swarm st)) as [[vals sw']|] eqn:E; [|discriminate].
    destruct (np.set_column _ run vals) as [m1|] eqn:Em; [|discriminate].
    intros [= <- <-]. exists vals. split; [reflexivity|]. intros col Hcol.
    apply collect_length in E. rewrite length_seq in E.
    eapply firstn_set_column; eassumption.
  - unfold HCLPSOAlgorithm, np.uniform.
    destruct (select_global_best f (swarm st)); [|discriminate].
    destruct (collect u _ f _ [] _) as [[vals sw']|] eqn:E; [|discriminate].
    destruct (np.set_column _ run vals) as [m1|] eqn:Em; [|discriminate].
    intros [= <- <-]. exists vals. split; [reflexivity|]. intros col Hcol.
    apply collect_length in E. rewrite length_seq in E.
    eapply firstn_set_column; eassumption.
  - unfold EPSOAlgorithm.
    destruct (select_global_best f (swarm st)); [|discriminate].
    destruct (collect u (Scalar w) f _ [] (swarm st)) as [[vals sw']|] eqn:E; [|discriminate].
    destruct (np.set_column _ run vals) as [m1|] eqn:Em; [|discriminate].
    intros [= <- <-]. exists vals. split; [reflexivity|]. intros col Hcol.
    apply collect_length in E. rewrite length_seq in E.
    eapply firstn_set_column; eassumption.
Qed.

(** A runner that starts with numeric personal-best costs records costs
    that never rise, and leaves numeric personal-best costs. *)
Lemma runner_non_increasing (v : Variant) (u : np.stream) (run : nat)
  (f : list float -> float) (st st' : Store) (m : list (list float)) :
  numeric f (swarm st) ->
  run_variant v u run f st = Some (m, st') ->
  numeric f (swarm st') /\
  forall col, np.column m run = Some col ->
    non_increasing (firstn num_iterations col) = true.
Proof.
  intros Hnum Hr. apply runner_collect in Hr. destruct Hr as [vals [Hc Hcol]].
  apply collect_non_increasing in Hc; [|destruct v; exact Hnum].
  destruct Hc as [_ [Hni Hn']]. split; [exact Hn'|].
  intros col Ec. now rewrite (Hcol _ Ec).
Qed.

(** A global best of NaN cost is never replaced, and stays among the
    personal bests. *)
Lemma particle_update_nan (u : np.stream) (fac : Factor) (f : list float -> float)
  (i : nat) (sw sw' : Swarm) (gb gb' : list float) :
  In gb (personal_best sw) -> is_nan (f gb) = true ->
  particle_update u fac f i (sw, gb) = Some (sw', gb') ->
  gb' = gb /\ In gb (personal_best sw').
Proof.
  intros Hin Hnan Hu. apply particle_update_inv in Hu.
  destruct Hu as [pb [x [v [d1 [t1 [cog [d2 [t2 [soc [v1 [v' [x' Hu]]]]]]]]]]]].
  destruct Hu as [Hpb [_ [_ [_ [_ [_ [_ [_ [_ [_ [_ [_ [_ [_ [_ Hcase]]]]]]]]]]]]]]].
  destruct Hcase as [[Hlt [Hset ->]]|[_ [-> ->]]]; [|auto].
  rewrite (F64.ltb_nan_r _ _ Hnan). split; [reflexivity|].
  destruct (set_nth_In_old _ _ _ _ _ _ Hset Hpb Hin) as [E|Hin']; [|exact Hin'].
  subst pb. rewrite (F64.ltb_nan_r _ _ Hnan) in Hlt. discriminate.
Qed.

Lemma sweep_nan (u : np.stream) (fac : Factor) (f : list float -> float)
  (range : list nat) :
  forall sw gb sw' gb',
    In gb (personal_best sw) -> is_nan (f gb) = true ->
    sweep u fac f range (sw, gb) = Some (sw', gb') ->
    gb' = gb /\ In gb (personal_best sw').
Proof.
  induction range as [|i rest IH]; intros sw gb sw' gb' Hin Hnan; cbn [sweep].
  - intros [= <- <-]. auto.
  - destruct (particle_update u fac f i (sw, gb)) as [[sw1 gb1]|] eqn:E; [|discriminate].
    intros Hs. destruct (particle_update_nan _ _ _ _ _ _ _ _ Hin Hnan E) as [-> Hin1].
    exact (IH _ _ _ _ Hin1 Hnan Hs).
Qed.

(** One call from a swarm in which a personal best costs NaN: the best it
    returns costs NaN, and is a personal best of the swarm it leaves. *)
Lemma compute_global_best_nan (u : np.stream) (fac : Factor)
  (f : list float -> float) (sw sw' : Swarm) (gb : list float) :
  Exists (fun p => is_nan (f p) = true) (personal_best sw) ->
  compute_global_best u fac f sw = Some (gb, sw') ->
  is_nan (f gb) = true /\
  Exists (fun p => is_nan (f p) = true) (personal_best sw').
Proof.
  intros Hex. unfold compute_global_best.
  destruct (select_global_best f sw) as [g0|] eqn:Es; [|discriminate].
  destruct (sweep u fac f _ (sw, g0)) as [[sw1 g1]|] eqn:Ew; [|discriminate].
  intros [= <- <-]. apply select_inv in Es. destruct Es as [Hin [_ Hnan]].
  specialize (Hnan Hex).
  destruct (sweep_nan _ _ _ _ _ _ _ _ Hin Hnan Ew) as [-> Hin1].
  split; [exact Hnan|]. apply Exists_exists. eauto.
Qed.

Lemma collect_nan (u : np.stream) (fac : Factor) (f : list float -> float)
  (range : list nat) :
  forall vals sw vals' sw',
    Exists (fun p => is_nan (f p) = true) (personal_best sw) ->
    collect u fac f range vals sw = Some (vals', sw') ->
    exists new, vals' = vals ++ new /\ length new = length range /\
                Forall (fun c => is_nan c = true) new /\
                Exists (fun p => is_nan (f p) = true) (personal_best sw').
Proof.
  induction range as [|i rest IH]; intros vals sw vals' sw' Hex; cbn [collect].
  - intros [= <- <-]. exists []. rewrite app_nil_r. auto.
  - destruct (compute_global_best u fac f sw) as [[gb sw1]|] eqn:E; [|discriminate].
    intros Hc. destruct (compute_global_best_nan _ _ _ _ _ _ Hex E) as [Hnan Hex1].
    destruct (IH _ _ _ _ Hex1 Hc) as [new [-> [Hlen [Hall Hex']]]].
    exists (f gb :: new). rewrite <- app_assoc. simpl. auto.
Qed.

(** Two or more values that are all NaN are not in order. *)
Lemma nan_not_non_increasing (l : list float) :
  Forall (fun c => is_nan c = true) l -> (2 <= length l)%nat -> non_increasing l = false.
Proof.
  destruct l as [|x [|y r]]; simpl; try lia. intros Hall _.
  inversion Hall as [|? ? Hx _]; subst. unfold Py.geb.
  now rewrite (F64.leb_nan_r _ _ Hx).
Qed.

(** A runner that starts with a personal best of NaN cost: the particle
    [np.argmin] selects costs NaN, the runner records NaN at every iteration,
    and leaves a personal best of NaN cost. *)
Lemma runner_nan (v : Variant) (u : np.stream) (run : nat)
  (f : list float -> float) (st st' : Store) (m : list (list float)) :
  Exists (fun p => is_nan (f p) = true) (personal_best (swarm st)) ->
  run_variant v u run f st = Some (m, st') ->
  (forall gb, select_global_best f (swarm st) = Some gb -> is_nan (f gb) = true) /\
  Exists (fun p => is_nan (f p) = true) (personal_best (swarm st')) /\
  forall col, np.column m run = Some col ->
    Forall (fun c => is_nan c = true) (firstn num_iterations col) /\
    ((2 <= num_iterations)%nat -> non_increasing (firstn num_iterations col) = false).
Proof.
  intros Hex Hr. split.
  { intros gb Hs. apply select_inv in Hs. now apply Hs. }
  apply runner_collect in Hr. destruct Hr as [vals [Hc Hcol]].
  apply collect_nan in Hc; [|destruct v; exact Hex].
  destruct Hc as [new [Ev [Hlen [Hall Hex']]]]. simpl in Ev. subst new.
  rewrite length_seq in Hlen. split; [exact Hex'|].
  intros col Ec. rewrite (Hcol _ Ec). split; [exact Hall|].
  intros H2. apply nan_not_non_increasing; [exact Hall|lia].
Qed.

Lemma times_nth (a : list float) (fac : Factor) (r : list float) :
  times a fac = Some r ->
  length r = length a /\
  forall j, (j < length a)%nat -> nth j r 0 = nth j a 0 * factor_at fac j.
Proof.
  destruct fac as [x|h]; simpl.
  - intros [= <-]. split; [now rewrite length_map|].
    intros j Hj. now rewrite map_nth_float.
  - intros E. pose proof (zip_with_length _ _ _ _ E) as [_ Hl]. split; [exact Hl|].
    intros j Hj. apply (zip_with_nth _ _ _ _ E). lia.
Qed.

Lemma particle_update_formula (u : np.stream) (fac : Factor) (f : list float -> float)
  (i : nat) (sw sw' : Swarm) (gb gb' : list float) :
  particle_update u fac f i (sw, gb) = Some (sw', gb') ->
  (exists pb x v v' x',
     rows sw i = (Some x, Some v, Some pb) /\
     nth_error (particles_velocity sw') i = Some v' /\
     nth_error (particles_position sw') i = Some x' /\
     updated u fac (cursor sw) pb x v gb v' x') /\
  (forall j, j <> i -> rows sw' j = rows sw j) /\
  cursor sw' = (cursor sw + N.of_nat (2 * num_dimensions))%N.
Proof.
  intros Hu. apply particle_update_inv in Hu.
  destruct Hu as [pb [x [v [d1 [t1 [cog [d2 [t2 [soc [v1 [v' [x' Hu]]]]]]]]]]]].
  destruct Hu as [Hpb [Hx [Hv [Ed1 [Et1 [Ecog [Ed2 [Et2 [Esoc [Ev1 [Ev' [Ex' Hu]]]]]]]]]]]].
  destruct Hu as [Svel [Spos [Hk Hcase]]].
  split; [|split].
  - exists pb, x, v, v', x'. unfold rows. rewrite Hpb, Hx, Hv.
    split; [reflexivity|]. split; [eapply set_nth_same; exact Svel|].
    split; [eapply set_nth_same; exact Spos|].
    unfold np.vop, np.sop in *.
    pose proof (zip_with_length _ _ _ _ Ed1) as [Lx Ld1].
    pose proof (zip_with_length _ _ _ _ Et1) as [Ld1' Lt1].
    pose proof (zip_with_length _ _ _ _ Ed2) as [Lx2 Ld2].
    pose proof (zip_with_length _ _ _ _ Et2) as [Ld2' Lt2].
    pose proof (zip_with_length _ _ _ _ Ev1) as [Lc Lv1].
    pose proof (zip_with_length _ _ _ _ Ev') as [Ls Lv'].
    pose proof (zip_with_length _ _ _ _ Ex') as [Lvx Lx'].
    destruct (times_nth _ _ _ Ecog) as [Lcog Ncog].
    destruct (times_nth _ _ _ Esoc) as [Lsoc Nsoc].
    rewrite !length_map, draws_length in *.
    assert (Ldx : length x = num_dimensions) by congruence.
    split; [congruence|]. split; [congruence|].
    intros j Hj. split.
    + rewrite (zip_with_nth _ _ _ _ Ev') by congruence.
      rewrite (zip_with_nth _ _ _ _ Ev1) by congruence.
      rewrite map_nth_float by congruence.
      rewrite Ncog, Nsoc by congruence.
      rewrite (zip_with_nth _ _ _ _ Et1) by congruence.
      rewrite (zip_with_nth _ _ _ _ Et2) by congruence.
      rewrite !map_nth_float by (rewrite ?draws_length; congruence).
      rewrite (zip_with_nth _ _ _ _ Ed1) by congruence.
      rewrite (zip_with_nth _ _ _ _ Ed2) by congruence.
      rewrite !draws_nth by exact Hj. reflexivity.
    + rewrite (zip_with_nth _ _ _ _ Ex') by congruence. reflexivity.
  - intros j Hj. unfold rows.
    rewrite (set_nth_other _ _ _ _ _ Svel Hj), (set_nth_other _ _ _ _ _ Spos Hj).
    destruct Hcase as [[_ [Spb _]]|[_ [-> _]]]; [|reflexivity].
    now rewrite (set_nth_other _ _ _ _ _ Spb Hj).
  - rewrite Hk. lia.
Qed.

Lemma sweep_app (u : np.stream) (fac : Factor) (f : list float -> float)
  (r1 r2 : list nat) :
  forall acc, sweep u fac f (r1 ++ r2) acc =
              (acc' <- sweep u fac f r1 acc ;; sweep u fac f r2 acc').
Proof.
  induction r1 as [|i r1 IH]; intros acc; cbn [sweep app]; [reflexivity|].
  destruct (particle_update u fac f i acc); [apply IH|reflexivity].
Qed.

Lemma sweep_frame (u : np.stream) (fac : Factor) (f : list float -> float)
  (i : nat) (range : list nat) :
  forall sw gb sw' gb',
    sweep u fac f range (sw, gb) = Some (sw', gb') -> ~ In i range ->
    rows sw' i = rows sw i /\
    cursor sw' = (cursor sw + N.of_nat (2 * num_dimensions * length range))%N.
Proof.
  induction range as [|j rest IH]; intros sw gb sw' gb'; cbn [sweep].
  - intros [= <- <-] _. split; [reflexivity|]. simpl. lia.
  - destruct (particle_update u fac f j (sw, gb)) as [[sw1 gb1]|] eqn:E; [|discriminate].
    intros Hs Hni. apply particle_update_formula in E. destruct E as [_ [Hfr Hk]].
    destruct (IH _ _ _ _ Hs) as [Hr Hk']; [intros Hin; apply Hni; now right|].
    split.
    + rewrite Hr. apply Hfr. intros ->. apply Hni. now left.
    + rewrite Hk', Hk. cbn [length]. lia.
Qed.

(** In one sweep, particle [i] is updated from its rows as the sweep found
    them, with the global best as it stands when the particle is reached
    and with draws no other particle of the sweep uses. *)
Lemma sweep_formula (u : np.stream) (fac : Factor) (f : list float -> float)
  (n i : nat) (sw sw' : Swarm) (gb gb' : list float) :
  sweep u fac f (seq 0 n) (sw, gb) = Some (sw', gb') -> (i < n)%nat ->
  exists sw_i gb_i pb x v v' x',
    sweep u fac f (seq 0 i) (sw, gb) = Some (sw_i, gb_i) /\
    rows sw i = (Some x, Some v, Some pb) /\
    nth_error (particles_velocity sw') i = Some v' /\
    nth_error (particles_position sw') i = Some x' /\
    updated u fac (cursor sw + N.of_nat (2 * num_dimensions * i))%N pb x v gb_i v' x'.
Proof.
  intros Hs Hi.
  replace n with (i + S (n - S i))%nat in Hs by lia.
  rewrite seq_app, sweep_app in Hs. cbn [seq Nat.add] in Hs.
  destruct (sweep u fac f (seq 0 i) (sw, gb)) as [[sw_i gb_i]|] eqn:E1; [|discriminate].
  cbn [sweep] in Hs.
  destruct (particle_update u fac f i (sw_i, gb_i)) as [[sw1 gb1]|] eqn:E2; [|discriminate].
  destruct (sweep_frame u fac f i _ _ _ _ _ E1) as [Hr1 Hk1];
    [rewrite in_seq; lia|].
  destruct (sweep_frame u fac f i _ _ _ _ _ Hs) as [Hr2 _];
    [rewrite in_seq; lia|].
  apply particle_update_formula in E2.
  destruct E2 as [[pb [x [v [v' [x' [Hrows [Hv' [Hx' Hup]]]]]]]] _].
  exists sw_i, gb_i, pb, x, v, v', x'. split; [reflexivity|].
  rewrite <- Hr1, Hrows. split; [reflexivity|].
  unfold rows in Hr2. injection Hr2 as Hp2 Hv2 _.
  rewrite length_seq in Hk1. rewrite Hv2, Hp2, Hv', Hx', <- Hk1. auto.
Qed.

End Sweep.

(** ** The variant runners *)

Section Variants.

Import Algorithms ArrayFacts Shape.
Local Open Scope float_scope.
Context `{Params}.

(** C7: in a call of [compute_global_best], particle [i] gets the velocity
    [w*v + c1*r1*(pb - x)*fac + c2*r2*(gb - x + 0)*fac] and the position
    [x + velocity], coordinate by coordinate, from its own rows as the call
    found them, with [gb] the global best as it stands when the sweep
    reaches the particle and with [r1], [r2] read at stream positions that
    particle alone uses, the call moving on in the stream by all it read;
    every runner is [num_iterations] such calls, with
    the factor [1] for CPSO and SPSO, [params.w] for EPSO and one factor per
    dimension, drawn once, for HCLPSO. *)
Theorem velocity_and_position_update :
  (forall (u : np.stream) (fac : Factor) (f : np.vec -> float) (sw sw' : Swarm)
          (gb' : np.vec) (i : nat),
     compute_global_best u fac f sw = Some (gb', sw') -> (i < num_particles)%nat ->
     exists gb0 sw_i gb_i pb x v v' x',
       select_global_best f sw = Some gb0 /\
       sweep u fac f (seq 0 i) (sw, gb0) = Some (sw_i, gb_i) /\
       rows sw i = (Some x, Some v, Some pb) /\
       nth_error (particles_velocity sw') i = Some v' /\
       nth_error (particles_position sw') i = Some x' /\
       updated u fac (cursor sw + N.of_nat (2 * num_dimensions * i))%N
         pb x v gb_i v' x') /\
  (forall (u : np.stream) (fac : Factor) (f : np.vec -> float) (sw sw' : Swarm)
          (gb' : np.vec),
     compute_global_best u fac f sw = Some (gb', sw') ->
     cursor sw' = (cursor sw + N.of_nat (2 * num_dimensions * num_particles))%N) /\
  (forall (v : Variant) (u : np.stream) (run : nat) (f : np.vec -> float)
          (st st' : Store) (m : np.matrix),
     run_variant v u run f st = Some (m, st') ->
     exists vals,
       collect u (variant_factor v u (swarm st)) f (seq 0 num_iterations) []
         (variant_start v (swarm st)) = Some (vals, swarm st')) /\
  (forall (u : np.stream) (sw : Swarm),
     variant_factor CPSO u sw = Scalar 1 /\
     variant_factor SPSO u sw = Scalar 1 /\
     variant_factor EPSO u sw = Scalar w /\
     variant_factor HCLPSO u sw =
       PerDimension (map (fun r => 1 - alpha + (1 + alpha - (1 - alpha)) * r)
                       (np.draws u (cursor sw) num_dimensions))).
Proof.
  split; [|split; [|split]].
  - intros u fac f sw sw' gb' i. unfold compute_global_best.
    destruct (select_global_best f sw) as [gb0|]; [|discriminate].
    destruct (sweep u fac f (seq 0 num_particles) (sw, gb0)) as [[sw1 gb1]|] eqn:E;
      [|discriminate].
    intros [= <- <-] Hi.
    destruct (sweep_formula _ _ _ _ _ _ _ _ _ E Hi)
      as [sw_i [gb_i [pb [x [v [v' [x' Hf]]]]]]].
    exists gb0, sw_i, gb_i, pb, x, v, v', x'. split; [reflexivity|exact Hf].
  - intros u fac f sw sw' gb'. unfold compute_global_best.
    destruct (select_global_best f sw) as [gb0|]; [|discriminate].
    destruct (sweep u fac f (seq 0 num_particles) (sw, gb0)) as [[sw1 gb1]|] eqn:E;
      [|discriminate].
    intros [= <- <-].
    destruct (sweep_frame u fac f num_particles _ _ _ _ _ E) as [_ Hk];
      [rewrite in_seq; lia|].
    now rewrite length_seq in Hk.
  - intros v u run f st st' m Hr. apply runner_collect in Hr.
    destruct Hr as [vals [Hc _]]. eauto.
  - intros u sw. repeat split.
Qed.

(** C3, as the code has it: [compute_global_best] compares the costs as
    they are.  When no personal best costs NaN and one costs less than
    [inf], the particle the sweep starts from and the global best the call
    returns cost less than [inf]; when a personal best costs NaN, the
    particle the sweep starts from costs NaN. *)
Theorem selection_compares_costs_as_they_are
  (u : np.stream) (fac : Factor) (f : np.vec -> float) (sw : Swarm) (gb : np.vec) :
  select_global_best f sw = Some gb ->
  (numeric f sw ->
   Exists (fun p => (f p <? infinity) = true) (personal_best sw) ->
   (f gb <? infinity) = true /\
   forall gb' sw', compute_global_best u fac f sw = Some (gb', sw') ->
     (f gb' <? infinity) = true) /\
  (Exists (fun p => is_nan (f p) = true) (personal_best sw) -> is_nan (f gb) = true).
Proof.
  intros Hs. pose proof (select_inv _ _ _ Hs) as [Hin [Hl Hnan]].
  split; [|exact Hnan].
  intros Hnum Hex. specialize (Hl Hnum).
  assert (Hgb : (f gb <? infinity) = true).
  { apply Exists_exists in Hex. destruct Hex as [p [Hp Hlt]].
    destruct Hl as [_ Hall]. rewrite Forall_forall in Hall.
    eapply F64.leb_ltb_trans; [apply Hall; exact Hp|exact Hlt]. }
  split; [exact Hgb|]. intros gb' sw' Hc.
  destruct (compute_global_best_least _ _ _ _ _ _ Hnum Hc) as [_ Hle].
  eapply F64.leb_ltb_trans; [apply Hle; exact Hl|exact Hgb].
Qed.

(** C5, as the code has it: the swarm is created when the module is
    imported, with every coordinate [-600 + (600 - -600) * r] for a draw
    [r], the velocities zero and the personal bests equal to the positions;
    every runner makes its calls from the swarm it finds, and in [plot] each
    runner finds the swarm the runner before it left. *)
Theorem swarm_created_once_and_handed_on :
  (forall (u : np.stream) (k : N),
     let sw := swarm (import_module u k) in
     particles_velocity sw = np.zeros2 num_particles num_dimensions /\
     personal_best sw = particles_position sw /\
     length (particles_position sw) = num_particles /\
     Forall (fun row => length row = num_dimensions /\
                        Forall (fun x => exists j, x = -600 + (600 - -600) * u j) row)
       (particles_position sw)) /\
  (forall (v : Variant) (u : np.stream) (run : nat) (f : np.vec -> float)
          (st st' : Store) (m : np.matrix),
     run_variant v u run f st = Some (m, st') ->
     particles_position (variant_start v (swarm st)) = particles_position (swarm st) /\
     particles_velocity (variant_start v (swarm st)) = particles_velocity (swarm st) /\
     personal_best (variant_start v (swarm st)) = personal_best (swarm st) /\
     exists vals,
       collect u (variant_factor v u (swarm st)) f (seq 0 num_iterations) []
         (variant_start v (swarm st)) = Some (vals, swarm st')) /\
  (forall (u : np.stream) (f : np.vec -> float) (run : nat)
          (cv cv' : Plotting.Curves) (st st4 : Store),
     Plotting.plot_run u f run (cv, st) = Some (cv', st4) ->
     exists m1 st1 m2 st2 m3 st3 m4,
       CPSOAlgorithm u run f st = Some (m1, st1) /\
       SPSOAlgorithm u run f st1 = Some (m2, st2) /\
       HCLPSOAlgorithm u run f st2 = Some (m3, st3) /\
       EPSOAlgorithm u run f st3 = Some (m4, st4)) /\
  (forall (u : np.stream) (f : np.vec -> float) (run : nat) (rest : list nat)
          (acc : Plotting.Curves * Store),
     Plotting.plot_runs u f (run :: rest) acc =
       (acc' <- Plotting.plot_run u f run acc ;; Plotting.plot_runs u f rest acc')).
Proof.
  split; [|split; [|split]].
  - intros u k. unfold import_module.
    assert (Hu : forall n k0,
      length (fst (uniform2 u k0 (-600) 600 n num_dimensions)) = n /\
      Forall (fun row => length row = num_dimensions /\
                Forall (fun x => exists j, x = -600 + (600 - -600) * u j) row)
        (fst (uniform2 u k0 (-600) 600 n num_dimensions))).
    { induction n as [|n IH]; intros k0; simpl; [split; [reflexivity|constructor]|].
      specialize (IH (k0 + N.of_nat num_dimensions)%N).
      destruct (uniform2 u _ (-600) 600 n num_dimensions) as [m k2]. simpl in *.
      destruct IH as [Hl Hf]. split; [congruence|]. constructor; [|exact Hf].
      split; [now rewrite length_map, draws_length|].
      apply Forall_map. unfold np.draws. apply Forall_map.
      apply Forall_forall. intros j _. eexists. reflexivity. }
    specialize (Hu num_particles k).
    destruct (uniform2 u k (-600) 600 num_particles num_dimensions) as [pos k'].
    simpl in *. destruct Hu as [Hl Hf]. repeat split; assumption.
  - intros v u run f st st' m Hr. apply runner_collect in Hr.
    destruct Hr as [vals [Hc _]]. repeat split; try (destruct v; reflexivity). eauto.
  - intros u f run cv cv' st st4. unfold Plotting.plot_run.
    destruct (CPSOAlgorithm u run f st) as [[m1 st1]|] eqn:E1; [|discriminate].
    destruct (np.column m1 run); [|discriminate].
    destruct (np.set_column _ run _); [|discriminate].
    destruct (SPSOAlgorithm u run f st1) as [[m2 st2]|] eqn:E2; [|discriminate].
    destruct (np.column m2 run); [|discriminate].
    destruct (np.set_column _ run _); [|discriminate].
    destruct (HCLPSOAlgorithm u run f st2) as [[m3 st3]|] eqn:E3; [|discriminate].
    destruct (np.column m3 run); [|discriminate].
    destruct (np.set_column _ run _); [|discriminate].
    destruct (EPSOAlgorithm u run f st3) as [[m4 st4']|] eqn:E4; [|discriminate].
    destruct (np.column m4 run); [|discriminate].
    destruct (np.set_column _ run _); [|discriminate].
    intros [= <- <-]. exists m1, st1, m2, st2, m3, st3, m4. auto.
  - reflexivity.
Qed.

End Variants.

(** ** The recorded costs *)

Section Recorded.

Local Open Scope float_scope.

(** C2, as the code has it: the costs [optimize] of the entropy optimizer
    records never rise, from a best cost that is a number (as it is in a new
    optimizer and after every call); the costs a variant runner records in
    column [run] never rise when no personal best costs NaN as the runner
    starts, and then none does as it ends; when a personal best costs NaN as
    the runner starts, the particle [np.argmin] selects costs NaN, every cost
    the runner records is NaN, so that with two iterations or more the
    recorded costs are not in order, and a personal best costs NaN as it
    ends. *)
Theorem best_cost_never_rises :
  (forall (M : Pyswarms.MathLib) (Hd : Pyswarms.Handlers) (u : np.stream)
          (f : np.vec -> float) (o : Pyswarms.Optimizer) (k : N) (iters : nat)
          (r : EntropyGbest.Result),
     is_nan (Pyswarms.best_cost (Pyswarms.swarm o)) = false ->
     EntropyGbest.optimize u o k f iters = Some r ->
     descending (Pyswarms.best_cost (Pyswarms.swarm o)) (EntropyGbest.history r) = true /\
     is_nan (Pyswarms.best_cost
               (Pyswarms.swarm (EntropyGbest.self (EntropyGbest.final r)))) = false) /\
  (forall (P : Params) (v : Variant) (u : np.stream) (run : nat) (f : np.vec -> float)
          (st st' : Algorithms.Store) (m : np.matrix),
     numeric f (Algorithms.swarm st) ->
     run_variant v u run f st = Some (m, st') ->
     numeric f (Algorithms.swarm st') /\
     forall col, np.column m run = Some col ->
       non_increasing (firstn num_iterations col) = true) /\
  (forall (P : Params) (v : Variant) (u : np.stream) (run : nat) (f : np.vec -> float)
          (st st' : Algorithms.Store) (m : np.matrix),
     Exists (fun p => is_nan (f p) = true)
       (Algorithms.personal_best (Algorithms.swarm st)) ->
     run_variant v u run f st = Some (m, st') ->
     (forall gb, Algorithms.select_global_best f (Algorithms.swarm st) = Some gb ->
        is_nan (f gb) = true) /\
     Exists (fun p => is_nan (f p) = true)
       (Algorithms.personal_best (Algorithms.swarm st')) /\
     forall col, np.column m run = Some col ->
       Forall (fun c => is_nan c = true) (firstn num_iterations col) /\
       ((2 <= num_iterations)%nat ->
        non_increasing (firstn num_iterations col) = false)).
Proof.
  split; [|split].
  - intros M Hd u f o k iters r. apply optimize_descending.
  - intros P v u run f st st' m. apply runner_non_increasing.
  - intros P v u run f st st' m. apply runner_nan.
Qed.

End Recorded.

(** ** The claims at the runs of the demonstration *)

Section AtDemo.

Import Instances.
Local Open Scope float_scope.
#[local] Existing Instance Study.study.

(** C1 on 201 iterations of the study's optimizer: iterations 0, 100 and
    200 recalibrate, and the coefficients it is left with are those of the
    study adjusted by the three entropies printed. *)
Lemma recalibration_at_multiples_of_100_that_run_on_demo :
  (completed (EntropyGbest.exit Demo.result) 201 <= 201)%nat /\
  map EntropyGbest.log_iter (EntropyGbest.info_log (EntropyGbest.final Demo.result)) =
    filter (fun i => (i mod 100 =? 0)%nat)
      (seq 0 (completed (EntropyGbest.exit Demo.result) 201)) /\
  length (EntropyGbest.stdout (EntropyGbest.final Demo.result)) =
    length (EntropyGbest.info_log (EntropyGbest.final Demo.result)) /\
  Pyswarms.self_options (EntropyGbest.self (EntropyGbest.final Demo.result)) =
    fold_left (fun opts R => fst (fst (EntropyGbest.adjust R opts)))
      (EntropyGbest.stdout (EntropyGbest.final Demo.result))
      (Pyswarms.self_options Demo.optimizer).
Proof.
  destruct (@recalibration_at_multiples_of_100_that_run_on dyadic nearest_unmodified lcg
              Sphere Demo.optimizer 400%N 201%nat Demo.result) as [H1 [H2 [H3 [H4 _]]]];
    [vm_compute; reflexivity|].
  exact (conj H1 (conj H2 (conj H3 H4))).
Defined.

(** C1 fails where the loop breaks at a multiple of 100.  With [ftol=1e-6]
    and [ftol_iter=100] on the zero objective, iteration 100 begins (its cost
    is the 101st recorded) and breaks the loop on the stop criterion before
    the controller is reached: of the iterations 0 and 100, whose index is
    divisible by 100, only iteration 0 has recalibrated. *)
Lemma iteration_100_breaks_before_recalibration :
  EntropyGbest.optimize lcg (fst Demo.patient) (snd Demo.patient) zero_objective 201 =
    Some Demo.stopped /\
  EntropyGbest.exit Demo.stopped = EntropyGbest.Converged 100 /\
  length (EntropyGbest.history Demo.stopped) = 101%nat /\
  EntropyGbest.recalibration_due 100 = true /\
  map EntropyGbest.log_iter (EntropyGbest.info_log (EntropyGbest.final Demo.stopped)) =
    [0%nat] /\
  EntropyGbest.stdout (EntropyGbest.final Demo.stopped) = [0].
Proof.
  split; [vm_compute; reflexivity|]. split; [vm_compute; reflexivity|].
  split; [vm_compute; reflexivity|]. split; [reflexivity|].
  split; vm_compute; reflexivity.
Qed.

(** C2 on the run of the study's optimizer, on [CPSOAlgorithm] with
    [Sphere], and on [CPSOAlgorithm] with [root], which is NaN at the third
    particle. *)
Lemma best_cost_never_rises_demo :
  (descending np.inf (EntropyGbest.history Demo.result) = true /\
   is_nan (Pyswarms.best_cost
             (Pyswarms.swarm (EntropyGbest.self (EntropyGbest.final Demo.result))))
     = false) /\
  (numeric Sphere (Algorithms.swarm (snd Study.after_CPSO)) /\
   non_increasing
     (firstn 2 (Demo.get [] (np.column (fst Study.after_CPSO) 0))) = true) /\
  (Forall (fun c => is_nan c = true)
     (firstn 2 (Demo.get [] (np.column (fst Study.after_CPSO_root) 0))) /\
   non_increasing
     (firstn 2 (Demo.get [] (np.column (fst Study.after_CPSO_root) 0))) = false).
Proof.
  split; [|split].
  - apply (proj1 best_cost_never_rises dyadic nearest_unmodified lcg Sphere
             Demo.optimizer 400%N 201%nat Demo.result);
      [reflexivity|vm_compute; reflexivity].
  - destruct (proj1 (proj2 best_cost_never_rises) Study.study CPSO lcg 0%nat Sphere
                Study.store (snd Study.after_CPSO) (fst Study.after_CPSO)) as [Hn Hc];
      [repeat constructor|vm_compute; reflexivity|].
    split; [exact Hn|]. apply Hc. vm_compute. reflexivity.
  - destruct (proj2 (proj2 best_cost_never_rises) Study.study CPSO lcg 0%nat Study.root
                Study.store (snd Study.after_CPSO_root) (fst Study.after_CPSO_root))
      as [_ [_ Hc]];
      [apply Exists_cons_tl, Exists_cons_tl, Exists_cons_hd; vm_compute; reflexivity
      |vm_compute; reflexivity|].
    destruct (Hc (Demo.get [] (np.column (fst Study.after_CPSO_root) 0))) as [Ha Hb];
      [vm_compute; reflexivity|].
    split; [exact Ha|]. apply Hb. apply Nat.leb_le. reflexivity.
Defined.

(** C2 fails where a personal best costs NaN: [CPSOAlgorithm] on the module
    as imported records NaN twice, and NaN is not [<=] NaN. *)
Lemma nan_cost_recorded :
  Algorithms.CPSOAlgorithm lcg 0 Study.root Study.store = Some Study.after_CPSO_root /\
  np.column (fst Study.after_CPSO_root) 0 = Some [nan; nan] /\
  non_increasing [nan; nan] = false /\
  Py.geb nan nan = false.
Proof. repeat split; vm_compute; reflexivity. Qed.

(** C3 fails: the third particle costs NaN, the first and second have
    finite costs, and the third is where the sweep starts and what the call
    returns. *)
Lemma nan_cost_selected :
  map Study.root (Algorithms.personal_best (Algorithms.swarm Study.store)) =
    [sqrt 300; sqrt 487.5; nan] /\
  is_finite (sqrt 300) = true /\ is_finite (sqrt 487.5) = true /\
  Algorithms.select_global_best Study.root (Algorithms.swarm Study.store) =
    Some [-18.75; -525] /\
  is_nan (Study.root [-18.75; -525]) = true /\
  option_map fst
    (Algorithms.compute_global_best lcg (Algorithms.Scalar 1) Study.root
       (Algorithms.swarm Study.store)) = Some [-18.75; -525].
Proof. repeat split; vm_compute; reflexivity. Qed.

(** C3 on the module as imported, with [Sphere] and with [root]. *)
Lemma selection_compares_costs_as_they_are_demo :
  ((Sphere [-393.75; 300] <? infinity) = true /\
   (Sphere (fst Study.after_call) <? infinity) = true) /\
  is_nan (Study.root [-18.75; -525]) = true.
Proof.
  split.
  - destruct (@selection_compares_costs_as_they_are Study.study lcg (Algorithms.Scalar 1)
                Sphere (Algorithms.swarm Study.store) [-393.75; 300]) as [Hfin _];
      [vm_compute; reflexivity|].
    destruct Hfin as [H1 H2];
      [repeat constructor|apply Exists_cons_hd; vm_compute; reflexivity|].
    split; [exact H1|].
    apply (H2 (fst Study.after_call) (snd Study.after_call)).
    vm_compute. reflexivity.
  - destruct (@selection_compares_costs_as_they_are Study.study lcg (Algorithms.Scalar 1)
                Study.root (Algorithms.swarm Study.store) [-18.75; -525]) as [_ Hnan];
      [vm_compute; reflexivity|].
    apply Hnan. apply Exists_cons_tl, Exists_cons_tl, Exists_cons_hd.
    vm_compute. reflexivity.
Defined.

(** C5 fails: after [CPSOAlgorithm], which is where [SPSOAlgorithm] starts
    in [plot], the velocities are not zero and the personal bests are not the
    positions. *)
Lemma swarm_carried_over :
  Algorithms.CPSOAlgorithm lcg 0 Sphere Study.store = Some Study.after_CPSO /\
  np.array_equal (Algorithms.particles_velocity (Algorithms.swarm (snd Study.after_CPSO)))
    (np.zeros2 3 2) = false /\
  np.array_equal (Algorithms.personal_best (Algorithms.swarm (snd Study.after_CPSO)))
    (Algorithms.particles_position (Algorithms.swarm (snd Study.after_CPSO))) = false /\
  np.array_equal (Algorithms.particles_position (Algorithms.swarm (snd Study.after_CPSO)))
    (Algorithms.particles_position (Algorithms.swarm Study.store)) = false.
Proof. repeat split; vm_compute; reflexivity. Qed.

(** C5 on [CPSOAlgorithm] with [Sphere] on the module as imported. *)
Lemma swarm_created_once_and_handed_on_demo :
  exists vals,
    Algorithms.collect lcg (variant_factor CPSO lcg (Algorithms.swarm Study.store)) Sphere
      (seq 0 2) [] (variant_start CPSO (Algorithms.swarm Study.store))
    = Some (vals, Algorithms.swarm (snd Study.after_CPSO)).
Proof.
  destruct (proj1 (proj2 (@swarm_created_once_and_handed_on Study.study)) CPSO lcg 0%nat
              Sphere Study.store (snd Study.after_CPSO) (fst Study.after_CPSO))
    as [_ [_ [_ Hc]]]; [vm_compute; reflexivity|exact Hc].
Defined.

(** C7 on the second particle of the first call on the module as
    imported. *)
Lemma velocity_and_position_update_demo :
  exists gb0 sw_i gb_i pb x v v' x',
    Algorithms.select_global_best Sphere (Algorithms.swarm Study.store) = Some gb0 /\
    Algorithms.sweep lcg (Algorithms.Scalar 1) Sphere (seq 0 1)
      (Algorithms.swarm Study.store, gb0) = Some (sw_i, gb_i) /\
    rows (Algorithms.swarm Study.store) 1 = (Some x, Some v, Some pb) /\
    nth_error (Algorithms.particles_velocity (snd Study.after_call)) 1 = Some v' /\
    nth_error (Algorithms.particles_position (snd Study.after_call)) 1 = Some x' /\
    updated lcg (Algorithms.Scalar 1)
      (Algorithms.cursor (Algorithms.swarm Study.store) + N.of_nat (2 * 2 * 1))%N
      pb x v gb_i v' x'.
Proof.
  apply (proj1 (@velocity_and_position_update Study.study) lcg (Algorithms.Scalar 1)
           Sphere (Algorithms.swarm Study.store) (snd Study.after_call)
           (fst Study.after_call) 1%nat);
    [vm_compute; reflexivity|apply Nat.ltb_lt; reflexivity].
Defined.

(** C10 on the study's optimizer and [Sphere]. *)
Lemma first_iteration_takes_low_entropy_branch_demo :
  (forall c, EntropyGbest.label (c - np.inf) = 0%nat) /\
  (exists st1 st2,
     EntropyGbest.observe Sphere 0 (EntropyGbest.enter Demo.optimizer 400) =
       Some (st1, false) /\
     EntropyGbest.control 0 st1 = Some st2 /\
     EntropyGbest.stdout st2 = [0] /\
     EntropyGbest.info_log st2 =
       [EntropyGbest.mkLog 3 0 (Py.max 0.1 (0.5 - 1)) (Py.max 0.1 (0.3 + 1))] /\
     Pyswarms.self_options (EntropyGbest.self st2) =
       Pyswarms.mkOptions (Py.max 0.1 (0.5 - 1)) (Py.max 0.1 (0.3 + 1)) 0.9 /\
     EntropyGbest.list_R st2 = []) /\
  (forall st3 stop,
     EntropyGbest.iteration lcg Sphere 0 (EntropyGbest.enter Demo.optimizer 400) =
       Some (st3, stop) ->
     stop = false /\
     Pyswarms.self_options (EntropyGbest.self st3) =
       Pyswarms.mkOptions (Py.max 0.1 (0.5 - 1)) (Py.max 0.1 (0.3 + 1)) 0.9 /\
     EntropyGbest.list_R st3 = []).
Proof.
  apply (@first_iteration_takes_low_entropy_branch dyadic nearest_unmodified lcg Sphere
           Demo.optimizer 400%N); [reflexivity|].
  repeat split; vm_compute; reflexivity.
Defined.

(** C6 on an optimizer of two dimensions within the bounds of the study. *)
Lemma constant_objective_stops_at_iteration_5_demo :
  exists r,
    EntropyGbest.optimize lcg (fst Demo.tolerant) 400 zero_objective 100 = Some r /\
    EntropyGbest.exit r = EntropyGbest.Converged 5 /\
    EntropyGbest.history r = [0; 0; 0; 0; 0; 0] /\
    EntropyGbest.ftol_history (EntropyGbest.final r) = [true; true; true; true; true] /\
    EntropyGbest.final_best_cost r = 0.
Proof.
  apply (@constant_objective_stops_at_iteration_5 dyadic nearest_unmodified lcg lcg
           0%N 400%N (snd Demo.tolerant) 150 2 Demo.options (Some (Gbest.lb, Gbest.ub))
           None 1 (fst Demo.tolerant) 100).
  - vm_compute. reflexivity.
  - split; reflexivity.
  - apply Nat.leb_le. reflexivity.
Defined.

End AtDemo.

(** * Further properties *)

(** ** Signs and equalities of IEEE-754 numbers *)

Module Sign.

Local Open Scope float_scope.

Lemma binary_round_aux_signed (prec emax : Z) (s : bool) (m e : Z) (l : location) :
  signed s (binary_round_aux prec emax s m e l).
Proof.
  unfold binary_round_aux.
  destruct (shr_fexp prec emax m e l) as [mrs' e'].
  destruct (shr_fexp prec emax _ e' loc_Exact) as [mrs'' e''].
  destruct (shr_m mrs''); simpl; auto.
  destruct (e'' <=? emax - prec)%Z; simpl; auto.
Qed.

Lemma binary_round_signed (prec emax : Z) (s : bool) (m : positive) (e : Z) :
  signed s (binary_round prec emax s m e).
Proof.
  unfold binary_round. destruct (shl_align m e _) as [mz ez].
  apply binary_round_aux_signed.
Qed.

(** [1 + |b|] is not negative. *)
Lemma one_plus_abs_signed (b : float) : signed false (Prim2SF (1 + abs b)).
Proof.
  rewrite add_spec, abs_spec.
  change (Prim2SF 1) with (S754_finite false 4503599627370496 (-52)).
  destruct (Prim2SF b) as [s|s| |s m e]; simpl; auto.
  unfold SF64add, SFadd. cbv zeta.
  unfold binary_normalize.
  destruct (shl_align 4503599627370496 (-52) _) as [m1 e1].
  destruct (shl_align m e _) as [m2 e2]. simpl.
  apply binary_round_signed.
Qed.

(** Nothing is below [-inf * (1 + |b|)]. *)
Lemma below_neg_infinity (d b : float) :
  (abs d <? neg_infinity * (1 + abs b)) = false.
Proof.
  rewrite ltb_spec, mul_spec, abs_spec.
  pose proof (one_plus_abs_signed b) as Hs.
  change (Prim2SF neg_infinity) with (S754_infinity true).
  destruct (Prim2SF (1 + abs b)) as [s|s| |s m e]; simpl in Hs; subst;
    destruct (Prim2SF d) as [s'|s'| |s' m' e']; reflexivity.
Qed.

Lemma eqb_of_leb (x y : float) :
  (x <=? y) = true -> (y <=? x) = true -> (x =? y) = true.
Proof.
  rewrite !leb_spec, eqb_spec. unfold SFleb, SFeqb.
  destruct (Prim2SF x) as [s|s| |s m e]; destruct (Prim2SF y) as [s'|s'| |s' m' e'];
    try destruct s; try destruct s'; simpl; try discriminate; try reflexivity;
    F64.cmp_cases.
Qed.


Lemma eqb_leb (x y : float) : (x =? y) = true -> (x <=? y) = true.
Proof.
  rewrite leb_spec, eqb_spec. unfold SFleb, SFeqb.
  destruct (SFcompare _ _) as [[]|]; congruence.
Qed.

Lemma eqb_refl (x : float) : is_nan x = false -> (x =? x) = true.
Proof.
  intros Hx. apply eqb_of_leb; now apply F64.leb_refl.
Qed.

Lemma leb_not_ltb (x y : float) : (y <=? x) = true -> (x <? y) = false.
Proof.
  rewrite leb_spec, ltb_spec. unfold SFleb, SFltb.
  destruct (Prim2SF x) as [s|s| |s m e]; destruct (Prim2SF y) as [s'|s'| |s' m' e'];
    try destruct s; try destruct s'; simpl; try discriminate; try reflexivity;
    F64.cmp_cases.
Qed.

Lemma zero_over_positive (s y : float) :
  (s =? 0) = true -> (0 <? y) = true -> (s / y <=? 0) = true.
Proof.
  rewrite eqb_spec, ltb_spec, leb_spec, div_spec.
  change (Prim2SF 0) with (S754_zero false).
  destruct (Prim2SF s) as [a|a| |a m e]; try destruct a; simpl; try discriminate;
    destruct (Prim2SF y) as [b|b| |b m' e']; try destruct b; simpl; try discriminate;
    reflexivity.
Qed.

End Sign.

(** ** Rows and cells *)

Module Rows.

Import ArrayFacts.

Lemma Forall_nth_error {A : Type} (P : A -> Prop) (l : list A) :
  (forall i x, nth_error l i = Some x -> P x) <-> Forall P l.
Proof.
  rewrite Forall_forall. split.
  - intros Hn x Hx. apply In_nth_error in Hx. destruct Hx as [i Hi]. eauto.
  - intros Hf i x Hi. apply Hf. eapply nth_error_In; eauto.
Qed.

Lemma set_nth_shape (n d i : nat) (v : list float) (m m' : list (list float)) :
  shape n d m -> length v = d -> np.set_nth i v m = Some m' -> shape n d m'.
Proof.
  intros [Hl Hf] Hv Hs. split.
  - rewrite (set_nth_length _ _ _ _ Hs). exact Hl.
  - eapply set_nth_Forall; eauto.
Qed.

Lemma shape_row (n d : nat) (m : list (list float)) (i : nat) (row : list float) :
  shape n d m -> nth_error m i = Some row -> length row = d.
Proof.
  intros [_ Hf] Hi. rewrite Forall_forall in Hf. apply Hf. eapply nth_error_In; eauto.
Qed.

Lemma shape_nth_some (n d : nat) (m : list (list float)) (i : nat) :
  shape n d m -> (i < n)%nat -> exists row, nth_error m i = Some row /\ length row = d.
Proof.
  intros Hs Hi. destruct (nth_error m i) as [row|] eqn:E.
  - exists row. split; [reflexivity|]. eapply shape_row; eauto.
  - apply nth_error_None in E. destruct Hs. lia.
Qed.

Lemma nth_error_ext {A : Type} (l l' : list A) :
  (forall i, nth_error l i = nth_error l' i) -> l = l'.
Proof.
  revert l'. induction l as [|x l IH]; intros [|y l'] He.
  - reflexivity.
  - specialize (He 0%nat). discriminate.
  - specialize (He 0%nat). discriminate.
  - pose proof (He 0%nat) as H0. simpl in H0. injection H0 as <-.
    f_equal. apply IH. intros i. exact (He (S i)).
Qed.

Lemma map_opt_nth {A B : Type} (g : A -> option B) (l : list A) :
  forall r i, np.map_opt g l = Some r ->
    nth_error r i = match nth_error l i with Some x => g x | None => None end.
Proof.
  induction l as [|x l IH]; intros r i; simpl.
  - intros [= <-]. destruct i; reflexivity.
  - destruct (g x) as [y|] eqn:Eg; [|discriminate].
    destruct (np.map_opt g l) as [r'|] eqn:Em; [|discriminate].
    intros [= <-]. destruct i as [|i]; simpl; [auto|]. now apply IH.
Qed.

Lemma map_opt_none {A B : Type} (g : A -> option B) (l : list A) (x : A) :
  In x l -> g x = None -> np.map_opt g l = None.
Proof.
  induction l as [|y l IH]; simpl; [tauto|].
  intros [->|Hin] Hx.
  - rewrite Hx. reflexivity.
  - destruct (g y); [|reflexivity]. rewrite (IH Hin Hx). reflexivity.
Qed.

Lemma last_cons (a d : float) (l : list float) : last (a :: l) d = last l a.
Proof.
  revert a d. induction l as [|b l IH]; intros a d; [reflexivity|].
  change (last (a :: b :: l) d) with (last (b :: l) d). rewrite (IH b d), (IH b a).
  reflexivity.
Qed.

Lemma last_nth (l : list float) (d : float) :
  l <> [] -> nth_error l (length l - 1) = Some (last l d).
Proof.
  induction l as [|x l IH]; [congruence|]. intros _.
  destruct l as [|y l]; [reflexivity|].
  change (last (x :: y :: l) d) with (last (y :: l) d).
  rewrite <- IH by discriminate. simpl. now rewrite Nat.sub_0_r.
Qed.

End Rows.

(** ** [np.min] *)

Module Least.

Local Open Scope float_scope.

Lemma min_fold_In (r : list float) :
  forall x, In (fold_left (fun m y => if (m <? y) || is_nan m then m else y) r x) (x :: r).
Proof.
  induction r as [|y r IH]; intros x; simpl; [auto|].
  destruct ((x <? y) || is_nan x).
  - destruct (IH x) as [E|E]; [left; exact E|right; right; exact E].
  - right. apply IH.
Qed.

Lemma min_In (a : list float) (m : float) : np.min a = Some m -> In m a.
Proof.
  destruct a as [|x r]; simpl; [discriminate|]. intros [= <-]. apply min_fold_In.
Qed.

Lemma min_fold_least (r : list float) :
  forall x, is_nan x = false -> Forall (fun y => is_nan y = false) r ->
    let m := fold_left (fun m y => if (m <? y) || is_nan m then m else y) r x in
    (m <=? x) = true /\ Forall (fun y => (m <=? y) = true) r.
Proof.
  induction r as [|y r IH]; intros x Hx Hr; simpl.
  - split; [now apply F64.leb_refl|constructor].
  - inversion Hr as [|? ? Hy Hr']; subst.
    rewrite Hx, orb_false_r. destruct (x <? y) eqn:E.
    + destruct (IH x Hx Hr') as [H1 H2]. split; [exact H1|].
      constructor; [|exact H2].
      eapply F64.leb_trans; [exact H1|]. now apply F64.ltb_leb.
    + destruct (IH y Hy Hr') as [H1 H2]. split.
      * eapply F64.leb_trans; [exact H1|]. now apply F64.leb_total.
      * constructor; assumption.
Qed.

Lemma min_least (a : list float) (m : float) :
  Forall (fun y => is_nan y = false) a -> np.min a = Some m ->
  Forall (fun y => (m <=? y) = true) a.
Proof.
  destruct a as [|x r]; simpl; [discriminate|].
  intros Ha [= <-]. inversion Ha as [|? ? Hx Hr]; subst.
  destruct (min_fold_least r x Hx Hr) as [L1 L2]. constructor; assumption.
Qed.

Lemma min_some (a : list float) : a <> [] -> exists m, np.min a = Some m.
Proof. destruct a; [congruence|]. simpl. eauto. Qed.

End Least.

(** ** The evaluation of the swarm *)

Module Cells.

Lemma zip_with_nth_error {A B C : Type} (op : A -> B -> C) (a : list A) :
  forall (b : list B) (r : list C) (i : nat),
    np.zip_with op a b = Some r ->
    nth_error r i =
      match nth_error a i, nth_error b i with
      | Some x, Some y => Some (op x y)
      | _, _ => None
      end.
Proof.
  induction a as [|x a IH]; intros [|y b] r i; simpl; try discriminate.
  - intros [= <-]. destruct i; reflexivity.
  - destruct (np.zip_with op a b) as [r'|] eqn:E; [|discriminate].
    intros [= <-]. destruct i as [|i]; simpl; [reflexivity|]. now apply IH.
Qed.

Lemma where_not_nth_error {A : Type} (mask : list bool) (a b r : list A) (i : nat) :
  np.where_not mask a b = Some r ->
  nth_error r i =
    match nth_error mask i, nth_error a i, nth_error b i with
    | Some m, Some x, Some y => Some (if m then y else x)
    | _, _, _ => None
    end.
Proof.
  unfold np.where_not. destruct (np.zip_with pair a b) as [ab|] eqn:E; [|discriminate].
  intros Hr. rewrite (zip_with_nth_error _ _ _ _ i Hr), (zip_with_nth_error _ _ _ _ i E).
  destruct (nth_error mask i) as [m|]; [|reflexivity].
  destruct (nth_error a i), (nth_error b i); try reflexivity.
  destruct m; reflexivity.
Qed.

End Cells.

Section Evaluation.

Import Pyswarms EntropyGbest Shape Cells Rows Sign.
Local Open Scope float_scope.

(** One particle in [compute_pbest]. *)
Lemma compute_pbest_nth (s : Swarm) (pp : list (list float)) (pc : list float) (i : nat) :
  compute_pbest s = Some (pp, pc) ->
  match nth_error pc i with
  | Some c' =>
      exists c p x q,
        nth_error (current_cost s) i = Some c /\ nth_error (pbest_cost s) i = Some p /\
        nth_error (position s) i = Some x /\ nth_error (pbest_pos s) i = Some q /\
        c' = (if c <? p then c else p) /\
        nth_error pp i = Some (if c <? p then x else q)
  | None => nth_error (current_cost s) i = None \/ nth_error (pbest_cost s) i = None
  end.
Proof.
  unfold compute_pbest.
  destruct (np.zip_with ltb _ _) as [mask|] eqn:Em; [|discriminate].
  destruct (np.where_not mask (pbest_pos s) _) as [pp'|] eqn:Ep; [|discriminate].
  destruct (np.where_not mask (pbest_cost s) _) as [pc'|] eqn:Ec; [|discriminate].
  intros [= <- <-].
  rewrite (where_not_nth_error _ _ _ _ i Ec), (where_not_nth_error _ _ _ _ i Ep),
    (zip_with_nth_error _ _ _ _ i Em).
  destruct (zip_with_length _ _ _ _ Em) as [L1 L2].
  unfold np.where_not in Ep.
  destruct (np.zip_with pair (pbest_pos s) _) as [ab|] eqn:Eab; [|discriminate].
  destruct (zip_with_length _ _ _ _ Eab) as [L3 L4].
  destruct (zip_with_length _ _ _ _ Ep) as [L5 L6].
  destruct (nth_error (current_cost s) i) as [c|] eqn:E1; [|now left].
  destruct (nth_error (pbest_cost s) i) as [p|] eqn:E2; [|now right].
  assert (Hi : (i < length (current_cost s))%nat) by (apply nth_error_Some; congruence).
  destruct (nth_error (pbest_pos s) i) as [q|] eqn:E3;
    [|apply nth_error_None in E3; lia].
  destruct (nth_error (position s) i) as [x|] eqn:E4;
    [|apply nth_error_None in E4; lia].
  exists c, p, x, q. repeat split; destruct (c <? p); reflexivity.
Qed.

Lemma compute_pbest_length (s : Swarm) (pp : list (list float)) (pc : list float) :
  compute_pbest s = Some (pp, pc) ->
  length (current_cost s) = length (pbest_cost s) /\
  length pc = length (pbest_cost s) /\ length pp = length (pbest_cost s).
Proof.
  unfold compute_pbest.
  destruct (np.zip_with ltb _ _) as [mask|] eqn:Em; [|discriminate].
  destruct (np.where_not mask (pbest_pos s) _) as [pp'|] eqn:Ep; [|discriminate].
  destruct (np.where_not mask (pbest_cost s) _) as [pc'|] eqn:Ec; [|discriminate].
  intros [= <- <-].
  destruct (zip_with_length _ _ _ _ Em) as [L1 L2].
  unfold np.where_not in Ep, Ec.
  destruct (np.zip_with pair (pbest_pos s) _) as [ab|]; [|discriminate].
  destruct (np.zip_with pair (pbest_cost s) _) as [cd|]; [|discriminate].
  destruct (zip_with_length _ _ _ _ Ep) as [L5 L6].
  destruct (zip_with_length _ _ _ _ Ec) as [L7 L8].
  lia.
Qed.

(** The two steps of [evaluate], read off its result. *)
Lemma evaluate_parts (f : list float -> float) (sw0 sw : Swarm) (b : float) :
  evaluate f sw0 = Some (sw, b) ->
  compute_pbest (mkSwarm (position sw0) (velocity sw0) (options sw0) (pbest_pos sw0)
                   (best_pos sw0) (pbest_cost sw0) (best_cost sw0)
                   (map f (position sw0))) = Some (pbest_pos sw, pbest_cost sw) /\
  exists m, np.min (pbest_cost sw) = Some m /\
    ((m <? best_cost sw0) = true /\ best_cost sw = m /\
     (exists idx, np.argmin (pbest_cost sw) = Some idx /\
                  nth_error (pbest_pos sw) idx = Some (best_pos sw))
     \/
     (m <? best_cost sw0) = false /\ best_cost sw = best_cost sw0 /\
     best_pos sw = best_pos sw0).
Proof.
  unfold evaluate. destruct (compute_pbest _) as [[pp pc]|]; [|discriminate].
  unfold compute_gbest. simpl.
  destruct (np.min pc) as [m|] eqn:Emin; [|discriminate].
  destruct (m <? best_cost sw0) eqn:E.
  - destruct (np.argmin pc) as [idx|] eqn:Ea; [|discriminate].
    destruct (nth_error pp idx) as [row|] eqn:Er; [|discriminate].
    intros [= <- <-]. simpl. split; [reflexivity|].
    exists m. split; [exact Emin|]. left. split; [exact E|]. split; [reflexivity|].
    exists idx. auto.
  - intros [= <- <-]. simpl. split; [reflexivity|].
    exists m. split; [exact Emin|]. right. auto.
Qed.

(** One particle in [evaluate]. *)
Lemma evaluate_nth (f : list float -> float) (sw0 sw : Swarm) (b : float) (i : nat)
  (p : float) :
  evaluate f sw0 = Some (sw, b) ->
  nth_error (pbest_cost sw0) i = Some p ->
  exists x q,
    nth_error (position sw0) i = Some x /\ nth_error (pbest_pos sw0) i = Some q /\
    nth_error (pbest_cost sw) i = Some (if f x <? p then f x else p) /\
    nth_error (pbest_pos sw) i = Some (if f x <? p then x else q).
Proof.
  intros He Hp. destruct (evaluate_parts _ _ _ _ He) as [Hpb _].
  pose proof (compute_pbest_nth _ _ _ i Hpb) as Hn.
  destruct (compute_pbest_length _ _ _ Hpb) as [L1 [L2 L3]]. simpl in *.
  assert (Hi : (i < length (pbest_cost sw0))%nat) by (apply nth_error_Some; congruence).
  destruct (nth_error (pbest_cost sw) i) as [c'|] eqn:Ec;
    [|apply nth_error_None in Ec; lia].
  destruct Hn as [c [p' [x [q [H1 [H2 [H3 [H4 [H5 H6]]]]]]]]].
  rewrite Hp in H2. injection H2 as <-.
  rewrite nth_error_map, H3 in H1. simpl in H1. injection H1 as <-.
  exists x, q. subst c'. auto.
Qed.

Lemma evaluate_length (f : list float -> float) (sw0 sw : Swarm) (b : float) :
  evaluate f sw0 = Some (sw, b) ->
  length (position sw0) = length (pbest_cost sw0) /\
  length (pbest_cost sw) = length (pbest_cost sw0) /\
  length (pbest_pos sw) = length (pbest_cost sw0).
Proof.
  intros He. destruct (evaluate_parts _ _ _ _ He) as [Hpb _].
  destruct (compute_pbest_length _ _ _ Hpb) as [L1 [L2 L3]]. simpl in *.
  rewrite length_map in L1. auto.
Qed.

(** [evaluate] keeps the costs sound, and leaves the best cost at most the
    cost of each particle where that is a number. *)
Lemma evaluate_sound (f : list float -> float) (sw0 sw : Swarm) (b : float) :
  sound sw0 -> evaluate f sw0 = Some (sw, b) ->
  sound sw /\
  Forall (fun x => is_nan (f x) = true \/ (best_cost sw <=? f x) = true) (position sw0).
Proof.
  intros [P1 [P2 P3]] He.
  destruct (evaluate_length _ _ _ _ He) as [L1 [L2 L3]].
  assert (Q1 : Forall (fun c => is_nan c = false) (pbest_cost sw)).
  { apply Forall_nth_error. intros i c' Hc.
    assert (Hi : (i < length (pbest_cost sw0))%nat).
    { rewrite <- L2. apply nth_error_Some. congruence. }
    destruct (nth_error (pbest_cost sw0) i) as [p|] eqn:Ep;
      [|apply nth_error_None in Ep; lia].
    destruct (evaluate_nth _ _ _ _ i p He Ep) as [x [q [_ [_ [Hc' _]]]]].
    rewrite Hc in Hc'. injection Hc' as ->.
    destruct (f x <? p) eqn:E.
    - now apply F64.ltb_not_nan in E.
    - eapply Forall_nth_error in P1; eauto. }
  destruct (evaluate_parts _ _ _ _ He) as [_ [m [Hm Hg]]].
  pose proof (Least.min_In _ _ Hm) as Hin.
  pose proof (Least.min_least _ _ Q1 Hm) as Hle.
  assert (Hmn : is_nan m = false) by (rewrite Forall_forall in Q1; auto).
  assert (S : sound sw).
  { unfold sound. destruct Hg as [[Hlt [Hb _]]|[Hlt [Hb _]]]; rewrite Hb.
    - repeat split; assumption.
    - repeat split; try assumption.
      eapply Forall_impl; [|exact Hle]. intros c Hc. simpl in Hc.
      eapply F64.leb_trans; [|exact Hc]. now apply F64.leb_total. }
  split; [exact S|].
  apply Forall_nth_error. intros i x Hx.
  destruct (is_nan (f x)) eqn:En; [now left|right].
  assert (Hi : (i < length (pbest_cost sw0))%nat).
  { rewrite <- L1. apply nth_error_Some. congruence. }
  destruct (nth_error (pbest_cost sw0) i) as [p|] eqn:Ep;
    [|apply nth_error_None in Ep; lia].
  destruct (evaluate_nth _ _ _ _ i p He Ep) as [x' [q [Hx' [_ [Hc' _]]]]].
  rewrite Hx in Hx'. injection Hx' as <-.
  destruct S as [_ [_ S3]].
  eapply Forall_nth_error in S3; [|exact Hc'].
  eapply F64.leb_trans; [exact S3|].
  destruct (f x <? p) eqn:E.
  - now apply F64.leb_refl.
  - apply F64.leb_total; auto. eapply Forall_nth_error in P1; eauto.
Qed.

(** [evaluate] keeps the costs tracked. *)
Lemma evaluate_tracked (f : list float -> float) (sw0 sw : Swarm) (b : float) :
  sound sw0 -> tracked f sw0 -> evaluate f sw0 = Some (sw, b) -> tracked f sw.
Proof.
  intros S0 [T1 T2] He.
  destruct (evaluate_sound _ _ _ _ S0 He) as [[Q1 [Q2 Q3]] _].
  destruct S0 as [P1 [P2 P3]].
  destruct (evaluate_length _ _ _ _ He) as [L1 [L2 L3]].
  split.
  - intros i c' Hc.
    assert (Hi : (i < length (pbest_cost sw0))%nat).
    { rewrite <- L2. apply nth_error_Some. congruence. }
    destruct (nth_error (pbest_cost sw0) i) as [p|] eqn:Ep;
      [|apply nth_error_None in Ep; lia].
    destruct (evaluate_nth _ _ _ _ i p He Ep) as [x [q [Hx [Hq [Hc' Hp']]]]].
    rewrite Hc in Hc'. injection Hc' as ->.
    destruct (f x <? p).
    + right. exists x. auto.
    + destruct (T1 i p Ep) as [->|[pp [Hpp ->]]]; [now left|].
      right. exists q. rewrite Hq in Hpp. injection Hpp as ->. auto.
  - destruct (evaluate_parts _ _ _ _ He) as [_ [m [Hm Hg]]].
    pose proof (Least.min_In _ _ Hm) as Hin.
    destruct Hg as [[Hlt [Hb _]]|[Hlt [Hb _]]].
    + right. exists m. split; [exact Hin|]. rewrite Hb. apply eqb_refl.
      rewrite Forall_forall in Q1. auto.
    + destruct T2 as [Hinf|[c [Hc Hceq]]]; [left; congruence|].
      right. apply In_nth_error in Hc. destruct Hc as [j Hj].
      destruct (evaluate_nth _ _ _ _ j c He Hj) as [x [q [_ [_ [Hc' _]]]]].
      eexists. split; [eapply nth_error_In; exact Hc'|].
      rewrite Hb. apply eqb_of_leb.
      * eapply F64.leb_trans; [|apply eqb_leb; exact Hceq].
        destruct (f x <? c) eqn:E; [now apply F64.ltb_leb|].
        apply F64.leb_refl. eapply Forall_nth_error in P1; eauto.
      * rewrite <- Hb. eapply Forall_nth_error in Q3; eauto.
Qed.

End Evaluation.

(** ** What a run of the entropy optimizer keeps *)

Section Runs.

Import Pyswarms EntropyGbest Shape Cells Rows Sign.
Local Open Scope float_scope.
Context `{MathLib} `{Handlers}.

(** The body of the loop, read off its result. *)
Lemma iteration_inv (u : np.stream) (f : list float -> float) (i : nat)
  (st st' : Run) (stop : bool) :
  iteration u f i st = Some (st', stop) ->
  exists st1,
    observe f i st = Some (st1, stop) /\
    (if stop then st' = st1
     else exists st2, control i st1 = Some st2 /\ move u st2 = Some st') /\
    config (self st') = config (self st) /\
    bests (swarm (self st')) = bests (swarm (self st1)) /\
    cost_history st' = cost_history st1 /\
    ftol_history st' = ftol_history st1.
Proof.
  unfold iteration.
  destruct (observe f i st) as [[st1 b]|] eqn:Eo; [|discriminate].
  destruct (observe_inv _ _ _ _ _ Eo) as [Hc _].
  destruct b.
  - intros [= <- <-]. exists st1. repeat split; auto.
  - destruct (control i st1) as [st2|] eqn:Ec; [|discriminate].
    destruct (move u st2) as [st3|] eqn:Em; [|discriminate].
    intros [= <- <-]. exists st1.
    destruct (control_inv _ _ _ Ec) as [C1 [C2 [_ [_ [_ [_ [_ [C3 [C4 _]]]]]]]]].
    destruct (move_inv _ _ _ Em) as [M1 [_ [M2 [_ [_ [_ [M3 [_ [M4 _]]]]]]]]].
    repeat split; try congruence. exists st2. auto.
Qed.

Lemma sound_bests (sw sw' : Swarm) : bests sw' = bests sw -> sound sw -> sound sw'.
Proof. unfold bests, sound. intros [= _ _ -> ->]. auto. Qed.

Lemma tracked_bests (f : list float -> float) (sw sw' : Swarm) :
  bests sw' = bests sw -> tracked f sw -> tracked f sw'.
Proof. unfold bests, tracked. intros [= -> _ -> ->]. auto. Qed.

Lemma iteration_sound (u : np.stream) (f : list float -> float) (i : nat)
  (st st' : Run) (stop : bool) :
  sound (swarm (self st)) ->
  iteration u f i st = Some (st', stop) ->
  sound (swarm (self st')) /\
  (tracked f (swarm (self st)) -> tracked f (swarm (self st'))) /\
  Forall (fun x => is_nan (f x) = true \/ (best_cost (swarm (self st')) <=? f x) = true)
    (position (swarm (self st))).
Proof.
  intros S Hi. destruct (iteration_inv _ _ _ _ _ _ Hi) as [st1 [Ho [_ [_ [Hb _]]]]].
  destruct (observe_inv _ _ _ _ _ Ho) as [_ [_ [_ [_ [_ [_ [_ [_ [He _]]]]]]]]].
  destruct (evaluate_sound _ _ _ _ S He) as [S1 Hle].
  split; [eapply sound_bests; eauto|]. split.
  - intros T. eapply tracked_bests; [exact Hb|]. exact (evaluate_tracked _ _ _ _ S T He).
  - assert (E : best_cost (swarm (self st')) = best_cost (swarm (self st1))).
    { unfold bests in Hb. now injection Hb. }
    rewrite E. exact Hle.
Qed.

Lemma loop_sound (u : np.stream) (f : list float -> float) (range : list nat) :
  forall st st' e,
    sound (swarm (self st)) ->
    loop u f range st = Some (st', e) ->
    sound (swarm (self st')) /\
    (tracked f (swarm (self st)) -> tracked f (swarm (self st'))) /\
    (best_cost (swarm (self st')) <=? best_cost (swarm (self st))) = true.
Proof.
  induction range as [|i rest IH]; intros st st' e S; simpl.
  - intros [= <- <-]. split; [exact S|]. split; [auto|].
    apply F64.leb_refl. apply S.
  - destruct (iteration u f i st) as [[st1 stop]|] eqn:Ei; [|discriminate].
    destruct (iteration_sound _ _ _ _ _ _ S Ei) as [S1 [T1 _]].
    destruct (iteration_best _ _ _ _ _ _ Ei) as [_ Hb].
    destruct (step_down _ _ (proj1 (proj2 S)) Hb) as [Hge _]. unfold Py.geb in Hge.
    destruct stop.
    + intros [= <- <-]. split; [exact S1|]. split; [exact T1|exact Hge].
    + intros Hl. destruct (IH _ _ _ S1 Hl) as [S' [T' Hle]].
      split; [exact S'|]. split; [auto|]. eapply F64.leb_trans; eauto.
Qed.

Lemma loop_app (u : np.stream) (f : list float -> float) (r1 r2 : list nat) :
  forall st st1,
    loop u f r1 st = Some (st1, MaxIterReached) ->
    loop u f (r1 ++ r2) st = loop u f r2 st1.
Proof.
  induction r1 as [|i r1 IH]; intros st st1; simpl.
  - intros [= <-]. reflexivity.
  - destruct (iteration u f i st) as [[st' stop]|]; [|discriminate].
    destruct stop; [discriminate|]. apply IH.
Qed.

Lemma enter_sound (o : Optimizer) (k : N) :
  is_nan (best_cost (swarm o)) = false -> sound (swarm (self (enter o k))).
Proof.
  intros Hn. unfold sound, enter, np.full. simpl. repeat split; auto.
  - apply Forall_forall. intros c Hc. apply repeat_spec in Hc. subst. reflexivity.
  - apply Forall_forall. intros c Hc. apply repeat_spec in Hc. subst.
    rewrite leb_spec. change (Prim2SF np.inf) with (S754_infinity false).
    rewrite F64.is_nan_spec in Hn.
    destruct (Prim2SF (best_cost (swarm o))) as [s|s| |s m e];
      try destruct s; try reflexivity; discriminate.
Qed.

Lemma enter_tracked (f : list float -> float) (o : Optimizer) (k : N) :
  best_cost (swarm o) = np.inf -> tracked f (swarm (self (enter o k))).
Proof.
  intros Hb. unfold tracked, enter, np.full. simpl. split; [|now left].
  intros i pc Hi. left. apply nth_error_In, repeat_spec in Hi. exact Hi.
Qed.

End Runs.

(** ** The result of [optimize] *)

Section Results.

Import Pyswarms EntropyGbest Shape Cells ArrayFacts Rows Sign.
Local Open Scope float_scope.
Context `{MathLib} `{Handlers}.

Lemma optimize_inv (u : np.stream) (o : Optimizer) (k : N) (f : list float -> float)
  (iters : nat) (r : Result) :
  optimize u o k f iters = Some r ->
  loop u f (seq 0 iters) (enter o k) = Some (final r, exit r) /\
  final_best_cost r = best_cost (swarm (self (final r))) /\
  history r = cost_history (final r) /\
  exists idx, np.argmin (pbest_cost (swarm (self (final r)))) = Some idx /\
              nth_error (pbest_pos (swarm (self (final r)))) idx = Some (final_best_pos r).
Proof.
  unfold optimize.
  destruct (loop u f (seq 0 iters) (enter o k)) as [[st e]|] eqn:El; [|discriminate].
  destruct (copy_best_cost _) as [cost|] eqn:Ec; [|discriminate].
  destruct (np.argmin _) as [idx|] eqn:Ea; [|discriminate].
  destruct (nth_error _ idx) as [pos|] eqn:Ep; [|discriminate].
  intros [= <-]. simpl. apply copy_best_cost_inv in Ec. destruct Ec as [-> _].
  repeat split. exists idx. auto.
Qed.

(** X3: The best cost [optimize] returns is at most the cost of every position
    the swarm held as an iteration began, where that cost is a number. *)
Theorem best_cost_bounds_evaluated_costs
  (u : np.stream) (f : np.vec -> float) (o : Optimizer) (k : N) (iters : nat) (r : Result)
  (j : nat) (stj : Run) :
  is_nan (best_cost (swarm o)) = false ->
  optimize u o k f iters = Some r ->
  (j < iters)%nat ->
  loop u f (seq 0 j) (enter o k) = Some (stj, MaxIterReached) ->
  Forall (fun x => is_nan (f x) = true \/ (final_best_cost r <=? f x) = true)
    (position (swarm (self stj))).
Proof.
  intros Hn Ho Hj Hp. destruct (optimize_inv _ _ _ _ _ _ Ho) as [Hl [Hb _]].
  replace iters with (j + S (iters - S j))%nat in Hl by lia.
  rewrite seq_app, (loop_app _ _ _ _ _ _ Hp) in Hl. simpl in Hl.
  destruct (loop_sound _ _ _ _ _ _ (enter_sound o k Hn) Hp) as [Sj _].
  destruct (iteration u f j stj) as [[st1 stop]|] eqn:Ei; [|discriminate].
  destruct (iteration_sound _ _ _ _ _ _ Sj Ei) as [S1 [_ Hle]].
  assert (Hfin : (best_cost (swarm (self (final r))) <=? best_cost (swarm (self st1))) = true).
  { destruct stop.
    - injection Hl as <- _. apply F64.leb_refl. apply S1.
    - now destruct (loop_sound _ _ _ _ _ _ S1 Hl) as [_ [_ Hd]]. }
  rewrite Hb. eapply Forall_impl; [|exact Hle].
  intros x [Hx|Hx]; [now left|right]. eapply F64.leb_trans; eauto.
Qed.

(** X4: On a new optimizer, the cost [optimize] returns is the objective at the
    position it returns, once some cost was below [inf]. *)
Theorem returned_cost_is_cost_of_returned_position
  (u : np.stream) (f : np.vec -> float) (o : Optimizer) (k : N) (iters : nat) (r : Result) :
  best_cost (swarm o) = np.inf ->
  optimize u o k f iters = Some r ->
  (final_best_cost r <? np.inf) = true ->
  (final_best_cost r =? f (final_best_pos r)) = true.
Proof.
  intros Hinf Ho Hlt. destruct (optimize_inv _ _ _ _ _ _ Ho) as [Hl [Hb [_ [idx [Ha Hp]]]]].
  assert (Hn : is_nan (best_cost (swarm o)) = false) by (rewrite Hinf; reflexivity).
  destruct (loop_sound _ _ _ _ _ _ (enter_sound o k Hn) Hl) as [[S1 [S2 S3]] [T _]].
  destruct (T (enter_tracked f o k Hinf)) as [T1 T2].
  rewrite Hb in *.
  destruct (argmin_least _ _ S1 Ha) as [v [Hv Hle]].
  destruct T2 as [E|[c [Hc Hceq]]].
  { rewrite E in Hlt. discriminate Hlt. }
  assert (Hvb : (v <=? best_cost (swarm (self (final r)))) = true).
  { eapply F64.leb_trans; [|apply eqb_leb; exact Hceq].
    rewrite Forall_forall in Hle. auto. }
  assert (Hbv : (best_cost (swarm (self (final r))) <=? v) = true).
  { eapply Forall_nth_error in S3; eauto. }
  destruct (T1 idx v Hv) as [E|[pp [Hpp E]]].
  - subst v. pose proof (F64.leb_ltb_trans _ _ _ Hvb Hlt) as C. discriminate C.
  - rewrite Hp in Hpp. injection Hpp as <-. subst v. now apply eqb_of_leb.
Qed.

Lemma descending_Forall (l : list float) :
  forall b, descending b l = true -> Forall (fun c => (c <=? b) = true) l.
Proof.
  induction l as [|x l IH]; intros b; simpl; [constructor|].
  unfold Py.geb. intros Hd. apply andb_true_iff in Hd. destruct Hd as [Hx Hl].
  constructor; [exact Hx|].
  eapply Forall_impl; [|exact (IH _ Hl)]. intros c Hc. simpl in Hc.
  eapply F64.leb_trans; eauto.
Qed.

(** X5: A later call of [optimize] on the same optimizer starts from the best
    cost the earlier call left: no cost it records is above it, whatever the
    objective of the later call. *)
Theorem later_call_keeps_best_cost
  (u u' : np.stream) (f g : np.vec -> float) (o : Optimizer) (k k' : N)
  (iters iters' : nat) (r r' : Result) :
  is_nan (best_cost (swarm o)) = false ->
  optimize u o k f iters = Some r ->
  optimize u' (self (final r)) k' g iters' = Some r' ->
  Forall (fun c => (c <=? final_best_cost r) = true) (history r') /\
  (final_best_cost r' <=? final_best_cost r) = true.
Proof.
  intros Hn Ho Ho'.
  destruct (optimize_descending _ _ _ _ _ _ Hn Ho) as [_ Hn1].
  destruct (optimize_descending _ _ _ _ _ _ Hn1 Ho') as [Hd _].
  destruct (optimize_inv _ _ _ _ _ _ Ho) as [_ [Hb _]].
  destruct (optimize_inv _ _ _ _ _ _ Ho') as [Hl' [Hb' _]].
  rewrite Hb, Hb'. split; [now apply descending_Forall|].
  assert (Hs : sound (swarm (self (enter (self (final r)) k')))) by now apply enter_sound.
  now destruct (loop_sound _ _ _ _ _ _ Hs Hl') as [_ [_ Hle]].
Qed.

End Results.

(** ** When the loop stops *)

Section Stopping.

Import Pyswarms EntropyGbest Shape Cells ArrayFacts Rows Sign.
Local Open Scope float_scope.
Context `{MathLib} `{Handlers}.

Lemma deque_append_length (maxlen : nat) (d : list bool) (x : bool) :
  (length d <= maxlen)%nat ->
  length (Py.deque_append maxlen d x) = Nat.min (S (length d)) maxlen.
Proof.
  intros Hd. unfold Py.deque_append. rewrite length_app. change (length [x]) with 1%nat.
  destruct (Nat.ltb_spec maxlen (length d + 1)).
  - destruct d as [|a d]; cbn [app tl length] in *; [lia|].
    rewrite length_app. cbn [length]. lia.
  - rewrite length_app. cbn [length]. lia.
Qed.

Lemma deque_append_false (maxlen : nat) (d : list bool) :
  (1 <= maxlen)%nat -> Py.all (Py.deque_append maxlen d false) = false.
Proof.
  intros Hm. unfold Py.deque_append, Py.all. rewrite length_app. simpl.
  destruct (Nat.ltb_spec maxlen (length d + 1)).
  - destruct d as [|a d]; simpl in *; [lia|].
    rewrite forallb_app. simpl. apply andb_false_r.
  - rewrite forallb_app. simpl. apply andb_false_r.
Qed.

(** What one pass of the loop does to the two histories. *)
Lemma iteration_histories (u : np.stream) (f : list float -> float) (i : nat)
  (st st' : Run) (stop : bool) :
  iteration u f i st = Some (st', stop) ->
  config (self st') = config (self st) /\
  length (cost_history st') = S (length (cost_history st)) /\
  (ftol_history st', stop) =
    stop_criterion (ftol (self st)) (ftol_iter (self st)) i (ftol_history st)
      (best_cost (swarm (self st'))) (best_cost (swarm (self st))).
Proof.
  intros Hi. destruct (iteration_inv _ _ _ _ _ _ Hi) as [st1 [Ho [_ [Hc [Hb [Ech Ef]]]]]].
  destruct (observe_inv _ _ _ _ _ Ho) as [_ [_ [_ [_ [_ [_ [_ [Ec1 [_ Es]]]]]]]]].
  split; [exact Hc|]. split.
  - rewrite Ech, Ec1, length_app. simpl. lia.
  - rewrite Ef. unfold bests in Hb. injection Hb as _ _ _ Hb. rewrite Hb. exact Es.
Qed.

Lemma stop_criterion_inv (ftol : float) (F i : nat) (h h' : list bool) (b b0 : float)
  (stop : bool) :
  (h', stop) = stop_criterion ftol F i h b b0 ->
  h' = Py.deque_append F h (abs (b - b0) <? ftol * (1 + abs b0)) /\
  stop = (if (i <? F)%nat then false else Py.all h').
Proof.
  unfold stop_criterion. destruct (i <? F)%nat; intros [= -> ->]; auto.
Qed.

Lemma loop_histories (u : np.stream) (f : list float -> float) (n : nat) :
  forall a st st' e,
    length (ftol_history st) = Nat.min a (ftol_iter (self st)) ->
    loop u f (seq a n) st = Some (st', e) ->
    config (self st') = config (self st) /\
    match e with
    | Converged i =>
        (a <= i < a + n)%nat /\ (ftol_iter (self st) <= i)%nat /\
        length (cost_history st') = (length (cost_history st) + (i + 1 - a))%nat /\
        length (ftol_history st') = ftol_iter (self st) /\
        Py.all (ftol_history st') = true
    | MaxIterReached =>
        length (cost_history st') = (length (cost_history st) + n)%nat
    end.
Proof.
  induction n as [|n IH]; intros a st st' e Hh; simpl.
  - intros [= <- <-]. split; [reflexivity|lia].
  - destruct (iteration u f a st) as [[st1 stop]|] eqn:Ei; [|discriminate].
    destruct (iteration_histories _ _ _ _ _ _ Ei) as [Hc [Hl Hs]].
    apply stop_criterion_inv in Hs. destruct Hs as [Hh1 Hstop].
    assert (HF : ftol_iter (self st1) = ftol_iter (self st)).
    { unfold config in Hc. now injection Hc. }
    assert (Hlen : length (ftol_history st1) = Nat.min (S a) (ftol_iter (self st))).
    { rewrite Hh1, deque_append_length; rewrite Hh; lia. }
    destruct stop.
    + intros [= <- <-]. split; [exact Hc|].
      destruct (Nat.ltb_spec a (ftol_iter (self st))); [discriminate|].
      repeat split; try lia. symmetry. exact Hstop.
    + intros Hloop. rewrite <- HF in Hlen.
      destruct (IH _ _ _ _ Hlen Hloop) as [Hc' He].
      split; [congruence|]. rewrite HF in He.
      destruct e; [|lia]. repeat split; try lia; apply He.
Qed.

Lemma optimize_histories (u : np.stream) (o : Optimizer) (k : N) (f : list float -> float)
  (iters : nat) (r : Result) :
  optimize u o k f iters = Some r ->
  config (self (final r)) = config o /\
  match exit r with
  | Converged i =>
      (ftol_iter o <= i < iters)%nat /\ length (history r) = S i /\
      length (ftol_history (final r)) = ftol_iter o /\
      Py.all (ftol_history (final r)) = true
  | MaxIterReached => length (history r) = iters
  end.
Proof.
  intros Ho. destruct (optimize_inv _ _ _ _ _ _ Ho) as [Hl [_ [Hh _]]].
  apply loop_histories in Hl; [|reflexivity]. destruct Hl as [Hc He].
  split; [exact Hc|]. rewrite Hh. simpl in He.
  destruct (exit r); [|exact He]. repeat split; try lia; apply He.
Qed.

(** X7: [optimize] records one cost for each iteration it begins; it stops early
    at iteration [i] only from [i = ftol_iter] on, and only when each of the
    last [ftol_iter] changes of the best cost was within the tolerance. *)
Theorem stops_only_after_ftol_iter
  (u : np.stream) (f : np.vec -> float) (o : Optimizer) (k : N) (iters : nat) (r : Result) :
  optimize u o k f iters = Some r ->
  match exit r with
  | Converged i =>
      (ftol_iter o <= i < iters)%nat /\ length (history r) = S i /\
      length (ftol_history (final r)) = ftol_iter o /\
      Py.all (ftol_history (final r)) = true
  | MaxIterReached => length (history r) = iters
  end.
Proof. intros Ho. now destruct (optimize_histories _ _ _ _ _ _ Ho). Qed.

Lemma loop_never_stops (u : np.stream) (f : list float -> float) (range : list nat) :
  forall st st' e,
    ftol (self st) = neg_infinity -> (1 <= ftol_iter (self st))%nat ->
    loop u f range st = Some (st', e) -> e = MaxIterReached.
Proof.
  induction range as [|i rest IH]; intros st st' e Hf HF; simpl.
  - now intros [= <- <-].
  - destruct (iteration u f i st) as [[st1 stop]|] eqn:Ei; [|discriminate].
    destruct (iteration_histories _ _ _ _ _ _ Ei) as [Hc [_ Hs]].
    apply stop_criterion_inv in Hs. destruct Hs as [Hh1 Hstop].
    rewrite Hf, below_neg_infinity in Hh1.
    rewrite Hh1, deque_append_false in Hstop by exact HF.
    assert (Es : stop = false).
    { rewrite Hstop. destruct (i <? ftol_iter (self st))%nat; reflexivity. }
    clear Hstop. rewrite Es. unfold config in Hc. injection Hc as _ _ _ _ _ _ Hc1 Hc2 _.
    apply IH; congruence.
Qed.

(** X8: With the default [ftol = -inf] the loop never stops early: [optimize]
    runs all its iterations and records as many costs. *)
Theorem default_ftol_runs_all_iterations
  (u : np.stream) (f : np.vec -> float) (o : Optimizer) (k : N) (iters : nat) (r : Result) :
  ftol o = neg_infinity -> (1 <= ftol_iter o)%nat ->
  optimize u o k f iters = Some r ->
  exit r = MaxIterReached /\ length (history r) = iters.
Proof.
  intros Hf HF Ho. destruct (optimize_inv _ _ _ _ _ _ Ho) as [Hl _].
  apply loop_never_stops in Hl; [|exact Hf|exact HF].
  destruct (optimize_histories _ _ _ _ _ _ Ho) as [_ He].
  rewrite Hl in He. auto.
Qed.

Lemma loop_last_cost (u : np.stream) (f : list float -> float) (range : list nat) :
  forall st st' e,
    loop u f range st = Some (st', e) -> range <> [] ->
    exists h, cost_history st' = h ++ [best_cost (swarm (self st'))].
Proof.
  induction range as [|i rest IH]; intros st st' e; [congruence|]. simpl.
  destruct (iteration u f i st) as [[st1 stop]|] eqn:Ei; [|discriminate].
  destruct (iteration_best _ _ _ _ _ _ Ei) as [Hc _].
  destruct stop.
  - intros [= <- <-] _. eauto.
  - intros Hl _. destruct rest as [|j rest].
    + simpl in Hl. injection Hl as <- _. eauto.
    + apply (IH _ _ _ Hl). discriminate.
Qed.

(** X6: The last cost [optimize] records is the best cost it returns. *)
Theorem history_ends_with_the_returned_cost
  (u : np.stream) (f : np.vec -> float) (o : Optimizer) (k : N) (iters : nat) (r : Result) :
  (1 <= iters)%nat -> optimize u o k f iters = Some r ->
  exists h, history r = h ++ [final_best_cost r].
Proof.
  intros Hi Ho. destruct (optimize_inv _ _ _ _ _ _ Ho) as [Hl [Hb [Hh _]]].
  rewrite Hh, Hb. eapply loop_last_cost; eauto.
  destruct iters; [lia|discriminate].
Qed.

End Stopping.

(** ** The coefficients and the labels *)

Section Coefficients.

Import Pyswarms EntropyGbest Shape Cells ArrayFacts Rows Sign.
Local Open Scope float_scope.
Context `{MathLib} `{Handlers}.

Lemma adjust_inv (R : float) (o : Options) :
  w (fst (fst (adjust R o))) = w o /\
  snd (adjust R o) = negb (Py.gtb R 0.3).
Proof.
  unfold adjust. destruct (Py.gtb R 0.8) eqn:E8.
  - split; [reflexivity|]. simpl. unfold Py.gtb in *.
    rewrite (F64.ltb_leb_trans 0.3 0.8 R); [reflexivity|reflexivity|].
    now apply F64.ltb_leb.
  - destruct (Py.gtb R 0.6) eqn:E6.
    + split; [reflexivity|]. simpl. unfold Py.gtb in *.
      rewrite (F64.ltb_leb_trans 0.3 0.6 R); [reflexivity|reflexivity|].
      now apply F64.ltb_leb.
    + destruct (Py.gtb R 0.3) eqn:E3; split; reflexivity.
Qed.

(** What [control] does to the coefficients and to the labels. *)
Lemma control_options (i : nat) (st st2 : Run) :
  control i st = Some st2 ->
  w (self_options (self st2)) = w (self_options (self st)) /\
  (recalibration_due i = false -> self_options (self st2) = self_options (self st)) /\
  (recalibration_due i = true -> floored (self_options (self st2))) /\
  exists diff_cost,
    np.vop sub (current_cost (swarm (self st))) (previous_pbest_cost st) = Some diff_cost /\
    list_R st2 =
      (let labels := list_R st ++ map label diff_cost in
       if recalibration_due i && negb (Py.gtb (entropy labels) 0.3) then [] else labels).
Proof.
  intros Hc. pose proof (control_keeps_floor i st st2 Hc) as Hfl. revert Hc.
  unfold control. destruct (np.vop sub _ _) as [diff|]; [|discriminate].
  destruct (recalibration_due i) eqn:Er.
  - pose proof (adjust_inv (entropy (list_R st ++ map label diff)) (self_options (self st)))
      as [Hw Hd].
    destruct (adjust _ _) as [[opts tag] drop]. simpl in Hw, Hd.
    intros [= <-]. simpl in *. split; [exact Hw|]. split; [discriminate|].
    split; [intros _; apply Hfl; reflexivity|].
    exists diff. split; [reflexivity|]. rewrite <- Hd. reflexivity.
  - intros [= <-]. simpl. split; [reflexivity|]. split; [reflexivity|].
    split; [discriminate|]. exists diff. split; reflexivity.
Qed.

Lemma iteration_options (u : np.stream) (f : list float -> float) (i : nat)
  (st st' : Run) (stop : bool) :
  iteration u f i st = Some (st', stop) ->
  w (self_options (self st')) = w (self_options (self st)) /\
  (recalibration_due i = false \/ stop = true ->
   self_options (self st') = self_options (self st)) /\
  (floored (self_options (self st)) -> floored (self_options (self st'))) /\
  (recalibration_due i = true -> stop = false -> floored (self_options (self st'))).
Proof.
  intros Hi. destruct (iteration_inv _ _ _ _ _ _ Hi) as [st1 [Ho [Hs _]]].
  destruct (observe_inv _ _ _ _ _ Ho) as [_ [Eo _]].
  destruct stop.
  - subst st'. rewrite Eo. split; [reflexivity|]. split; [reflexivity|].
    split; [auto|]. intros _ E. discriminate E.
  - destruct Hs as [st2 [Hc Hm]].
    destruct (control_options _ _ _ Hc) as [Cw [Cs [Cf _]]].
    destruct (move_inv _ _ _ Hm) as [_ [Em _]].
    rewrite Em, <- Eo. split; [exact Cw|]. split; [|split].
    + intros [E|E]; [auto|discriminate].
    + intros Hf. destruct (recalibration_due i) eqn:E; [auto|]. rewrite Cs; auto.
    + auto.
Qed.

Lemma loop_options (u : np.stream) (f : list float -> float) (range : list nat) :
  forall st st' e,
    loop u f range st = Some (st', e) ->
    w (self_options (self st')) = w (self_options (self st)) /\
    (floored (self_options (self st)) -> floored (self_options (self st'))).
Proof.
  induction range as [|i rest IH]; intros st st' e; simpl.
  - intros [= <- <-]. auto.
  - destruct (iteration u f i st) as [[st1 stop]|] eqn:Ei; [|discriminate].
    destruct (iteration_options _ _ _ _ _ _ Ei) as [Hw [_ [Hf _]]].
    destruct stop.
    + intros [= <- <-]. auto.
    + intros Hl. destruct (IH _ _ _ Hl) as [Hw' Hf']. split; [congruence|auto].
Qed.

(** X9: [optimize] never changes the inertia [w]; after a call of at least one
    iteration both [c1] and [c2] of the optimizer are at least [0.1],
    whatever they were; and an iteration whose index is not a multiple of
    100 leaves the optimizer's coefficients as they are. *)
Theorem coefficients_after_optimize
  (u : np.stream) (f : np.vec -> float) (o : Optimizer) (k : N) (iters : nat) (r : Result) :
  (1 <= ftol_iter o)%nat -> (1 <= iters)%nat ->
  optimize u o k f iters = Some r ->
  w (self_options (self (final r))) = w (self_options o) /\
  floored (self_options (self (final r))) /\
  (forall i st st' stop,
     iteration u f i st = Some (st', stop) -> (i mod 100)%nat <> 0%nat ->
     self_options (self st') = self_options (self st)).
Proof.
  intros HF Hi Ho. destruct (optimize_inv _ _ _ _ _ _ Ho) as [Hl _].
  destruct iters as [|n]; [lia|]. simpl in Hl.
  destruct (iteration u f 0 (enter o k)) as [[st1 stop]|] eqn:E0; [|discriminate].
  destruct (iteration_options _ _ _ _ _ _ E0) as [Hw [_ [_ Hf]]].
  destruct (iteration_histories _ _ _ _ _ _ E0) as [_ [_ Hs]].
  apply stop_criterion_inv in Hs. destruct Hs as [_ Hs]. simpl in Hs.
  destruct (Nat.ltb_spec 0 (ftol_iter o)); [|lia]. subst stop.
  destruct (loop_options _ _ _ _ _ _ Hl) as [Hw' Hf']. simpl in Hw.
  split; [congruence|]. split; [apply Hf', Hf; reflexivity|].
  intros i st st' stop Hit Hmod.
  apply (proj1 (proj2 (iteration_options _ _ _ _ _ _ Hit))). left.
  unfold recalibration_due. simpl. now apply Nat.eqb_neq.
Qed.

(** X10: In an iteration that runs to its end, each particle is labelled by the
    difference between its cost now and its cost one iteration earlier
    (held in [previous_pbest_cost], which then takes the costs of this
    iteration); the labels are added to the list, and the list is emptied
    only in a recalibration whose entropy is not above [0.3]. *)
Theorem labels_compare_successive_costs
  (u : np.stream) (f : np.vec -> float) (i : nat) (st st' : Run) :
  iteration u f i st = Some (st', false) ->
  previous_pbest_cost st' = map f (position (swarm (self st))) /\
  exists diff_cost,
    np.vop sub (map f (position (swarm (self st)))) (previous_pbest_cost st)
      = Some diff_cost /\
    list_R st' =
      (let labels := list_R st ++ map label diff_cost in
       if recalibration_due i && negb (Py.gtb (entropy labels) 0.3) then [] else labels).
Proof.
  intros Hi. destruct (iteration_inv _ _ _ _ _ _ Hi) as [st1 [Ho [[st2 [Hc Hm]] _]]].
  destruct (observe_inv _ _ _ _ _ Ho) as [_ [_ [Ep [El [_ [_ [_ [_ [He _]]]]]]]]].
  destruct (evaluate_inv _ _ _ _ He) as [_ [_ [_ [_ [Ecur _]]]]].
  destruct (control_inv _ _ _ Hc) as [_ [_ [_ [_ [_ [_ [Ep2 _]]]]]]].
  destruct (control_options _ _ _ Hc) as [_ [_ [_ [diff [Hd Hl]]]]].
  destruct (move_inv _ _ _ Hm) as [_ [_ [_ [_ [_ [Ep3 [_ [El3 _]]]]]]]].
  rewrite Ep3, Ep2, El3, Ecur. split; [reflexivity|].
  exists diff. rewrite <- Ecur, <- Ep, <- El. auto.
Qed.

End Coefficients.

(** ** [optimize] returns *)

Section Progress.

Import Pyswarms EntropyGbest Shape Cells ArrayFacts Rows Sign.
Local Open Scope float_scope.
Context `{MathLib} `{Handlers}.

Lemma init_unstarted (u : np.stream) (k0 k : N) (n d : nat) (opts : Options)
  (b : option bounds_t) (clamp : option clamp_t) (center ftol : float) (F : nat)
  (o : Optimizer) :
  init u k0 n d opts b clamp center ftol F None = Some (o, k) ->
  bounds_fit d b -> unstarted 50 d o.
Proof.
  intros E Hb. pose proof (init_positive _ _ _ _ _ _ _ _ _ _ _ _ _ E) as HF.
  destruct (init_some u k0 n d opts b clamp center ftol F HF Hb) as [m [v [Ei [Hm Hv]]]].
  rewrite Ei in E. injection E as <- <-. unfold unstarted, arrays. simpl.
  repeat split; try apply Hm; try apply Hv; try lia. exact Hb.
Qed.

(** The evaluation keeps the shapes, and leaves a best. *)
Lemma evaluate_going (f : list float -> float) (n d : nat) (st : Run) :
  going f n d st ->
  exists sw,
    evaluate f (swarm (self st)) = Some (sw, best_cost (swarm (self st))) /\
    position sw = position (swarm (self st)) /\
    velocity sw = velocity (swarm (self st)) /\
    current_cost sw = map f (position (swarm (self st))) /\
    shape n d (pbest_pos sw) /\ length (pbest_cost sw) = n /\ sound sw /\
    started d sw.
Proof.
  intros [[Hn [Hb [Hx [Hv Hp]]]] [Hpc [Hprev [S Hbp]]]].
  destruct (evaluate_some f (swarm (self st)) n Hn (proj1 Hx) (proj1 Hp) Hpc)
    as [sw [He [Ex [Ev [_ [Ec [Lp Lc]]]]]]].
  exists sw. split; [exact He|]. split; [exact Ex|]. split; [exact Ev|].
  split; [exact Ec|].
  destruct (evaluate_sound _ _ _ _ S He) as [S' _].
  assert (Hp' : shape n d (pbest_pos sw)).
  { split; [exact Lp|]. apply Forall_nth_error. intros i row Hi.
    assert (Hlt : (i < length (pbest_cost (swarm (self st))))%nat).
    { rewrite Hpc, <- Lp. apply nth_error_Some. congruence. }
    destruct (nth_error (pbest_cost (swarm (self st))) i) as [p|] eqn:Ep;
      [|apply nth_error_None in Ep; lia].
    destruct (evaluate_nth _ _ _ _ i p He Ep) as [x [q [Hxi [Hqi [_ Hrow]]]]].
    rewrite Hi in Hrow. injection Hrow as ->.
    destruct (f x <? p);
      [exact (shape_row _ _ _ _ _ Hx Hxi)|exact (shape_row _ _ _ _ _ Hp Hqi)]. }
  split; [exact Hp'|]. split; [exact Lc|]. split; [exact S'|].
  destruct (evaluate_parts _ _ _ _ He) as [_ [m [Hm Hg]]].
  destruct Hg as [[Hlt [Ebc [idx [_ Hrow]]]]|[Hlt [Ebc Ebp]]].
  - split; [eapply shape_row; eauto|].
    rewrite Ebc. exact (F64.ltb_below_inf _ _ Hlt).
  - unfold started. rewrite Ebp, Ebc.
    destruct Hbp as [Hd|[Hinf [Hfull Hex]]]; [exact Hd|].
    exfalso. apply Exists_exists in Hex. destruct Hex as [x [Hin Hfx]].
    apply In_nth_error in Hin. destruct Hin as [i Hi].
    assert (Ep : nth_error (pbest_cost (swarm (self st))) i = Some np.inf).
    { rewrite Hfull. unfold np.full. apply nth_error_repeat.
      rewrite <- (proj1 Hx). apply nth_error_Some. congruence. }
    destruct (evaluate_nth _ _ _ _ i _ He Ep) as [x' [q [Hxi [_ [Hc _]]]]].
    rewrite Hi in Hxi. injection Hxi as <-. rewrite Hfx in Hc.
    destruct S' as [S1 _]. pose proof (Least.min_least _ _ S1 Hm) as Hle.
    eapply Forall_nth_error in Hle; [|exact Hc].
    pose proof (F64.leb_ltb_trans _ _ _ Hle Hfx) as C.
    rewrite Hinf in Hlt. congruence.
Qed.

(** One pass of the loop returns, and the run goes on. *)
Lemma iteration_some (u : np.stream) (f : list float -> float) (i n d : nat) (st : Run) :
  going f n d st ->
  exists st' stop,
    iteration u f i st = Some (st', stop) /\ going f n d st' /\
    started d (swarm (self st')) /\ swarm_size (self st') = swarm_size (self st).
Proof.
  intros G. destruct (evaluate_going f n d st G)
    as [sw [He [Ex [Ev [Ec [Hp [Lc [S [Lb Lbc]]]]]]]]].
  destruct G as [[Hn [Hb [Hx [Hv _]]]] [_ [Hprev _]]].
  unfold iteration, observe. rewrite He.
  destruct (stop_criterion _ _ _ _ _ _) as [h stop].
  set (st1 := mkRun (with_swarm (self st) sw) (previous_pbest_cost st)
                (cost_history st ++ [best_cost sw]) (list_R st) h (stdout st)
                (info_log st) (cursor st)).
  assert (G1 : going f n d st1 /\ started d (swarm (self st1))).
  { unfold going, arrays, started. simpl. rewrite Ex, Ev.
    repeat split; try assumption; try apply Hx; try apply Hv; try apply Hp; try apply S.
    now left. }
  destruct stop.
  - exists st1, true. split; [reflexivity|]. split; [apply G1|]. split; [apply G1|reflexivity].
  - destruct (control_some i st1) as [st2 E2].
    { simpl. rewrite Ec, length_map. destruct Hx. congruence. }
    rewrite E2. destruct (control_inv _ _ _ E2)
      as [C1 [C2 [C3 [C4 [C5 [_ [C6 _]]]]]]].
    unfold bests in C2. injection C2 as Cp Cb Cpc Cbc.
    destruct (config_eq _ _ C1) as [_ [_ Cbd]]. simpl in *.
    destruct (move_some u st2 n d) as [st3 [E3 [Hx3 Hv3]]]; try congruence.
    rewrite E3. destruct (move_inv _ _ _ E3) as [M1 [_ [M2 [_ [_ [M3 _]]]]]].
    unfold bests in M2. injection M2 as Mp Mb Mpc Mbc.
    destruct (config_eq _ _ M1) as [_ [_ Mbd]].
    exists st3, false. split; [reflexivity|].
    assert (Hsz : swarm_size (self st3) = swarm_size (self st)).
    { unfold config in C1, M1. injection C1 as _ _ _ _ C1 _ _ _ _.
      injection M1 as _ _ _ _ M1 _ _ _ _. simpl in C1. congruence. }
    assert (Hst : started d (swarm (self st3))).
    { unfold started. rewrite Mb, Cb, Mbc, Cbc. auto. }
    split; [|split; [exact Hst|exact Hsz]].
    unfold going, arrays, sound.
    rewrite Mbd, Cbd, Mp, Cp, Mpc, Cpc, Mbc, Cbc, M3, C6, Ec, length_map.
    repeat split; try assumption; try apply Hx3; try apply Hv3; try apply Hp; try apply Hx;
      try apply S.
    left. exact Hst.
Qed.

Lemma loop_some (u : np.stream) (f : list float -> float) (n d : nat) (range : list nat) :
  forall st, going f n d st ->
    exists st' e, loop u f range st = Some (st', e) /\ going f n d st' /\
      swarm_size (self st') = swarm_size (self st) /\
      (started d (swarm (self st)) \/ range <> [] -> started d (swarm (self st'))).
Proof.
  induction range as [|i rest IH]; intros st G; simpl.
  - exists st, MaxIterReached. split; [reflexivity|]. split; [exact G|].
    split; [reflexivity|]. intros [C|C]; congruence.
  - destruct (iteration_some u f i n d st G) as [st1 [stop [-> [G1 [L1 Z1]]]]].
    destruct stop.
    + exists st1, (Converged i). split; [reflexivity|]. split; [exact G1|].
      split; [exact Z1|]. intros _. exact L1.
    + destruct (IH st1 G1) as [st' [e [-> [G' [Z' L']]]]].
      exists st', e. split; [reflexivity|]. split; [exact G'|]. split; [congruence|].
      intros _. apply L'. now left.
Qed.

Lemma enter_going (f : list float -> float) (n d : nat) (o : Optimizer) (k : N) :
  operable f n d o -> is_nan (best_cost (swarm o)) = false -> going f n d (enter o k).
Proof.
  intros [A [Hz Hb]] Hn. unfold going, arrays, enter, np.full in *. simpl. rewrite Hz.
  rewrite !repeat_length. repeat split; try apply A.
  - apply Forall_forall. intros c Hc. apply repeat_spec in Hc. now subst.
  - exact Hn.
  - destruct (enter_sound o k Hn) as [_ [_ S3]]. simpl in S3. unfold np.full in S3.
    rewrite Hz in S3. exact S3.
  - destruct Hb as [Hd|[Hinf Hex]]; [now left|right]. auto.
Qed.

(** [optimize] returns on an optimizer it can be called on, when it makes an
    iteration or the swarm has found a best before; the optimizer it leaves
    has found a best. *)
Lemma optimize_some (u : np.stream) (f : list float -> float) (n d : nat) (o : Optimizer)
  (k : N) (iters : nat) :
  operable f n d o -> is_nan (best_cost (swarm o)) = false ->
  started d (swarm o) \/ (1 <= iters)%nat ->
  exists r, optimize u o k f iters = Some r /\
    started d (swarm (self (final r))) /\
    forall g, operable g n d (self (final r)).
Proof.
  intros Op Hn Hs. pose proof (enter_going f n d o k Op Hn) as G.
  destruct (loop_some u f n d (seq 0 iters) _ G) as [st [e [El [G' [Hz Hbp]]]]].
  assert (Hst : started d (swarm (self st))).
  { apply Hbp. destruct Hs as [Hs|Hs]; [left; exact Hs|right].
    destruct iters; [lia|discriminate]. }
  unfold optimize. rewrite El.
  rewrite (copy_best_cost_some _ (proj2 Hst)).
  destruct G' as [[Hn0 [Hb [Hx [Hv Hp]]]] [Hpc _]].
  destruct (np.argmin (pbest_cost (swarm (self st)))) as [idx|] eqn:Ea.
  2:{ destruct (pbest_cost (swarm (self st))); simpl in *; [lia|discriminate]. }
  pose proof (argmin_lt _ _ Ea) as Hi.
  destruct (nth_error (pbest_pos (swarm (self st))) idx) as [pos|] eqn:Ep.
  2:{ apply nth_error_None in Ep. destruct Hp. lia. }
  eexists. split; [reflexivity|]. simpl. split; [exact Hst|]. intros g.
  unfold operable, arrays.
  split; [auto|]. split; [simpl in Hz; rewrite Hz; apply Op|]. left. exact Hst.
Qed.

(** X1: On an optimizer as the constructor builds it, [optimize] returns a
    result when some particle costs less than [inf]; any later call on that
    optimizer returns one too, whatever its objective. *)
Theorem optimize_returns
  (u0 : np.stream) (k0 k1 : N) (n d : nat) (opts : Options) (b : option bounds_t)
  (clamp : option clamp_t) (center ftol : float) (F : nat) (o : Optimizer)
  (u : np.stream) (k : N) (f : np.vec -> float) (iters : nat) :
  init u0 k0 n d opts b clamp center ftol F None = Some (o, k1) ->
  bounds_fit d b ->
  Exists (fun x => (f x <? np.inf) = true) (position (swarm o)) ->
  (1 <= iters)%nat ->
  exists r,
    optimize u o k f iters = Some r /\
    forall (u' : np.stream) (k' : N) (g : np.vec -> float) (iters' : nat),
      exists r', optimize u' (self (final r)) k' g iters' = Some r'.
Proof.
  intros Hi Hb Hex Hit.
  destruct (init_unstarted _ _ _ _ _ _ _ _ _ _ _ _ Hi Hb) as [A [Hz [_ [_ Hinf]]]].
  assert (Hn : is_nan (best_cost (swarm o)) = false) by (rewrite Hinf; reflexivity).
  assert (Op : operable f 50 d o) by (unfold operable; auto).
  destruct (optimize_some u f 50 d o k iters Op Hn (or_intror Hit)) as [r [Hr [Hs Hop]]].
  exists r. split; [exact Hr|]. intros u' k' g iters'.
  destruct (optimize_descending _ _ _ _ _ _ Hn Hr) as [_ Hn'].
  destruct (optimize_some u' g 50 d (self (final r)) k' iters' (Hop g) Hn'
              (or_introl Hs)) as [r' [Hr' _]].
  eauto.
Qed.

Lemma compute_velocity_none (u : np.stream) (k : N) (s : Swarm) (clamp : option clamp_t)
  (a : float) (x : list float) (rest : list (list float)) :
  position s = (a :: x) :: rest -> best_pos s = [] ->
  compute_velocity u k s clamp = None.
Proof.
  intros Hp Hb. unfold compute_velocity.
  destruct (np.rand2 u k _ _) as [u1 k1].
  destruct (np.mop sub _ _) as [dp|]; [|reflexivity].
  destruct (np.mop mul _ dp) as [cog|]; [|reflexivity].
  destruct (np.rand2 u k1 _ _) as [u2 k2].
  rewrite Hp, Hb. reflexivity.
Qed.

(** X2: On a new optimizer in two or more dimensions, when no particle costs
    less than [inf] (each cost is [inf] or NaN) the first iteration
    evaluates the swarm, finds no best position, and fails in the velocity
    update: [optimize] raises. *)
Theorem optimize_raises_without_a_cost_below_inf
  (u0 : np.stream) (k0 k1 : N) (n d : nat) (opts : Options) (b : option bounds_t)
  (clamp : option clamp_t) (center ftol : float) (F : nat) (o : Optimizer)
  (u : np.stream) (k : N) (f : np.vec -> float) (iters : nat) :
  init u0 k0 n d opts b clamp center ftol F None = Some (o, k1) ->
  bounds_fit d b -> (2 <= d)%nat ->
  Forall (fun x => (f x <? np.inf) = false) (position (swarm o)) ->
  (1 <= iters)%nat ->
  (exists st1 st2,
     observe f 0 (enter o k) = Some (st1, false) /\
     control 0 st1 = Some st2 /\
     best_pos (swarm (self st2)) = [] /\
     move u st2 = None) /\
  optimize u o k f iters = None.
Proof.
  intros Hi Hb Hd Hall Hit.
  destruct (init_unstarted _ _ _ _ _ _ _ _ _ _ _ _ Hi Hb)
    as [[_ [_ [Hx [Hv Hp]]]] [Hz [HF [Hbp Hinf]]]].
  assert (Hparts :
    exists st1 st2,
      observe f 0 (enter o k) = Some (st1, false) /\
      control 0 st1 = Some st2 /\
      best_pos (swarm (self st2)) = [] /\
      move u st2 = None).
  { destruct (evaluate_some f (swarm (self (enter o k))) 50)
      as [sw [He [Ex [Ev [_ [Ec [Lp Lc]]]]]]]; try lia; simpl;
      try apply Hx; try apply Hp.
    { rewrite Hz. apply repeat_length. }
    simpl in Ex, Ec.
    assert (Hbest : best_pos sw = []).
    { destruct (evaluate_parts _ _ _ _ He) as [_ [m [Hm [[Hlt _]|[_ [_ Eb]]]]]];
        [|rewrite Eb; exact Hbp].
      exfalso. simpl in Hlt. rewrite Hinf in Hlt.
      apply Least.min_In, In_nth_error in Hm. destruct Hm as [i Him].
      assert (Hlt50 : (i < 50)%nat) by (rewrite <- Lc; apply nth_error_Some; congruence).
      assert (Ep : nth_error (pbest_cost (swarm (self (enter o k)))) i = Some np.inf).
      { simpl. rewrite Hz. now apply nth_error_repeat. }
      destruct (evaluate_nth _ _ _ _ i _ He Ep) as [x [q [Hxi [_ [Hc _]]]]].
      simpl in Hxi. rewrite Forall_forall in Hall.
      rewrite (Hall x) in Hc by (eapply nth_error_In; eauto).
      rewrite Him in Hc. injection Hc as ->. discriminate Hlt. }
    unfold observe. rewrite He. unfold stop_criterion.
    destruct (Nat.ltb_spec 0 (ftol_iter (self (enter o k)))); [|simpl in *; lia].
    eexists. 
    match goal with |- context [Some (?s, false)] => set (st1 := s) end.
    destruct (control_some 0 st1) as [st2 E2].
    { simpl. unfold np.full. rewrite Ec, length_map, Hz, repeat_length. symmetry. apply Hx. }
    exists st2. split; [reflexivity|]. split; [exact E2|].
    destruct (control_inv _ _ _ E2) as [_ [C2 [C3 _]]].
    unfold bests in C2. injection C2 as _ Cb _ _. simpl in Cb, C3.
    split; [congruence|].
    unfold move.
    destruct (position (swarm o)) as [|[|a x] rest] eqn:Epos.
    - destruct Hx as [Hx _]. simpl in Hx. lia.
    - destruct Hx as [_ Hx]. inversion Hx; subst. simpl in *. lia.
    - rewrite (compute_velocity_none u _ _ _ a x rest); [reflexivity| |congruence].
      rewrite C3, Ex. reflexivity. }
  split; [exact Hparts|].
  destruct Hparts as [st1 [st2 [Ho [Hc Hm]]]]. destruct Hm as [_ Hm].
  unfold optimize. destruct iters as [|iters]; [lia|]. simpl.
  unfold iteration. rewrite Ho, Hc, Hm. reflexivity.
Qed.

End Progress.

(** ** The calls of [compute_global_best] return *)

Section Returns.

Import Algorithms ArrayFacts Shape Rows Sign.
Local Open Scope float_scope.
Context `{Params}.

Lemma times_some (a : list float) (fac : Factor) :
  length a = num_dimensions -> factor_fits fac ->
  exists r, times a fac = Some r /\ length r = num_dimensions.
Proof.
  intros Ha Hf. destruct fac as [x|v]; simpl in *.
  - eexists. split; [reflexivity|]. now rewrite length_map.
  - destruct (vop_some mul a v) as [r [Hr Hl]]; [congruence|].
    exists r. split; [exact Hr|congruence].
Qed.

(** The update of one particle returns, and keeps the shapes. *)
Lemma particle_update_some (u : np.stream) (fac : Factor) (f : list float -> float)
  (i : nat) (sw : Swarm) (gb : list float) :
  (i < num_particles)%nat -> fits sw -> factor_fits fac -> length gb = num_dimensions ->
  exists sw' gb',
    particle_update u fac f i (sw, gb) = Some (sw', gb') /\
    fits sw' /\ length gb' = num_dimensions.
Proof.
  intros Hi [Hx [Hv Hp]] Hf Hg. unfold particle_update, np.rand.
  destruct (shape_nth_some _ _ _ i Hp Hi) as [pb [-> Lpb]].
  destruct (shape_nth_some _ _ _ i Hx Hi) as [x [-> Lx]].
  destruct (shape_nth_some _ _ _ i Hv Hi) as [v [Ev Lv]].
  destruct (vop_some sub pb x) as [d1 [-> L1]]; [congruence|].
  destruct (vop_some mul (np.sop mul c1 (np.draws u (cursor sw) num_dimensions)) d1)
    as [t1 [-> L2]].
  { unfold np.sop. rewrite length_map, draws_length. congruence. }
  unfold np.sop in L2. rewrite length_map, draws_length in L2.
  destruct (times_some t1 fac L2 Hf) as [cog [-> L3]].
  destruct (vop_some sub gb x) as [d2 [-> L4]]; [congruence|].
  destruct (vop_some mul
              (np.sop mul c2 (np.draws u (cursor sw + N.of_nat num_dimensions)
                                num_dimensions)) (map (fun y => y + 0) d2))
    as [t2 [-> L5]].
  { unfold np.sop. rewrite !length_map, draws_length. congruence. }
  unfold np.sop in L5. rewrite length_map, draws_length in L5.
  destruct (times_some t2 fac L5 Hf) as [soc [-> L6]].
  rewrite Ev.
  destruct (vop_some add (np.sop mul w v) cog) as [v1 [-> L7]].
  { unfold np.sop. rewrite length_map. congruence. }
  unfold np.sop in L7. rewrite length_map in L7.
  destruct (vop_some add v1 soc) as [v' [-> L8]]; [congruence|].
  destruct (set_nth_some v' (particles_velocity sw) i) as [vel Evel].
  { destruct Hv. lia. }
  rewrite Evel.
  destruct (vop_some add x v') as [x' [-> L9]]; [congruence|].
  destruct (set_nth_some x' (particles_position sw) i) as [pos Epos].
  { destruct Hx. lia. }
  rewrite Epos.
  assert (Hvel : shape num_particles num_dimensions vel).
  { apply (set_nth_shape _ _ i v' (particles_velocity sw)); [exact Hv|congruence|exact Evel]. }
  assert (Hpos : shape num_particles num_dimensions pos).
  { apply (set_nth_shape _ _ i x' (particles_position sw)); [exact Hx|congruence|exact Epos]. }
  destruct (f x' <? f pb).
  - destruct (set_nth_some x' (personal_best sw) i) as [pbs Epbs].
    { destruct Hp. lia. }
    rewrite Epbs.
    assert (Hpbs : shape num_particles num_dimensions pbs).
    { apply (set_nth_shape _ _ i x' (personal_best sw)); [exact Hp|congruence|exact Epbs]. }
    destruct (f x' <? f gb); do 2 eexists; (split; [reflexivity|]);
      unfold fits; simpl; repeat split; try apply Hpos; try apply Hvel; try apply Hpbs;
      congruence.
  - do 2 eexists. split; [reflexivity|].
    unfold fits; simpl; repeat split; try apply Hpos; try apply Hvel; try apply Hp;
      congruence.
Qed.

Lemma sweep_some (u : np.stream) (fac : Factor) (f : list float -> float)
  (range : list nat) :
  forall sw gb,
    Forall (fun i => (i < num_particles)%nat) range ->
    fits sw -> factor_fits fac -> length gb = num_dimensions ->
    exists sw' gb',
      sweep u fac f range (sw, gb) = Some (sw', gb') /\
      fits sw' /\ length gb' = num_dimensions.
Proof.
  induction range as [|i rest IH]; intros sw gb Hr Hs Hf Hg; cbn [sweep].
  - eauto.
  - inversion Hr as [|? ? Hi Hr']; subst.
    destruct (particle_update_some u fac f i sw gb Hi Hs Hf Hg) as [sw1 [gb1 [-> [Hs1 Hg1]]]].
    apply IH; assumption.
Qed.

Lemma seq_below (n : nat) : Forall (fun i => (i < n)%nat) (seq 0 n).
Proof. apply Forall_forall. intros i Hi. apply in_seq in Hi. lia. Qed.

Lemma compute_global_best_some (u : np.stream) (fac : Factor) (f : list float -> float)
  (sw : Swarm) :
  (0 < num_particles)%nat -> fits sw -> factor_fits fac ->
  exists gb sw',
    compute_global_best u fac f sw = Some (gb, sw') /\
    fits sw' /\ length gb = num_dimensions.
Proof.
  intros Hn Hs Hf. unfold compute_global_best, select_global_best.
  destruct Hs as [Hx [Hv Hp]].
  destruct (np.argmin (map f (personal_best sw))) as [idx|] eqn:Ea.
  2:{ destruct Hp as [Hl _]. destruct (personal_best sw); simpl in *; [lia|discriminate]. }
  pose proof (argmin_lt _ _ Ea) as Hi. rewrite length_map in Hi.
  destruct (shape_nth_some _ _ _ idx Hp) as [gb0 [-> Lg]]; [destruct Hp; lia|].
  destruct (sweep_some u fac f (seq 0 num_particles) sw gb0 (seq_below _)
              (conj Hx (conj Hv Hp)) Hf Lg) as [sw' [gb' [-> [Hs' Lg']]]].
  eauto.
Qed.

Lemma collect_some (u : np.stream) (fac : Factor) (f : list float -> float)
  (range : list nat) :
  forall vals sw,
    (0 < num_particles)%nat -> fits sw -> factor_fits fac ->
    exists vals' sw',
      collect u fac f range vals sw = Some (vals', sw') /\ fits sw' /\
      length vals' = (length vals + length range)%nat.
Proof.
  induction range as [|i rest IH]; intros vals sw Hn Hs Hf; cbn [collect].
  - exists vals, sw. repeat split; try apply Hs. simpl. lia.
  - destruct (compute_global_best_some u fac f sw Hn Hs Hf) as [gb [sw1 [-> [Hs1 _]]]].
    destruct (IH (vals ++ [f gb]) sw1 Hn Hs1 Hf) as [vals' [sw' [-> [Hs' Hl]]]].
    exists vals', sw'. split; [reflexivity|]. split; [exact Hs'|].
    rewrite Hl, length_app. simpl. lia.
Qed.

End Returns.

(** ** Columns of the result matrices *)

Module Columns.

Import Rows.

Lemma set_nth_nth {A : Type} (v : A) (l : list A) :
  forall i l' j, np.set_nth i v l = Some l' ->
    nth_error l' j = if Nat.eqb j i then Some v else nth_error l j.
Proof.
  intros i l' j Hs. destruct (Nat.eqb_spec j i) as [->|Hn].
  - eapply ArrayFacts.set_nth_same; eauto.
  - eapply ArrayFacts.set_nth_other; eauto.
Qed.

Lemma set_cell_some (n d : nat) (m : list (list float)) (r c : nat) (v : float) :
  shape n d m -> (r < n)%nat -> (c < d)%nat ->
  exists m', np.set_cell m r c v = Some m' /\ shape n d m'.
Proof.
  intros Hs Hr Hc. unfold np.set_cell.
  destruct (shape_nth_some _ _ _ r Hs Hr) as [row [-> Lr]].
  destruct (ArrayFacts.set_nth_some v row c) as [row' Er]; [lia|]. rewrite Er.
  destruct (ArrayFacts.set_nth_some row' m r) as [m' Em]; [destruct Hs; lia|].
  exists m'. split; [exact Em|].
  apply (set_nth_shape _ _ r row' m); [exact Hs| |exact Em].
  rewrite (ArrayFacts.set_nth_length _ _ _ _ Er). exact Lr.
Qed.

Lemma set_cell_none (n d : nat) (m : list (list float)) (r c : nat) (v : float) :
  shape n d m -> (d <= c)%nat -> np.set_cell m r c v = None.
Proof.
  intros Hs Hc. unfold np.set_cell.
  destruct (nth_error m r) as [row|] eqn:E; [|reflexivity].
  pose proof (shape_row _ _ _ _ _ Hs E) as Lr.
  destruct (np.set_nth c v row) as [row'|] eqn:Er; [|reflexivity].
  exfalso. pose proof (ArrayFacts.set_nth_same _ _ _ _ Er) as Hn.
  assert (c < length row')%nat by (apply nth_error_Some; congruence).
  rewrite (ArrayFacts.set_nth_length _ _ _ _ Er) in *. lia.
Qed.

Lemma set_nth_none {A : Type} (v : A) (l : list A) :
  forall i, (length l <= i)%nat -> np.set_nth i v l = None.
Proof.
  induction l as [|x l IH]; intros i Hi; [destruct i; reflexivity|].
  destruct i as [|i]; simpl in *; [lia|]. rewrite IH; [reflexivity|lia].
Qed.

Lemma set_column_some (d : nat) (c : nat) (m : list (list float)) :
  forall n vals, shape n d m -> length vals = n -> (c < d)%nat ->
    exists m', np.set_column m c vals = Some m' /\ shape n d m'.
Proof.
  unfold np.set_column.
  induction m as [|row m IH]; intros n vals [Hl Hf] Hv Hc; simpl in *.
  - destruct vals; simpl in *; [|lia]. exists []. repeat split; auto.
  - destruct vals as [|v vals]; simpl in *; [lia|].
    inversion Hf as [|? ? Hrow Hf']; subst.
    destruct (ArrayFacts.set_nth_some v row c) as [row' Er]; [lia|]. rewrite Er.
    destruct (IH (length m) vals) as [m' [-> [Hl' Hf'']]]; try lia; [split; auto|].
    eexists. split; [reflexivity|]. split; simpl; [lia|].
    constructor; [|exact Hf''].
    rewrite (ArrayFacts.set_nth_length _ _ _ _ Er). reflexivity.
Qed.

Lemma set_column_none (d : nat) (c : nat) (m : list (list float)) (n : nat)
  (vals : list float) :
  shape n d m -> (0 < n)%nat -> (d <= c)%nat -> np.set_column m c vals = None.
Proof.
  unfold np.set_column. intros [Hl Hf] Hn Hc.
  destruct m as [|row m]; simpl in *; [lia|].
  destruct vals as [|v vals]; [reflexivity|].
  inversion Hf; subst. rewrite set_nth_none; [reflexivity|lia].
Qed.

Lemma column_some (d : nat) (c : nat) (m : list (list float)) :
  forall n, shape n d m -> (c < d)%nat ->
    exists col, np.column m c = Some col /\ length col = n.
Proof.
  unfold np.column.
  induction m as [|row m IH]; intros n [Hl Hf] Hc; simpl in *.
  - exists []. auto.
  - inversion Hf as [|? ? Hrow Hf']; subst.
    destruct (nth_error row c) as [x|] eqn:E; [|apply nth_error_None in E; lia].
    destruct (IH (length m)) as [col [-> Hlen]]; [split; auto|exact Hc|].
    eexists. split; [reflexivity|]. simpl. lia.
Qed.

(** Writing column [c] leaves the other columns as they are. *)
Lemma set_column_cell (c : nat) (m : list (list float)) :
  forall vals m' r c', np.set_column m c vals = Some m' -> c' <> c ->
    cell m' r c' = cell m r c'.
Proof.
  unfold np.set_column, cell.
  induction m as [|row m IH]; intros [|v vals] m' r c'; simpl; try discriminate.
  - intros [= <-]. reflexivity.
  - destruct (np.set_nth c v row) as [row'|] eqn:Er; [|discriminate].
    destruct (np.zip_with_opt _ m vals) as [m1|] eqn:Em; [|discriminate].
    intros [= <-] Hc. destruct r as [|r]; simpl.
    + eapply ArrayFacts.set_nth_other; eauto.
    + eapply IH; eauto.
Qed.

Lemma set_cell_cell (m m' : list (list float)) (r c : nat) (v : float) (r' c' : nat) :
  np.set_cell m r c v = Some m' -> c' <> c -> cell m' r' c' = cell m r' c'.
Proof.
  unfold np.set_cell, cell.
  destruct (nth_error m r) as [row|] eqn:E; [|discriminate].
  destruct (np.set_nth c v row) as [row'|] eqn:Er; [|discriminate].
  intros Hs Hc. rewrite (set_nth_nth _ _ _ _ r' Hs).
  destruct (Nat.eqb_spec r' r) as [->|Hn]; [|reflexivity].
  rewrite E. eapply ArrayFacts.set_nth_other; eauto.
Qed.

End Columns.

(** ** The runners *)

Section Runners.

Import Algorithms ArrayFacts Shape Columns Rows Sign.
Local Open Scope float_scope.
Context `{Params}.

Lemma CPSO_loop_some (u : np.stream) (run : nat) (f : list float -> float)
  (range : list nat) :
  forall st,
    Forall (fun i => (i < num_iterations)%nat) range ->
    (0 < num_particles)%nat -> (run < num_runs)%nat -> store_fits st ->
    exists st', CPSO_loop u run f range st = Some st' /\ store_fits st'.
Proof.
  induction range as [|i rest IH]; intros st Hr Hn Hrun Hs; cbn [CPSO_loop].
  - eauto.
  - inversion Hr as [|? ? Hi Hr']; subst. destruct Hs as [Hb [Hm Hsw]].
    destruct (compute_global_best_some u (Scalar 1) f (swarm st) Hn Hsw I)
      as [gb [sw' [-> [Hsw' _]]]].
    destruct (set_cell_some _ _ _ i run (f gb) Hb Hi Hrun) as [m [-> Hm']].
    apply IH; auto. repeat split; try apply Hm'; try apply Hm; apply Hsw'.
Qed.

Lemma CPSO_loop_frame (u : np.stream) (run : nat) (f : list float -> float)
  (range : list nat) :
  forall st st',
    CPSO_loop u run f range st = Some st' ->
    mean_gbest_evolution st' = mean_gbest_evolution st /\
    forall r c, c <> run ->
      cell (best_fitness_evolution st') r c = cell (best_fitness_evolution st) r c.
Proof.
  induction range as [|i rest IH]; intros st st'; cbn [CPSO_loop].
  - intros [= <-]. auto.
  - destruct (compute_global_best _ _ _ _) as [[gb sw']|]; [|discriminate].
    destruct (np.set_cell _ i run _) as [m|] eqn:Em; [|discriminate].
    intros Hl. destruct (IH _ _ Hl) as [Hmean Hcell]. simpl in *.
    split; [exact Hmean|]. intros r c Hc. rewrite (Hcell r c Hc).
    eapply set_cell_cell; eauto.
Qed.

Lemma uniform_length (u : np.stream) (k : N) (low high : float) (n : nat) :
  length (fst (np.uniform u k low high n)) = n.
Proof. unfold np.uniform. simpl. now rewrite length_map, draws_length. Qed.

Lemma select_some (f : list float -> float) (sw : Swarm) :
  (0 < num_particles)%nat -> fits sw -> exists gb, select_global_best f sw = Some gb.
Proof.
  intros Hn [_ [_ Hp]]. unfold select_global_best.
  destruct (np.argmin (map f (personal_best sw))) as [idx|] eqn:Ea.
  2:{ destruct Hp as [Hl _]. destruct (personal_best sw); simpl in *; [lia|discriminate]. }
  pose proof (argmin_lt _ _ Ea) as Hi. rewrite length_map in Hi.
  destruct (nth_error (personal_best sw) idx) eqn:E; [eauto|].
  apply nth_error_None in E. lia.
Qed.

(** A runner returns on the module as the import shapes it, and keeps the
    shapes. *)
Lemma runner_some (v : Variant) (u : np.stream) (run : nat) (f : list float -> float)
  (st : Store) :
  (0 < num_particles)%nat -> (run < num_runs)%nat -> store_fits st ->
  exists m st', run_variant v u run f st = Some (m, st') /\ store_fits st' /\
                shape num_iterations num_runs m.
Proof.
  intros Hn Hrun Hs. destruct v; simpl.
  - unfold CPSOAlgorithm.
    destruct (CPSO_loop_some u run f (seq 0 num_iterations) st (seq_below _) Hn Hrun Hs)
      as [st' [-> Hs']].
    do 2 eexists. split; [reflexivity|]. split; [exact Hs'|apply Hs'].
  - unfold SPSOAlgorithm. destruct Hs as [Hb [Hm Hsw]].
    destruct (select_some f _ Hn Hsw) as [gb ->].
    destruct (collect_some u (Scalar 1) f (seq 0 num_iterations) [] (swarm st) Hn Hsw I)
      as [vals [sw' [-> [Hsw' Hl]]]].
    simpl in Hl. rewrite length_seq in Hl.
    destruct (set_column_some _ run _ _ vals Hm Hl Hrun) as [m [-> Hm']].
    do 2 eexists. split; [reflexivity|]. split; [|exact Hm'].
    repeat split; try apply Hb; try apply Hm'; apply Hsw'.
  - unfold HCLPSOAlgorithm. destruct Hs as [Hb [Hm Hsw]].
    destruct (select_some f _ Hn Hsw) as [gb ->].
    pose proof (uniform_length u (cursor (swarm st)) (1 - alpha) (1 + alpha) num_dimensions)
      as Hu.
    destruct (np.uniform u (cursor (swarm st)) (1 - alpha) (1 + alpha) num_dimensions)
      as [h k]. simpl in Hu.
    destruct (collect_some u (PerDimension h) f (seq 0 num_iterations) []
                (mkSwarm (particles_position (swarm st)) (particles_velocity (swarm st))
                   (personal_best (swarm st)) k) Hn Hsw Hu)
      as [vals [sw' [-> [Hsw' Hl]]]].
    simpl in Hl. rewrite length_seq in Hl.
    destruct (set_column_some _ run _ _ vals Hm Hl Hrun) as [m [-> Hm']].
    do 2 eexists. split; [reflexivity|]. split; [|exact Hm'].
    repeat split; try apply Hb; try apply Hm'; apply Hsw'.
  - unfold EPSOAlgorithm. destruct Hs as [Hb [Hm Hsw]].
    destruct (select_some f _ Hn Hsw) as [gb ->].
    destruct (collect_some u (Scalar w) f (seq 0 num_iterations) [] (swarm st) Hn Hsw I)
      as [vals [sw' [-> [Hsw' Hl]]]].
    simpl in Hl. rewrite length_seq in Hl.
    destruct (set_column_some _ run _ _ vals Hb Hl Hrun) as [m [-> Hm']].
    do 2 eexists. split; [reflexivity|]. split; [|exact Hm'].
    repeat split; try apply Hm; try apply Hm'; apply Hsw'.
Qed.

(** What a runner returns and what it leaves alone. *)
Lemma runner_frame (v : Variant) (u : np.stream) (run : nat) (f : list float -> float)
  (st st' : Store) (m : list (list float)) :
  run_variant v u run f st = Some (m, st') ->
  m = written v st' /\ kept v st' = kept v st /\
  forall r c, c <> run -> cell (written v st') r c = cell (written v st) r c.
Proof.
  destruct v; simpl.
  - unfold CPSOAlgorithm.
    destruct (CPSO_loop u run f (seq 0 num_iterations) st) as [st1|] eqn:E; [|discriminate].
    intros [= <- <-]. destruct (CPSO_loop_frame _ _ _ _ _ _ E). auto.
  - unfold SPSOAlgorithm.
    destruct (select_global_best f (swarm st)); [|discriminate].
    destruct (collect u (Scalar 1) f _ [] (swarm st)) as [[vals sw']|]; [|discriminate].
    destruct (np.set_column _ run vals) as [m1|] eqn:Em; [|discriminate].
    intros [= <- <-]. simpl. repeat split. intros r c Hc. eapply set_column_cell; eauto.
  - unfold HCLPSOAlgorithm.
    destruct (select_global_best f (swarm st)); [|discriminate].
    destruct (np.uniform _ _ _ _ _) as [h k].
    destruct (collect u _ f _ [] _) as [[vals sw']|]; [|discriminate].
    destruct (np.set_column _ run vals) as [m1|] eqn:Em; [|discriminate].
    intros [= <- <-]. simpl. repeat split. intros r c Hc. eapply set_column_cell; eauto.
  - unfold EPSOAlgorithm.
    destruct (select_global_best f (swarm st)); [|discriminate].
    destruct (collect u (Scalar w) f _ [] (swarm st)) as [[vals sw']|]; [|discriminate].
    destruct (np.set_column _ run vals) as [m1|] eqn:Em; [|discriminate].
    intros [= <- <-]. simpl. repeat split. intros r c Hc. eapply set_column_cell; eauto.
Qed.

(** X14: Each runner writes one column of one of the module's two matrices and
    returns that matrix: CPSO and EPSO share [best_fitness_evolution], SPSO
    and HCLPSO share [mean_gbest_evolution]; the other matrix and the other
    columns stay as they are. *)
Theorem runner_writes_one_column
  (v : Variant) (u : np.stream) (run : nat) (f : np.vec -> float) (st st' : Store)
  (m : np.matrix) :
  run_variant v u run f st = Some (m, st') ->
  m = written v st' /\ kept v st' = kept v st /\
  forall r c, c <> run -> cell (written v st') r c = cell (written v st) r c.
Proof. apply runner_frame. Qed.

(** X15: From one state of the module, SPSO does what CPSO does: it leaves the
    same swarm, at the same place in the stream of draws, and records the
    same costs, in the other matrix. *)
Theorem SPSO_does_what_CPSO_does
  (u : np.stream) (run : nat) (f : np.vec -> float) (st st1 st2 : Store)
  (m1 m2 : np.matrix) (col1 col2 : np.vec) :
  CPSOAlgorithm u run f st = Some (m1, st1) ->
  SPSOAlgorithm u run f st = Some (m2, st2) ->
  np.column m1 run = Some col1 -> np.column m2 run = Some col2 ->
  swarm st2 = swarm st1 /\
  firstn num_iterations col2 = firstn num_iterations col1.
Proof.
  intros H1 H2 C1 C2.
  destruct (runner_collect CPSO _ _ _ _ _ _ H1) as [v1 [Hc1 Hcol1]].
  destruct (runner_collect SPSO _ _ _ _ _ _ H2) as [v2 [Hc2 Hcol2]].
  rewrite (Hcol1 _ C1), (Hcol2 _ C2). simpl in Hc1, Hc2.
  rewrite Hc1 in Hc2. injection Hc2 as <- <-. auto.
Qed.

(** X16: A runner raises when [run] is not a column of the matrix it writes (and
    there is an iteration to record). *)
Theorem runner_raises_beyond_last_run
  (v : Variant) (u : np.stream) (run : nat) (f : np.vec -> float) (st : Store) :
  shape num_iterations num_runs (written v st) ->
  (0 < num_iterations)%nat -> (num_runs <= run)%nat ->
  run_variant v u run f st = None.
Proof.
  intros Hs Hi Hrun. destruct v; simpl in *.
  - unfold CPSOAlgorithm. destruct num_iterations as [|n] eqn:En; [lia|].
    cbn [seq CPSO_loop].
    destruct (compute_global_best _ _ _ _) as [[gb sw']|]; [|reflexivity].
    rewrite (set_cell_none _ _ _ 0 run (f gb) Hs Hrun). reflexivity.
  - unfold SPSOAlgorithm.
    destruct (select_global_best f (swarm st)); [|reflexivity].
    destruct (collect u (Scalar 1) f _ [] (swarm st)) as [[vals sw']|]; [|reflexivity].
    rewrite (set_column_none _ run _ _ vals Hs Hi Hrun). reflexivity.
  - unfold HCLPSOAlgorithm.
    destruct (select_global_best f (swarm st)); [|reflexivity].
    destruct (np.uniform _ _ _ _ _) as [h k].
    destruct (collect u _ f _ [] _) as [[vals sw']|]; [|reflexivity].
    rewrite (set_column_none _ run _ _ vals Hs Hi Hrun). reflexivity.
  - unfold EPSOAlgorithm.
    destruct (select_global_best f (swarm st)); [|reflexivity].
    destruct (collect u (Scalar w) f _ [] (swarm st)) as [[vals sw']|]; [|reflexivity].
    rewrite (set_column_none _ run _ _ vals Hs Hi Hrun). reflexivity.
Qed.

(** X17: With no particle there is no global best to select: every runner
    raises, CPSO as soon as it has an iteration to run. *)
Theorem runner_raises_on_empty_swarm
  (v : Variant) (u : np.stream) (run : nat) (f : np.vec -> float) (st : Store) :
  personal_best (swarm st) = [] ->
  (v = CPSO -> (0 < num_iterations)%nat) ->
  run_variant v u run f st = None.
Proof.
  intros He Hi. destruct v; simpl.
  - unfold CPSOAlgorithm. destruct num_iterations as [|n] eqn:En; [specialize (Hi eq_refl); lia|].
    cbn [seq CPSO_loop]. unfold compute_global_best, select_global_best.
    rewrite He. reflexivity.
  - unfold SPSOAlgorithm, select_global_best. rewrite He. reflexivity.
  - unfold HCLPSOAlgorithm, select_global_best. rewrite He. reflexivity.
  - unfold EPSOAlgorithm, select_global_best. rewrite He. reflexivity.
Qed.

End Runners.

(** ** The personal bests and the global best *)

Section Calls.

Import Algorithms ArrayFacts Shape Columns Rows Sign.
Local Open Scope float_scope.
Context `{Params}.

(** X11: On arrays of [num_particles] rows of [num_dimensions] coordinates, with
    at least one particle, [compute_global_best] returns a global best of
    [num_dimensions] coordinates and leaves arrays of the same shape. *)
Theorem compute_global_best_returns
  (u : np.stream) (fac : Factor) (f : np.vec -> float) (sw : Swarm) :
  (0 < num_particles)%nat -> fits sw -> factor_fits fac ->
  exists gb sw',
    compute_global_best u fac f sw = Some (gb, sw') /\
    fits sw' /\ length gb = num_dimensions.
Proof. apply compute_global_best_some. Qed.

(** The personal best of one particle through a sweep. *)
Lemma sweep_personal_best (u : np.stream) (fac : Factor) (f : list float -> float)
  (n : nat) (sw sw' : Swarm) (gb gb' : list float) (i : nat) (pb : list float) :
  sweep u fac f (seq 0 n) (sw, gb) = Some (sw', gb') ->
  nth_error (personal_best sw) i = Some pb ->
  nth_error (personal_best sw') i = Some pb \/
  exists x', nth_error (personal_best sw') i = Some x' /\
             nth_error (particles_position sw') i = Some x' /\
             (f x' <? f pb) = true.
Proof.
  intros Hs Hpb. destruct (Nat.lt_ge_cases i n) as [Hi|Hi].
  - replace n with (i + S (n - S i))%nat in Hs by lia.
    rewrite seq_app, sweep_app in Hs. simpl in Hs.
    destruct (sweep u fac f (seq 0 i) (sw, gb)) as [[sw1 gb1]|] eqn:E1; [|discriminate].
    destruct (particle_update u fac f i (sw1, gb1)) as [[sw2 gb2]|] eqn:E2; [|discriminate].
    destruct (sweep_frame _ _ _ i _ _ _ _ _ E1) as [R1 _].
    { intros C. apply in_seq in C. lia. }
    destruct (sweep_frame _ _ _ i _ _ _ _ _ Hs) as [R3 _].
    { intros C. apply in_seq in C. lia. }
    unfold rows in R1, R3. injection R1 as _ _ R1. injection R3 as R3x _ R3.
    rewrite Hpb in R1.
    destruct (particle_update_inv _ _ _ _ _ _ _ _ E2)
      as [pb0 [x [v [d1 [t1 [cog [d2 [t2 [soc [v1 [v' [x' Hu]]]]]]]]]]]].
    destruct Hu as [Hp0 [_ [_ [_ [_ [_ [_ [_ [_ [_ [_ [_ [_ [Hpos [_ Hc]]]]]]]]]]]]]]].
    rewrite R1 in Hp0. injection Hp0 as <-.
    destruct Hc as [[Hlt [Hset _]]|[_ [Hsame _]]].
    + right. exists x'. rewrite R3, R3x.
      rewrite (set_nth_same _ _ _ _ Hset), (set_nth_same _ _ _ _ Hpos). auto.
    + left. rewrite R3, Hsame. exact R1.
  - left. destruct (sweep_frame _ _ _ i _ _ _ _ _ Hs) as [R _].
    { intros C. apply in_seq in C. lia. }
    unfold rows in R. injection R as _ _ R. congruence.
Qed.

(** X12: A call of [compute_global_best] never makes a personal best worse: a
    particle's personal best is left as it was, or it is the particle's new
    position and costs strictly less than the old one. *)
Theorem personal_best_never_worsens
  (u : np.stream) (fac : Factor) (f : np.vec -> float) (sw sw' : Swarm) (gb : np.vec)
  (i : nat) (pb : np.vec) :
  compute_global_best u fac f sw = Some (gb, sw') ->
  nth_error (personal_best sw) i = Some pb ->
  nth_error (personal_best sw') i = Some pb \/
  exists x', nth_error (personal_best sw') i = Some x' /\
             nth_error (particles_position sw') i = Some x' /\
             (f x' <? f pb) = true.
Proof.
  unfold compute_global_best.
  destruct (select_global_best f sw) as [gb0|]; [|discriminate].
  destruct (sweep u fac f _ (sw, gb0)) as [[sw1 gb1]|] eqn:Es; [|discriminate].
  intros [= <- <-]. eapply sweep_personal_best; eauto.
Qed.

(** X13: When no personal best costs NaN, the global best [compute_global_best]
    returns is one of the personal bests it leaves and costs no more than
    any of them, nor than any personal best it found. *)
Theorem returned_global_best_is_least
  (u : np.stream) (fac : Factor) (f : np.vec -> float) (sw sw' : Swarm) (gb : np.vec) :
  numeric f sw ->
  compute_global_best u fac f sw = Some (gb, sw') ->
  In gb (personal_best sw') /\
  Forall (fun p => (f gb <=? f p) = true) (personal_best sw') /\
  Forall (fun p => (f gb <=? f p) = true) (personal_best sw).
Proof.
  intros Hn Hc. destruct (compute_global_best_least _ _ _ _ _ _ Hn Hc) as [[Hin Hle] Hold].
  split; [exact Hin|]. split; [exact Hle|].
  unfold compute_global_best in Hc.
  destruct (select_global_best f sw) as [gb0|] eqn:Es; [|discriminate].
  destruct (select_inv _ _ _ Es) as [_ [Hl _]]. specialize (Hl Hn).
  pose proof (Hold gb0 Hl) as H0. destruct Hl as [_ Hl].
  eapply Forall_impl; [|exact Hl]. intros p Hp. simpl in Hp.
  eapply F64.leb_trans; eauto.
Qed.

End Calls.

(** ** The loop of [plot] *)

Section Plot.

Import Algorithms Plotting ArrayFacts Shape Columns Rows Sign.
Local Open Scope float_scope.
Context `{Params}.

(** The four runners of one pass, read off its result. *)
Lemma plot_run_inv (u : np.stream) (f : list float -> float) (run : nat)
  (cv cv' : Curves) (st st4 : Store) :
  plot_run u f run (cv, st) = Some (cv', st4) ->
  exists m1 st1 m2 st2 m3 st3 m4 col1 col2 col3 col4,
    run_variant CPSO u run f st = Some (m1, st1) /\
    run_variant SPSO u run f st1 = Some (m2, st2) /\
    run_variant HCLPSO u run f st2 = Some (m3, st3) /\
    run_variant EPSO u run f st3 = Some (m4, st4) /\
    np.column m1 run = Some col1 /\ np.column m2 run = Some col2 /\
    np.column m3 run = Some col3 /\ np.column m4 run = Some col4 /\
    np.set_column (cpso cv) run col1 = Some (cpso cv') /\
    np.set_column (spso cv) run col2 = Some (spso cv') /\
    np.set_column (hcpso cv) run col3 = Some (hcpso cv') /\
    np.set_column (epso cv) run col4 = Some (epso cv').
Proof.
  unfold plot_run, run_variant. simpl.
  destruct (CPSOAlgorithm u run f st) as [[m1 st1]|] eqn:R1; [|discriminate].
  destruct (np.column m1 run) as [col1|] eqn:C1; [|discriminate].
  destruct (np.set_column (cpso cv) run col1) as [c1'|] eqn:S1; [|discriminate].
  destruct (SPSOAlgorithm u run f st1) as [[m2 st2]|] eqn:R2; [|discriminate].
  destruct (np.column m2 run) as [col2|] eqn:C2; [|discriminate].
  destruct (np.set_column (spso cv) run col2) as [c2'|] eqn:S2; [|discriminate].
  destruct (HCLPSOAlgorithm u run f st2) as [[m3 st3]|] eqn:R3; [|discriminate].
  destruct (np.column m3 run) as [col3|] eqn:C3; [|discriminate].
  destruct (np.set_column (hcpso cv) run col3) as [c3'|] eqn:S3; [|discriminate].
  destruct (EPSOAlgorithm u run f st3) as [[m4 st4']|] eqn:R4; [|discriminate].
  destruct (np.column m4 run) as [col4|] eqn:C4; [|discriminate].
  destruct (np.set_column (epso cv) run col4) as [c4'|] eqn:S4; [|discriminate].
  intros [= <- <-]. simpl.
  exists m1, st1, m2, st2, m3, st3, m4, col1, col2, col3, col4.
  repeat split; assumption.
Qed.

(** X19: After one pass of the loop of [plot], column [run] of the module's
    [best_fitness_evolution] holds what EPSO recorded and column [run] of
    [mean_gbest_evolution] what HCLPSO recorded: what CPSO and SPSO wrote
    there is kept only in the matrices [cpso] and [spso] of [plotting.py]. *)
Theorem later_variants_overwrite_the_module_arrays
  (u : np.stream) (f : np.vec -> float) (run : nat) (cv cv' : Curves) (st st' : Store) :
  plot_run u f run (cv, st) = Some (cv', st') ->
  (exists col, np.column (best_fitness_evolution st') run = Some col /\
               np.column (epso cv') run = Some col) /\
  (exists col, np.column (mean_gbest_evolution st') run = Some col /\
               np.column (hcpso cv') run = Some col).
Proof.
  intros Hp. destruct (plot_run_inv _ _ _ _ _ _ _ Hp)
    as [m1 [st1 [m2 [st2 [m3 [st3 [m4 [col1 [col2 [col3 [col4 Hr]]]]]]]]]]].
  destruct Hr as [_ [_ [R3 [R4 [_ [_ [C3 [C4 [_ [_ [S3 S4]]]]]]]]]]].
  destruct (runner_frame _ _ _ _ _ _ _ R3) as [E3 _].
  destruct (runner_frame _ _ _ _ _ _ _ R4) as [E4 [K4 _]]. simpl in E3, E4, K4.
  split.
  - exists col4. split; [congruence|]. eapply set_column_column; eauto.
  - exists col3. split; [congruence|]. eapply set_column_column; eauto.
Qed.

Lemma plot_run_some (u : np.stream) (f : list float -> float) (run : nat)
  (cv : Curves) (st : Store) :
  (0 < num_particles)%nat -> (run < num_runs)%nat -> curves_fit cv -> store_fits st ->
  exists cv' st', plot_run u f run (cv, st) = Some (cv', st') /\
                  curves_fit cv' /\ store_fits st'.
Proof.
  intros Hn Hrun [K1 [K2 [K3 K4]]] Hs. unfold plot_run.
  destruct (runner_some CPSO u run f st Hn Hrun Hs) as [m1 [st1 [E1 [Hs1 Hm1]]]].
  simpl in E1. rewrite E1.
  destruct (column_some _ run _ _ Hm1 Hrun) as [col1 [-> L1]].
  destruct (set_column_some _ run _ _ col1 K1 L1 Hrun) as [c1' [-> K1']].
  destruct (runner_some SPSO u run f st1 Hn Hrun Hs1) as [m2 [st2 [E2 [Hs2 Hm2]]]].
  simpl in E2. rewrite E2.
  destruct (column_some _ run _ _ Hm2 Hrun) as [col2 [-> L2]].
  destruct (set_column_some _ run _ _ col2 K2 L2 Hrun) as [c2' [-> K2']].
  destruct (runner_some HCLPSO u run f st2 Hn Hrun Hs2) as [m3 [st3 [E3 [Hs3 Hm3]]]].
  simpl in E3. rewrite E3.
  destruct (column_some _ run _ _ Hm3 Hrun) as [col3 [-> L3]].
  destruct (set_column_some _ run _ _ col3 K3 L3 Hrun) as [c3' [-> K3']].
  destruct (runner_some EPSO u run f st3 Hn Hrun Hs3) as [m4 [st4 [E4 [Hs4 Hm4]]]].
  simpl in E4. rewrite E4.
  destruct (column_some _ run _ _ Hm4 Hrun) as [col4 [-> L4]].
  destruct (set_column_some _ run _ _ col4 K4 L4 Hrun) as [c4' [-> K4']].
  do 2 eexists. split; [reflexivity|]. split; [|exact Hs4].
  unfold curves_fit. simpl. auto.
Qed.

Lemma plot_runs_some (u : np.stream) (f : list float -> float) (range : list nat) :
  forall cv st,
    Forall (fun run => (run < num_runs)%nat) range ->
    (0 < num_particles)%nat -> curves_fit cv -> store_fits st ->
    exists cv' st', plot_runs u f range (cv, st) = Some (cv', st') /\
                    curves_fit cv' /\ store_fits st'.
Proof.
  induction range as [|run rest IH]; intros cv st Hr Hn Hc Hs; cbn [plot_runs].
  - eauto.
  - inversion Hr as [|? ? Hrun Hr']; subst.
    destruct (plot_run_some u f run cv st Hn Hrun Hc Hs) as [cv1 [st1 [-> [Hc1 Hs1]]]].
    apply IH; assumption.
Qed.

Lemma zeros2_shape (n d : nat) : shape n d (np.zeros2 n d).
Proof.
  unfold np.zeros2. split; [apply repeat_length|].
  apply Forall_forall. intros r Hr. apply repeat_spec in Hr. subst. apply repeat_length.
Qed.

Lemma uniform2_shape (u : np.stream) (low high : float) (d n : nat) :
  forall k, shape n d (fst (uniform2 u k low high n d)).
Proof.
  induction n as [|n IH]; intros k; simpl.
  - split; [reflexivity|constructor].
  - specialize (IH (k + N.of_nat d)%N).
    destruct (uniform2 u (k + N.of_nat d) low high n d) as [m k'']. simpl in *.
    destruct IH as [Hl Hf]. split; simpl; [lia|].
    constructor; [|exact Hf]. now rewrite length_map, draws_length.
Qed.

Lemma import_module_fits (u : np.stream) (k : N) : store_fits (import_module u k).
Proof.
  unfold import_module.
  pose proof (uniform2_shape u (-600) 600 num_dimensions num_particles k) as Hs.
  destruct (uniform2 u k (-600) 600 num_particles num_dimensions) as [pos k']. simpl in Hs.
  unfold store_fits, fits. simpl. repeat split; try apply zeros2_shape; apply Hs.
Qed.

(** X18: With at least one particle, the loop of [plot] over the runs completes,
    whatever the objective and the draws: on the module as imported, and
    again on the module as an earlier call left it. *)
Theorem plot_runs_every_variant
  (u0 : np.stream) (k0 : N) (u : np.stream) (f : np.vec -> float) :
  (0 < num_particles)%nat ->
  exists cv st,
    plot u f (import_module u0 k0) = Some (cv, st) /\ curves_fit cv /\
    forall (u' : np.stream) (g : np.vec -> float),
      exists cv' st', plot u' g st = Some (cv', st') /\ curves_fit cv'.
Proof.
  intros Hn. unfold plot.
  assert (Hz : curves_fit (mkCurves (np.zeros2 num_iterations num_runs)
                             (np.zeros2 num_iterations num_runs)
                             (np.zeros2 num_iterations num_runs)
                             (np.zeros2 num_iterations num_runs))).
  { unfold curves_fit. simpl. repeat split; apply zeros2_shape. }
  destruct (plot_runs_some u f (seq 0 num_runs) _ _ (seq_below _) Hn Hz
              (import_module_fits u0 k0)) as [cv [st [-> [Hc Hs]]]].
  exists cv, st. split; [reflexivity|]. split; [exact Hc|].
  intros u' g.
  destruct (plot_runs_some u' g (seq 0 num_runs) _ _ (seq_below _) Hn Hz Hs)
    as [cv' [st' [-> [Hc' _]]]].
  eauto.
Qed.

End Plot.

(** ** The variants share one swarm *)

Section Chain.

Import Algorithms Plotting ArrayFacts Shape Columns Rows Sign.
Local Open Scope float_scope.
Context `{Params}.

Lemma descending_app (l1 l2 : list float) :
  forall b, descending b (l1 ++ l2) = descending b l1 && descending (last l1 b) l2.
Proof.
  induction l1 as [|x l1 IH]; intros b; [reflexivity|].
  cbn [app descending]. rewrite IH, last_cons, andb_assoc. reflexivity.
Qed.

(** The values a runner collects come down from the least cost it finds to
    the least cost it leaves. *)
Lemma collect_last (u : np.stream) (fac : Factor) (f : list float -> float)
  (range : list nat) :
  forall vals sw vals' sw' gb0,
    least f sw gb0 ->
    collect u fac f range vals sw = Some (vals', sw') ->
    exists new gb',
      vals' = vals ++ new /\ descending (f gb0) new = true /\
      least f sw' gb' /\ f gb' = last new (f gb0).
Proof.
  induction range as [|i rest IH]; intros vals sw vals' sw' gb0 Hl; cbn [collect].
  - intros [= <- <-]. exists [], gb0. rewrite app_nil_r. auto.
  - destruct (compute_global_best u fac f sw) as [[gb sw1]|] eqn:Ec; [|discriminate].
    intros Hc.
    destruct (compute_global_best_least _ _ _ _ _ _ (least_numeric _ _ _ Hl) Ec)
      as [Hl1 Hle].
    destruct (IH _ _ _ _ _ Hl1 Hc) as [new [gb' [Hv [Hd [Hl' Hlast]]]]].
    exists (f gb :: new), gb'. rewrite Hv, <- app_assoc. split; [reflexivity|].
    cbn [descending]. unfold Py.geb. rewrite (Hle _ Hl), Hd, last_cons. auto.
Qed.

Lemma variant_start_least (v : Variant) (f : list float -> float) (sw : Swarm)
  (gb : list float) : least f sw gb -> least f (variant_start v sw) gb.
Proof. destruct v; auto. Qed.

Lemma runner_last (v : Variant) (u : np.stream) (run : nat) (f : list float -> float)
  (st st' : Store) (m : list (list float)) (gb0 : list float) :
  least f (swarm st) gb0 ->
  run_variant v u run f st = Some (m, st') ->
  exists vals gb',
    (forall col, np.column m run = Some col -> firstn num_iterations col = vals) /\
    descending (f gb0) vals = true /\
    least f (swarm st') gb' /\ f gb' = last vals (f gb0).
Proof.
  intros Hl Hr. destruct (runner_collect _ _ _ _ _ _ _ Hr) as [vals [Hc Hcol]].
  destruct (collect_last _ _ _ _ _ _ _ _ _ (variant_start_least v _ _ _ Hl) Hc)
    as [new [gb' [Hv [Hd [Hl' Hlast]]]]].
  simpl in Hv. subst new. exists vals, gb'. auto.
Qed.

(** X20: In one pass of the loop of [plot] the four variants work on one swarm,
    each from where the one before left it: when no personal best costs NaN,
    the costs of CPSO, SPSO, HCLPSO and EPSO for a run, read one after the
    other, never rise. *)
Theorem variants_continue_one_descent
  (u : np.stream) (f : np.vec -> float) (run : nat) (cv cv' : Curves) (st st' : Store)
  (c1 c2 c3 c4 : np.vec) :
  numeric f (swarm st) ->
  plot_run u f run (cv, st) = Some (cv', st') ->
  np.column (cpso cv') run = Some c1 -> np.column (spso cv') run = Some c2 ->
  np.column (hcpso cv') run = Some c3 -> np.column (epso cv') run = Some c4 ->
  non_increasing (firstn num_iterations c1 ++ firstn num_iterations c2 ++
                  firstn num_iterations c3 ++ firstn num_iterations c4) = true.
Proof.
  intros Hn Hp K1 K2 K3 K4.
  destruct (plot_run_inv _ _ _ _ _ _ _ Hp)
    as [m1 [st1 [m2 [st2 [m3 [st3 [m4 [col1 [col2 [col3 [col4 Hr]]]]]]]]]]].
  destruct Hr as [R1 [R2 [R3 [R4 [C1 [C2 [C3 [C4 [S1 [S2 [S3 S4]]]]]]]]]]].
  rewrite (set_column_column _ _ _ _ S1) in K1. injection K1 as <-.
  rewrite (set_column_column _ _ _ _ S2) in K2. injection K2 as <-.
  rewrite (set_column_column _ _ _ _ S3) in K3. injection K3 as <-.
  rewrite (set_column_column _ _ _ _ S4) in K4. injection K4 as <-.
  destruct (runner_collect _ _ _ _ _ _ _ R1) as [v1 [Hc1 Hcol1]].
  pose proof (collect_length _ _ _ _ _ _ _ _ Hc1) as Len1.
  rewrite length_seq in Len1. simpl in Len1.
  destruct num_iterations as [|n] eqn:En.
  { reflexivity. }
  rewrite <- En in *.
  assert (Hg : exists gb0, least f (swarm st) gb0).
  { rewrite En in Hc1. cbn [seq collect] in Hc1. simpl variant_start in Hc1.
    destruct (compute_global_best u _ f (swarm st)) as [[gb sw1]|] eqn:Ecg; [|discriminate].
    unfold compute_global_best in Ecg.
    destruct (select_global_best f (swarm st)) as [gb0|] eqn:Es; [|discriminate].
    exists gb0. now apply select_inv. }
  destruct Hg as [gb0 Hl0].
  destruct (runner_last _ _ _ _ _ _ _ _ Hl0 R1) as [w1 [g1 [Hw1 [D1 [L1 E1]]]]].
  destruct (runner_last _ _ _ _ _ _ _ _ L1 R2) as [w2 [g2 [Hw2 [D2 [L2 E2]]]]].
  destruct (runner_last _ _ _ _ _ _ _ _ L2 R3) as [w3 [g3 [Hw3 [D3 [L3 E3]]]]].
  destruct (runner_last _ _ _ _ _ _ _ _ L3 R4) as [w4 [g4 [Hw4 [D4 [L4 E4]]]]].
  rewrite (Hw1 _ C1), (Hw2 _ C2), (Hw3 _ C3), (Hw4 _ C4).
  assert (Hd : descending (f gb0) (w1 ++ w2 ++ w3 ++ w4) = true).
  { rewrite !descending_app, D1, <- E1, D2, <- E2, D3, <- E3, D4. reflexivity. }
  destruct (w1 ++ w2 ++ w3 ++ w4) as [|x l]; [reflexivity|].
  cbn [descending] in Hd. apply andb_true_iff in Hd. apply Hd.
Qed.

End Chain.

(** ** The columns of the curves *)

Section Curves.

Import Algorithms Plotting Summary ArrayFacts Shape Columns Rows Sign.
Local Open Scope float_scope.
Context `{Params}.

Lemma set_column_column_other (c c' : nat) (m : list (list float)) :
  forall vals m', np.set_column m c vals = Some m' -> c' <> c ->
    np.column m' c' = np.column m c'.
Proof.
  unfold np.set_column, np.column.
  induction m as [|row m IH]; intros [|v vals] m'; simpl; try discriminate.
  - intros [= <-]. reflexivity.
  - destruct (np.set_nth c v row) as [row'|] eqn:Er; [|discriminate].
    destruct (np.zip_with_opt _ m vals) as [m1|] eqn:Em; [|discriminate].
    intros [= <-] Hc. simpl.
    rewrite (set_nth_other _ _ _ _ c' Er Hc).
    destruct (nth_error row c'); [|reflexivity].
    rewrite (IH _ _ Em Hc). reflexivity.
Qed.

(** One pass of the loop of [plot] writes column [run] of each curve and
    leaves the other columns. *)
Lemma plot_run_columns (u : np.stream) (f : list float -> float) (run : nat)
  (cv cv' : Curves) (st st' : Store) (v : Variant) (c : nat) :
  plot_run u f run (cv, st) = Some (cv', st') -> c <> run ->
  np.column (curve v cv') c = np.column (curve v cv) c.
Proof.
  intros Hp Hc. destruct (plot_run_inv _ _ _ _ _ _ _ Hp)
    as [m1 [st1 [m2 [st2 [m3 [st3 [m4 [col1 [col2 [col3 [col4 Hr]]]]]]]]]]].
  destruct Hr as [_ [_ [_ [_ [_ [_ [_ [_ [S1 [S2 [S3 S4]]]]]]]]]]].
  destruct v; simpl; eapply set_column_column_other; eauto.
Qed.

(** What holds of the columns one pass writes holds of the columns of all
    the runs, once the loop is over. *)
Lemma plot_runs_columns (u : np.stream) (f : list float -> float)
  (I : Store -> Prop) (Q : nat -> list float -> Prop) :
  (forall run cv st cv' st',
     I st -> plot_run u f run (cv, st) = Some (cv', st') ->
     I st' /\ forall v col, np.column (curve v cv') run = Some col -> Q run col) ->
  forall range cv st cv' st',
    NoDup range -> I st -> plot_runs u f range (cv, st) = Some (cv', st') ->
    I st' /\
    forall run v col, In run range -> np.column (curve v cv') run = Some col -> Q run col.
Proof.
  intros Hstep. induction range as [|run rest IH]; intros cv st cv' st' Hnd Hi;
    cbn [plot_runs].
  - intros [= <- <-]. split; [exact Hi|]. intros run v col [].
  - destruct (plot_run u f run (cv, st)) as [[cv1 st1]|] eqn:E1; [|discriminate].
    intros Hrest. inversion Hnd as [|? ? Hnot Hnd']; subst.
    destruct (Hstep _ _ _ _ _ Hi E1) as [Hi1 Hq1].
    destruct (IH _ _ _ _ Hnd' Hi1 Hrest) as [Hi' Hq'].
    split; [exact Hi'|]. intros r v col [<-|Hin] Hcol; [|eauto].
    apply (Hq1 v). rewrite <- Hcol. clear - Hrest Hnot.
    revert cv1 st1 Hrest. induction rest as [|r rest IHr]; intros cv1 st1; cbn [plot_runs].
    + intros [= <- <-]. reflexivity.
    + destruct (plot_run u f r (cv1, st1)) as [[cv2 st2]|] eqn:E2; [|discriminate].
      intros Hrest. rewrite <- (IHr (fun C => Hnot (or_intror C)) _ _ Hrest).
      symmetry. eapply plot_run_columns; eauto. intros ->. apply Hnot. now left.
Qed.

End Curves.

(** ** The minima of the runs *)

Section Minima.

Import Algorithms Plotting Summary ArrayFacts Shape Columns Rows Sign.
Local Open Scope float_scope.
Context `{Params}.

Lemma min_descending (r : list float) :
  forall x, descending x r = true ->
    fold_left (fun m y => if (m <? y) || is_nan m then m else y) r x = last r x.
Proof.
  induction r as [|y r IH]; intros x; [reflexivity|].
  cbn [descending fold_left]. unfold Py.geb. intros Hd.
  apply andb_true_iff in Hd. destruct Hd as [Hy Hr].
  rewrite (leb_not_ltb _ _ Hy), (proj2 (F64.leb_not_nan _ _ Hy)). simpl orb. cbv iota.
  rewrite (IH _ Hr). symmetry. apply last_cons.
Qed.

Lemma min_non_increasing (col : list float) (d : float) :
  col <> [] -> non_increasing col = true -> np.min col = Some (last col d).
Proof.
  destruct col as [|x r]; [congruence|]. intros _ Hn. simpl in Hn.
  unfold np.min. rewrite (min_descending _ _ Hn). now rewrite last_cons.
Qed.

Lemma descending_last (l : list float) :
  forall b, descending b l = true ->
    Forall (fun c => (last l b <=? c) = true) l /\
    (is_nan b = false -> (last l b <=? b) = true).
Proof.
  induction l as [|x l IH]; intros b; cbn [descending].
  - intros _. split; [constructor|]. intros Hb. now apply F64.leb_refl.
  - unfold Py.geb. intros Hd. apply andb_true_iff in Hd. destruct Hd as [Hx Hl].
    destruct (IH _ Hl) as [Hf Hlast]. rewrite last_cons.
    specialize (Hlast (proj1 (F64.leb_not_nan _ _ Hx))).
    split; [constructor; assumption|]. intros _. eapply F64.leb_trans; eauto.
Qed.

Lemma column_length (c : nat) (m : list (list float)) (col : list float) :
  np.column m c = Some col -> length col = length m.
Proof. apply map_opt_length. Qed.

Lemma set_column_shape (n d c : nat) (m m' : list (list float)) (vals : list float) :
  shape n d m -> np.set_column m c vals = Some m' -> shape n d m'.
Proof.
  unfold np.set_column. revert n vals m'.
  induction m as [|row m IH]; intros n [|v vals] m' [Hl Hf]; simpl; try discriminate.
  - intros [= <-]. split; auto.
  - destruct (np.set_nth c v row) as [row'|] eqn:Er; [|discriminate].
    destruct (np.zip_with_opt _ m vals) as [m1|] eqn:Em; [|discriminate].
    intros [= <-]. inversion Hf as [|? ? Hrow Hf']; subst.
    destruct (IH (length m) _ _ (conj eq_refl Hf') Em) as [Hl1 Hf1].
    split; simpl; [lia|]. constructor; [|exact Hf1].
    now rewrite (set_nth_length _ _ _ _ Er).
Qed.

Lemma plot_run_curves (u : np.stream) (f : list float -> float) (run : nat)
  (cv cv' : Curves) (st st' : Store) :
  plot_run u f run (cv, st) = Some (cv', st') -> curves_fit cv -> curves_fit cv'.
Proof.
  intros Hp [K1 [K2 [K3 K4]]]. destruct (plot_run_inv _ _ _ _ _ _ _ Hp)
    as [m1 [st1 [m2 [st2 [m3 [st3 [m4 [col1 [col2 [col3 [col4 Hr]]]]]]]]]]].
  destruct Hr as [_ [_ [_ [_ [_ [_ [_ [_ [S1 [S2 [S3 S4]]]]]]]]]]].
  unfold curves_fit.
  split; [exact (set_column_shape _ _ _ _ _ _ K1 S1)|].
  split; [exact (set_column_shape _ _ _ _ _ _ K2 S2)|].
  split; [exact (set_column_shape _ _ _ _ _ _ K3 S3)|exact (set_column_shape _ _ _ _ _ _ K4 S4)].
Qed.

Lemma plot_runs_curves (u : np.stream) (f : list float -> float) (range : list nat) :
  forall cv st cv' st',
    plot_runs u f range (cv, st) = Some (cv', st') -> curves_fit cv -> curves_fit cv'.
Proof.
  induction range as [|run rest IH]; intros cv st cv' st'; cbn [plot_runs].
  - now intros [= <- <-].
  - destruct (plot_run u f run (cv, st)) as [[cv1 st1]|] eqn:E1; [|discriminate].
    intros Hr Hc. eapply IH; eauto. eapply plot_run_curves; eauto.
Qed.

Lemma curve_fit (v : Variant) (cv : Curves) :
  curves_fit cv -> shape num_iterations num_runs (curve v cv).
Proof. intros [K1 [K2 [K3 K4]]]. destruct v; assumption. Qed.

Lemma plot_curves (u : np.stream) (f : list float -> float) (st st' : Store) (cv : Curves) :
  plot u f st = Some (cv, st') -> curves_fit cv.
Proof.
  unfold plot. intros Hp. eapply plot_runs_curves; eauto.
  unfold curves_fit. simpl. repeat split; apply zeros2_shape.
Qed.

(** The columns one pass writes never rise. *)
Lemma plot_run_non_increasing (u : np.stream) (f : list float -> float) (run : nat)
  (cv cv' : Curves) (st st' : Store) :
  numeric f (swarm st) -> plot_run u f run (cv, st) = Some (cv', st') ->
  numeric f (swarm st') /\
  forall v col, np.column (curve v cv') run = Some col ->
    non_increasing (firstn num_iterations col) = true.
Proof.
  intros Hn Hp. destruct (plot_run_inv _ _ _ _ _ _ _ Hp)
    as [m1 [st1 [m2 [st2 [m3 [st3 [m4 [col1 [col2 [col3 [col4 Hr]]]]]]]]]]].
  destruct Hr as [R1 [R2 [R3 [R4 [C1 [C2 [C3 [C4 [S1 [S2 [S3 S4]]]]]]]]]]].
  destruct (runner_non_increasing _ _ _ _ _ _ _ Hn R1) as [N1 Q1].
  destruct (runner_non_increasing _ _ _ _ _ _ _ N1 R2) as [N2 Q2].
  destruct (runner_non_increasing _ _ _ _ _ _ _ N2 R3) as [N3 Q3].
  destruct (runner_non_increasing _ _ _ _ _ _ _ N3 R4) as [N4 Q4].
  split; [exact N4|]. intros v col Hc. destruct v; simpl in Hc.
  - rewrite (set_column_column _ _ _ _ S1) in Hc. injection Hc as <-. auto.
  - rewrite (set_column_column _ _ _ _ S2) in Hc. injection Hc as <-. auto.
  - rewrite (set_column_column _ _ _ _ S3) in Hc. injection Hc as <-. auto.
  - rewrite (set_column_column _ _ _ _ S4) in Hc. injection Hc as <-. auto.
Qed.

(** The minimum of each column is its last entry, when no column rises. *)
Lemma min_axis0_last (m : list (list float)) (mins row : list float) :
  shape num_iterations num_runs m -> (0 < num_iterations)%nat ->
  (forall c col, (c < num_runs)%nat -> np.column m c = Some col ->
     non_increasing col = true) ->
  min_axis0 m = Some mins ->
  nth_error m (num_iterations - 1) = Some row -> mins = row.
Proof.
  intros Hs Hi Hq Hm Hrow. apply nth_error_ext. intros c.
  rewrite (map_opt_nth _ _ _ c Hm).
  pose proof (map_opt_length _ _ _ Hm) as Lm. rewrite length_seq in Lm.
  pose proof (shape_row _ _ _ _ _ Hs Hrow) as Lr.
  destruct (Nat.lt_ge_cases c num_runs) as [Hc|Hc].
  - rewrite nth_error_seq. destruct (Nat.ltb_spec c num_runs); [|lia]. simpl.
    destruct (column_some _ c _ _ Hs Hc) as [col [Ecol Lcol]]. rewrite Ecol.
    assert (Hne : col <> []) by (destruct col; simpl in *; [lia|discriminate]).
    rewrite (min_non_increasing col 0 Hne (Hq _ _ Hc Ecol)).
    rewrite <- (last_nth col 0 Hne), Lcol, (column_nth _ _ _ _ Ecol).
    unfold cell. rewrite Hrow. reflexivity.
  - rewrite nth_error_seq. destruct (Nat.ltb_spec c num_runs); [lia|].
    symmetry. apply nth_error_None. lia.
Qed.

End Minima.

(** ** The table of [plot] *)

Section Tables.

Import Algorithms Plotting Summary ArrayFacts Shape Columns Rows Sign.
Local Open Scope float_scope.
Context `{Params} `{Numerics}.

Lemma summaries_inv (cv : Curves) (s : Summaries) :
  summaries cv = Some s ->
  forall v, min_axis0 (curve v cv) = Some (min_run v s).
Proof.
  unfold summaries.
  destruct (min_axis0 (cpso cv)) as [a1|] eqn:E1; [|discriminate].
  destruct (min_axis0 (spso cv)) as [a2|] eqn:E2; [|discriminate].
  destruct (min_axis0 (hcpso cv)) as [a3|] eqn:E3; [|discriminate].
  destruct (min_axis0 (epso cv)) as [a4|] eqn:E4; [|discriminate].
  cbv zeta.
  destruct (np.map_opt math_log (mean_axis1 (cpso cv))); [|discriminate].
  destruct (np.map_opt math_log (mean_axis1 (spso cv))); [|discriminate].
  destruct (np.map_opt math_log (mean_axis1 (hcpso cv))); [|discriminate].
  destruct (np.map_opt math_log (mean_axis1 (epso cv))); [|discriminate].
  intros [= <-] v. destruct v; simpl; assumption.
Qed.

Lemma plot_non_increasing (u : np.stream) (f : list float -> float) (st st' : Store)
  (cv : Curves) :
  numeric f (swarm st) -> plot u f st = Some (cv, st') ->
  numeric f (swarm st') /\
  forall v c col, (c < num_runs)%nat -> np.column (curve v cv) c = Some col ->
    non_increasing col = true.
Proof.
  intros Hn Hp. pose proof (plot_curves _ _ _ _ _ Hp) as Hc. unfold plot in Hp.
  destruct (plot_runs_columns u f (fun st => numeric f (swarm st))
              (fun _ col => non_increasing (firstn num_iterations col) = true)
              (fun run cv0 st0 cv1 st1 => plot_run_non_increasing u f run cv0 cv1 st0 st1)
              _ _ _ _ _ (seq_NoDup _ _) Hn Hp) as [Hn' Hq].
  split; [exact Hn'|]. intros v c col Hlt Hcol.
  specialize (Hq c v col (proj2 (in_seq _ _ _) (conj (Nat.le_0_l _) Hlt)) Hcol).
  rewrite firstn_all2 in Hq; [exact Hq|].
  rewrite (column_length _ _ _ Hcol). destruct (curve_fit v cv Hc) as [-> _]. lia.
Qed.

(** X21: When no personal best costs NaN as [plot] starts, no curve rises, and
    the minimum of each run that [plot] takes for its table is the cost of
    the last iteration of that run. *)
Theorem min_run_is_the_last_cost
  (u : np.stream) (f : np.vec -> float) (st st' : Store) (cv : Curves) (s : Summaries)
  (v : Variant) :
  numeric f (swarm st) -> (0 < num_iterations)%nat ->
  plot u f st = Some (cv, st') -> summaries cv = Some s ->
  nth_error (curve v cv) (num_iterations - 1) = Some (min_run v s) /\
  forall c col, (c < num_runs)%nat -> np.column (curve v cv) c = Some col ->
    non_increasing col = true.
Proof.
  intros Hn Hi Hp Hs. destruct (plot_non_increasing _ _ _ _ _ Hn Hp) as [_ Hq].
  split; [|apply Hq].
  pose proof (curve_fit v cv (plot_curves _ _ _ _ _ Hp)) as Hc.
  destruct (shape_nth_some _ _ _ (num_iterations - 1) Hc) as [row [Hrow _]]; [lia|].
  rewrite Hrow. f_equal. symmetry.
  eapply min_axis0_last; eauto. now apply summaries_inv.
Qed.

End Tables.

(** ** A cost of zero *)

Section Zero.

Import Algorithms Plotting Summary ArrayFacts Shape Columns Rows Sign.
Local Open Scope float_scope.
Context `{Params} `{Numerics}.

(** [math.log] raises on the mean of a row of zeros. *)
Lemma log_mean_zeros (m : list (list float)) (row : list float) :
  (forall r, zeros r -> (add_reduce r =? 0) = true) ->
  (0 <? Py.float_of_nat num_runs) = true ->
  In row m -> length row = num_runs -> zeros row ->
  np.map_opt math_log (mean_axis1 m) = None.
Proof.
  intros Hs Hr Hin Hl Hz. unfold mean_axis1.
  apply (map_opt_none _ _ (mean row)).
  - apply in_map. exact Hin.
  - unfold math_log, mean. rewrite Hl, zero_over_positive; auto.
Qed.

(** From a swarm that holds a zero cost, a runner records zeros. *)
Lemma runner_zero (v : Variant) (u : np.stream) (run : nat) (f : list float -> float)
  (st st' : Store) (m : list (list float)) :
  (forall x, (0 <=? f x) = true) -> at_zero f st ->
  run_variant v u run f st = Some (m, st') ->
  at_zero f st' /\
  forall col, np.column m run = Some col -> zeros (firstn num_iterations col).
Proof.
  intros Hf [gb0 [Hl0 Hz0]] Hr.
  destruct (runner_last _ _ _ _ _ _ _ _ Hl0 Hr) as [vals [gb' [Hcol [Hd [Hl' Hlast]]]]].
  destruct (descending_last _ _ Hd) as [Hge Hle].
  specialize (Hle (proj1 (F64.leb_not_nan _ _ Hz0))). rewrite <- Hlast in *.
  split.
  - exists gb'. split; [exact Hl'|]. eapply F64.leb_trans; eauto.
  - intros col Hc. rewrite (Hcol _ Hc). unfold zeros.
    pose proof (descending_Forall _ _ Hd) as Hup.
    rewrite Forall_forall in *. intros c Hin. apply eqb_of_leb.
    + eapply F64.leb_trans; [apply Hup; exact Hin|exact Hz0].
    + eapply F64.leb_trans; [apply Hf|apply Hge; exact Hin].
Qed.

Lemma plot_run_zero (u : np.stream) (f : list float -> float) (run : nat)
  (cv cv' : Curves) (st st' : Store) :
  (forall x, (0 <=? f x) = true) -> at_zero f st ->
  plot_run u f run (cv, st) = Some (cv', st') ->
  at_zero f st' /\
  forall v col, np.column (curve v cv') run = Some col -> zeros (firstn num_iterations col).
Proof.
  intros Hf Hz Hp. destruct (plot_run_inv _ _ _ _ _ _ _ Hp)
    as [m1 [st1 [m2 [st2 [m3 [st3 [m4 [col1 [col2 [col3 [col4 Hr]]]]]]]]]]].
  destruct Hr as [R1 [R2 [R3 [R4 [C1 [C2 [C3 [C4 [S1 [S2 [S3 S4]]]]]]]]]]].
  destruct (runner_zero _ _ _ _ _ _ _ Hf Hz R1) as [Z1 Q1].
  destruct (runner_zero _ _ _ _ _ _ _ Hf Z1 R2) as [Z2 Q2].
  destruct (runner_zero _ _ _ _ _ _ _ Hf Z2 R3) as [Z3 Q3].
  destruct (runner_zero _ _ _ _ _ _ _ Hf Z3 R4) as [Z4 Q4].
  split; [exact Z4|]. intros v col Hc. destruct v; simpl in Hc.
  - rewrite (set_column_column _ _ _ _ S1) in Hc. injection Hc as <-. auto.
  - rewrite (set_column_column _ _ _ _ S2) in Hc. injection Hc as <-. auto.
  - rewrite (set_column_column _ _ _ _ S3) in Hc. injection Hc as <-. auto.
  - rewrite (set_column_column _ _ _ _ S4) in Hc. injection Hc as <-. auto.
Qed.

(** The first pass, when CPSO records a cost that is not above zero: the
    last cost CPSO records is zero, and so is the least cost of the swarm
    the pass leaves. *)
Lemma first_pass_zero (u : np.stream) (f : list float -> float) (run : nat)
  (cv cv' : Curves) (st st' : Store) (col : list float) (t : nat) (c : float) :
  (forall x, (0 <=? f x) = true) ->
  plot_run u f run (cv, st) = Some (cv', st') ->
  np.column (cpso cv') run = Some col -> length col = num_iterations ->
  nth_error col t = Some c -> (c <=? 0) = true ->
  at_zero f st' /\ (last col 0 =? 0) = true.
Proof.
  intros Hf Hp Hcol Hlen Ht Hc. destruct (plot_run_inv _ _ _ _ _ _ _ Hp)
    as [m1 [st1 [m2 [st2 [m3 [st3 [m4 [col1 [col2 [col3 [col4 Hr]]]]]]]]]]].
  destruct Hr as [R1 [R2 [R3 [R4 [C1 [C2 [C3 [C4 [S1 [S2 [S3 S4]]]]]]]]]]].
  rewrite (set_column_column _ _ _ _ S1) in Hcol. injection Hcol as <-.
  destruct (runner_collect _ _ _ _ _ _ _ R1) as [v1 [Hc1 Hcol1]].
  pose proof (Hcol1 _ C1) as Ev. rewrite firstn_all2 in Ev by lia. subst v1.
  assert (Hnum : forall sw, numeric f sw).
  { intros sw. apply Forall_forall. intros p _. now destruct (F64.leb_not_nan _ _ (Hf p)). }
  assert (Hg : exists gb0, least f (swarm st) gb0).
  { destruct num_iterations as [|n] eqn:En.
    - destruct col1; [destruct t; discriminate|discriminate].
    - cbn [seq collect] in Hc1. simpl variant_start in Hc1.
      destruct (compute_global_best u _ f (swarm st)) as [[gb sw1]|] eqn:Ecg; [|discriminate].
      unfold compute_global_best in Ecg.
      destruct (select_global_best f (swarm st)) as [gb0|] eqn:Es; [|discriminate].
      exists gb0. apply select_inv; auto. }
  destruct Hg as [gb0 Hl0].
  destruct (runner_last _ _ _ _ _ _ _ _ Hl0 R1) as [w1 [g1 [Hw1 [D1 [L1 E1]]]]].
  pose proof (Hw1 _ C1) as Ew. rewrite firstn_all2 in Ew by lia. subst w1.
  destruct (descending_last _ _ D1) as [Hge _].
  assert (Hlast : (f g1 <=? 0) = true).
  { rewrite E1. eapply F64.leb_trans; [|exact Hc].
    rewrite Forall_forall in Hge. apply Hge. eapply nth_error_In; eauto. }
  assert (Z1 : at_zero f st1) by (exists g1; auto).
  destruct (runner_zero _ _ _ _ _ _ _ Hf Z1 R2) as [Z2 _].
  destruct (runner_zero _ _ _ _ _ _ _ Hf Z2 R3) as [Z3 _].
  destruct (runner_zero _ _ _ _ _ _ _ Hf Z3 R4) as [Z4 _].
  split; [exact Z4|].
  assert (El : last col1 0 = f g1).
  { rewrite E1. destruct col1 as [|x l]; [destruct t; discriminate|].
    now rewrite !last_cons. }
  rewrite El. apply eqb_of_leb; auto.
Qed.

Lemma plot_runs_frame (u : np.stream) (f : list float -> float) (v : Variant) (c : nat)
  (range : list nat) :
  forall cv st cv' st',
    ~ In c range -> plot_runs u f range (cv, st) = Some (cv', st') ->
    np.column (curve v cv') c = np.column (curve v cv) c.
Proof.
  induction range as [|r rest IH]; intros cv st cv' st' Hn; cbn [plot_runs].
  - intros [= <- <-]. reflexivity.
  - destruct (plot_run u f r (cv, st)) as [[cv1 st1]|] eqn:E1; [|discriminate].
    intros Hrest. rewrite (IH _ _ _ _ (fun C => Hn (or_intror C)) Hrest).
    eapply plot_run_columns; eauto. intros ->. apply Hn. now left.
Qed.

(** X22: The objective is nowhere negative: once CPSO has recorded a cost of
    zero in the first run, every cost recorded after it is zero, the mean of
    the last iteration is zero and [math.log] raises; [plot] fails before
    it plots anything. *)
Theorem plot_raises_once_a_cost_is_zero
  (u : np.stream) (f : np.vec -> float) (st st' : Store) (cv : Curves) (t : nat) (c : float) :
  (forall r, zeros r -> (add_reduce r =? 0) = true) ->
  (0 <? Py.float_of_nat num_runs) = true ->
  (forall x, (0 <=? f x) = true) ->
  plot u f st = Some (cv, st') ->
  cell (cpso cv) t 0 = Some c -> (c <=? 0) = true ->
  summaries cv = None.
Proof.
  intros Hsum Hruns Hf Hp Hcell Hc.
  pose proof (plot_curves _ _ _ _ _ Hp) as Hfit.
  pose proof (curve_fit CPSO cv Hfit) as Hshape. simpl in Hshape.
  assert (Ht : (t < num_iterations)%nat).
  { unfold cell in Hcell. destruct (nth_error (cpso cv) t) eqn:E; [|discriminate].
    destruct Hshape as [<- _]. apply nth_error_Some. congruence. }
  assert (HR : (0 < num_runs)%nat).
  { destruct num_runs; [discriminate Hruns|lia]. }
  unfold plot in Hp. destruct num_runs as [|R] eqn:ER; [lia|]. rewrite <- ER in *.
  rewrite ER in Hp. cbn [seq plot_runs] in Hp. rewrite <- ER in Hp.
  destruct (plot_run u f 0 _) as [[cv1 st1]|] eqn:E1; [|discriminate].
  destruct (column_some _ 0 _ _ Hshape HR) as [col [Ecol Lcol]].
  assert (Ecol1 : np.column (cpso cv1) 0 = Some col).
  { rewrite <- Ecol. symmetry. apply (plot_runs_frame u f CPSO 0 _ _ _ _ _) with (2 := Hp).
    intros C. apply in_seq in C. lia. }
  assert (Hnth : nth_error col t = Some c).
  { rewrite (column_nth _ _ _ _ Ecol). exact Hcell. }
  destruct (first_pass_zero _ _ _ _ _ _ _ _ _ _ Hf E1 Ecol1 Lcol Hnth Hc) as [Z1 Hlast].
  destruct (plot_runs_columns u f (at_zero f)
              (fun _ col => zeros (firstn num_iterations col))
              (fun run cv0 st0 cv2 st2 Hz Hr => plot_run_zero u f run cv0 cv2 st0 st2 Hf Hz Hr)
              _ _ _ _ _ (seq_NoDup _ _) Z1 Hp) as [_ Hq].
  destruct (shape_nth_some _ _ _ (num_iterations - 1) Hshape) as [row [Hrow Lrow]]; [lia|].
  assert (Hz : zeros row).
  { apply Forall_nth_error. intros r x Hx.
    assert (Hr : (r < num_runs)%nat) by (rewrite <- Lrow; apply nth_error_Some; congruence).
    destruct (column_some _ r _ _ Hshape Hr) as [colr [Ecolr Lcolr]].
    assert (Hxc : nth_error colr (num_iterations - 1) = Some x).
    { rewrite (column_nth _ _ _ _ Ecolr). unfold cell. rewrite Hrow. exact Hx. }
    destruct r as [|r].
    - rewrite Ecol in Ecolr. injection Ecolr as <-.
      rewrite <- Lcol, (last_nth col 0) in Hxc by (destruct col; simpl in *; [lia|discriminate]).
      injection Hxc as <-. exact Hlast.
    - assert (Hin : In (S r) (seq 1 R)) by (apply in_seq; lia).
      specialize (Hq (S r) CPSO colr Hin Ecolr).
      rewrite firstn_all2 in Hq by lia. unfold zeros in Hq.
      rewrite Forall_forall in Hq. apply Hq. eapply nth_error_In; eauto. }
  assert (Hlog : np.map_opt math_log (mean_axis1 (cpso cv)) = None).
  { eapply log_mean_zeros; eauto. eapply nth_error_In; eauto. }
  unfold summaries. cbv zeta.
  destruct (min_axis0 (cpso cv)); [|reflexivity].
  destruct (min_axis0 (spso cv)); [|reflexivity].
  destruct (min_axis0 (hcpso cv)); [|reflexivity].
  destruct (min_axis0 (epso cv)); [|reflexivity].
  rewrite Hlog. reflexivity.
Qed.

End Zero.

(** ** The further properties at the runs above *)

Section AtTrials.

Import Instances.
Local Open Scope float_scope.
#[local] Existing Instance Study.study.

Lemma existsb_Exists {A : Type} (p : A -> bool) (l : list A) :
  existsb p l = true -> Exists (fun x => p x = true) l.
Proof.
  intros He. apply existsb_exists in He. apply Exists_exists. exact He.
Qed.

Lemma forallb_Forall_false {A : Type} (p : A -> bool) (l : list A) :
  forallb (fun x => negb (p x)) l = true -> Forall (fun x => p x = false) l.
Proof.
  intros Hf. apply Forall_forall. intros x Hx.
  rewrite forallb_forall in Hf. specialize (Hf x Hx). now destruct (p x).
Qed.

(** The sum of zeros, taken in order, is zero. *)
Lemma sum_zeros (r : list float) : zeros r -> (Py.sum r =? 0) = true.
Proof.
  unfold Py.sum. assert (G : forall a, (a =? 0) = true -> zeros r ->
                              (fold_left add r a =? 0) = true).
  { induction r as [|x r IH]; intros a Ha Hz; [exact Ha|].
    inversion Hz as [|? ? Hx Hr]; subst. simpl. apply IH; [|exact Hr].
    revert Ha Hx. rewrite !eqb_spec, add_spec.
    change (Prim2SF 0) with (S754_zero false).
    destruct (Prim2SF a) as [s|s| |s m e]; try destruct s; simpl; try discriminate;
      destruct (Prim2SF x) as [s'|s'| |s' m' e']; try destruct s'; simpl;
      try discriminate; reflexivity. }
  apply G. reflexivity.
Qed.

(** X3 on the run of the study: its best cost bounds the costs of the
    positions the swarm started from. *)
Lemma best_cost_bounds_evaluated_costs_demo :
  Forall (fun x => is_nan (Sphere x) = true \/
                   (EntropyGbest.final_best_cost Demo.result <=? Sphere x) = true)
    (Pyswarms.position
       (Pyswarms.swarm (EntropyGbest.self (EntropyGbest.enter Demo.optimizer 400)))).
Proof.
  apply (@best_cost_bounds_evaluated_costs dyadic nearest_unmodified lcg Sphere
           Demo.optimizer 400%N 201%nat Demo.result 0%nat
           (EntropyGbest.enter Demo.optimizer 400));
    [reflexivity|vm_compute; reflexivity|lia|reflexivity].
Defined.

(** X4 on the run of the study. *)
Lemma returned_cost_is_cost_of_returned_position_demo :
  (EntropyGbest.final_best_cost Demo.result =?
   Sphere (EntropyGbest.final_best_pos Demo.result)) = true.
Proof.
  apply (@returned_cost_is_cost_of_returned_position dyadic nearest_unmodified lcg Sphere
           Demo.optimizer 400%N 201%nat Demo.result);
    [reflexivity|vm_compute; reflexivity|vm_compute; reflexivity].
Defined.

(** X5: a second call, on an objective that costs [1000] everywhere, records
    nothing above the best cost the run on [Sphere] left. *)
Lemma later_call_keeps_best_cost_demo :
  Forall (fun c => (c <=? EntropyGbest.final_best_cost Demo.result) = true)
    (EntropyGbest.history Trials.again) /\
  (EntropyGbest.final_best_cost Trials.again <=?
   EntropyGbest.final_best_cost Demo.result) = true.
Proof.
  apply (@later_call_keeps_best_cost dyadic nearest_unmodified lcg lcg Sphere Trials.flat
           Demo.optimizer 400%N 0%N 201%nat 3%nat Demo.result Trials.again);
    [reflexivity|vm_compute; reflexivity|vm_compute; reflexivity].
Defined.

(** X7 on the run on the zero objective, which stops at iteration 5. *)
Lemma stops_only_after_ftol_iter_demo :
  match EntropyGbest.exit Trials.converged with
  | EntropyGbest.Converged i =>
      (Pyswarms.ftol_iter (fst Demo.tolerant) <= i < 100)%nat /\
      length (EntropyGbest.history Trials.converged) = S i /\
      length (EntropyGbest.ftol_history (EntropyGbest.final Trials.converged)) =
        Pyswarms.ftol_iter (fst Demo.tolerant) /\
      Py.all (EntropyGbest.ftol_history (EntropyGbest.final Trials.converged)) = true
  | EntropyGbest.MaxIterReached => length (EntropyGbest.history Trials.converged) = 100%nat
  end.
Proof.
  apply (@stops_only_after_ftol_iter dyadic nearest_unmodified lcg zero_objective
           (fst Demo.tolerant) 400%N 100%nat Trials.converged).
  vm_compute. reflexivity.
Defined.

(** X8 on the optimizer of [gbest.py], which has the default [ftol]: its
    run makes all 201 iterations. *)
Lemma default_ftol_runs_all_iterations_demo :
  EntropyGbest.exit Demo.result = EntropyGbest.MaxIterReached /\
  length (EntropyGbest.history Demo.result) = 201%nat.
Proof.
  apply (@default_ftol_runs_all_iterations dyadic nearest_unmodified lcg Sphere
           Demo.optimizer 400%N 201%nat Demo.result);
    [reflexivity|vm_compute; lia|vm_compute; reflexivity].
Defined.

(** X9 on the run of the study. *)
Lemma coefficients_after_optimize_demo :
  Pyswarms.w (Pyswarms.self_options (EntropyGbest.self (EntropyGbest.final Demo.result))) =
    Pyswarms.w (Pyswarms.self_options Demo.optimizer) /\
  floored (Pyswarms.self_options (EntropyGbest.self (EntropyGbest.final Demo.result))) /\
  (forall i st st' stop,
     EntropyGbest.iteration lcg Sphere i st = Some (st', stop) -> (i mod 100)%nat <> 0%nat ->
     Pyswarms.self_options (EntropyGbest.self st') =
       Pyswarms.self_options (EntropyGbest.self st)).
Proof.
  apply (@coefficients_after_optimize dyadic nearest_unmodified lcg Sphere
           Demo.optimizer 400%N 201%nat Demo.result);
    [vm_compute; lia|lia|vm_compute; reflexivity].
Defined.

(** X10 on the first iteration of the run of the study. *)
Lemma labels_compare_successive_costs_demo :
  EntropyGbest.previous_pbest_cost Trials.first_iteration =
    map Sphere (Pyswarms.position
                  (Pyswarms.swarm (EntropyGbest.self (EntropyGbest.enter Demo.optimizer 400))))
  /\
  exists diff_cost,
    np.vop sub
      (map Sphere (Pyswarms.position
                     (Pyswarms.swarm (EntropyGbest.self (EntropyGbest.enter Demo.optimizer 400)))))
      (EntropyGbest.previous_pbest_cost (EntropyGbest.enter Demo.optimizer 400))
      = Some diff_cost /\
    EntropyGbest.list_R Trials.first_iteration =
      (let labels := EntropyGbest.list_R (EntropyGbest.enter Demo.optimizer 400) ++
                     map EntropyGbest.label diff_cost in
       if EntropyGbest.recalibration_due 0 &&
          negb (Py.gtb (EntropyGbest.entropy labels) 0.3) then [] else labels).
Proof.
  apply (@labels_compare_successive_costs dyadic nearest_unmodified lcg Sphere 0%nat
           (EntropyGbest.enter Demo.optimizer 400) Trials.first_iteration).
  vm_compute. reflexivity.
Defined.

(** X1 on the optimizer of [gbest.py] with [Sphere]. *)
Lemma optimize_returns_demo :
  exists r,
    EntropyGbest.optimize lcg Demo.optimizer 400 Sphere 201 = Some r /\
    forall (u' : np.stream) (k' : N) (g : np.vec -> float) (iters' : nat),
      exists r', EntropyGbest.optimize u' (EntropyGbest.self (EntropyGbest.final r)) k' g
                   iters' = Some r'.
Proof.
  apply (@optimize_returns dyadic nearest_unmodified lcg 0%N
           (snd (Demo.get (Demo.no_optimizer, 0%N)
                   (Gbest.optimizerEntrpy lcg 0 Demo.options)))
           150%nat 2%nat Demo.options (Some (Gbest.lb, Gbest.ub)) None 1 neg_infinity 1%nat
           Demo.optimizer lcg 400%N Sphere 201%nat);
    [vm_compute; reflexivity|split; reflexivity| |lia].
  apply existsb_Exists. vm_compute. reflexivity.
Defined.

(** X2 on the optimizer of [gbest.py] with an objective that never costs a
    number. *)
Lemma optimize_raises_without_a_cost_below_inf_demo :
  (exists st1 st2,
     EntropyGbest.observe Trials.void 0 (EntropyGbest.enter Demo.optimizer 400) =
       Some (st1, false) /\
     EntropyGbest.control 0 st1 = Some st2 /\
     Pyswarms.best_pos (Pyswarms.swarm (EntropyGbest.self st2)) = [] /\
     EntropyGbest.move lcg st2 = None) /\
  EntropyGbest.optimize lcg Demo.optimizer 400 Trials.void 5 = None.
Proof.
  apply (@optimize_raises_without_a_cost_below_inf dyadic nearest_unmodified lcg 0%N
           (snd (Demo.get (Demo.no_optimizer, 0%N)
                   (Gbest.optimizerEntrpy lcg 0 Demo.options)))
           150%nat 2%nat Demo.options (Some (Gbest.lb, Gbest.ub)) None 1 neg_infinity 1%nat
           Demo.optimizer lcg 400%N Trials.void 5%nat);
    [vm_compute; reflexivity|split; reflexivity|lia| |lia].
  apply forallb_Forall_false. vm_compute. reflexivity.
Defined.

(** X11 on one call of [compute_global_best] on the module of the small
    study. *)
Lemma compute_global_best_returns_demo :
  exists gb sw',
    Algorithms.compute_global_best lcg (Algorithms.Scalar 1) Sphere
      (Algorithms.swarm Study.store) = Some (gb, sw') /\
    fits sw' /\ length gb = 2%nat.
Proof.
  apply (@compute_global_best_returns Study.study lcg (Algorithms.Scalar 1) Sphere
           (Algorithms.swarm Study.store)).
  - vm_compute. lia.
  - unfold fits, shape. vm_compute. repeat split; repeat constructor.
  - exact I.
Defined.

(** X12 on the first particle in that call. *)
Lemma personal_best_never_worsens_demo :
  nth_error (Algorithms.personal_best (snd Study.after_call)) 0 = Some [-393.75; 300] \/
  exists x', nth_error (Algorithms.personal_best (snd Study.after_call)) 0 = Some x' /\
             nth_error (Algorithms.particles_position (snd Study.after_call)) 0 = Some x' /\
             (Sphere x' <? Sphere [-393.75; 300]) = true.
Proof.
  apply (@personal_best_never_worsens Study.study lcg (Algorithms.Scalar 1) Sphere
           (Algorithms.swarm Study.store) (snd Study.after_call) (fst Study.after_call)
           0%nat [-393.75; 300]);
    vm_compute; reflexivity.
Defined.

(** X13 on that call. *)
Lemma returned_global_best_is_least_demo :
  In (fst Study.after_call) (Algorithms.personal_best (snd Study.after_call)) /\
  Forall (fun p => (Sphere (fst Study.after_call) <=? Sphere p) = true)
    (Algorithms.personal_best (snd Study.after_call)) /\
  Forall (fun p => (Sphere (fst Study.after_call) <=? Sphere p) = true)
    (Algorithms.personal_best (Algorithms.swarm Study.store)).
Proof.
  apply (@returned_global_best_is_least Study.study lcg (Algorithms.Scalar 1) Sphere
           (Algorithms.swarm Study.store) (snd Study.after_call) (fst Study.after_call)).
  - unfold numeric. vm_compute. repeat constructor.
  - vm_compute. reflexivity.
Defined.

(** X14 on [CPSOAlgorithm] on the module of the small study. *)
Lemma runner_writes_one_column_demo :
  fst Study.after_CPSO = written CPSO (snd Study.after_CPSO) /\
  kept CPSO (snd Study.after_CPSO) = kept CPSO Study.store /\
  forall r c, c <> 0%nat ->
    cell (written CPSO (snd Study.after_CPSO)) r c = cell (written CPSO Study.store) r c.
Proof.
  apply (@runner_writes_one_column Study.study CPSO lcg 0%nat Sphere Study.store
           (snd Study.after_CPSO) (fst Study.after_CPSO)).
  vm_compute. reflexivity.
Defined.

(** X16: the small study has one run, and [SPSOAlgorithm(1, Sphere)] raises. *)
Lemma runner_raises_beyond_last_run_demo :
  Algorithms.SPSOAlgorithm lcg 1 Sphere Study.store = None.
Proof.
  apply (@runner_raises_beyond_last_run Study.study SPSO lcg 1%nat Sphere Study.store).
  - unfold shape. vm_compute. repeat split; repeat constructor.
  - vm_compute. lia.
  - vm_compute. lia.
Defined.

(** X17 on [EPSOAlgorithm] on a module without particles. *)
Lemma runner_raises_on_empty_swarm_demo :
  Algorithms.EPSOAlgorithm lcg 0 Sphere Study.no_store = None.
Proof.
  apply (@runner_raises_on_empty_swarm Study.study EPSO lcg 0%nat Sphere Study.no_store).
  - reflexivity.
  - intros C. discriminate C.
Defined.

(** X19 on the first pass of [plot] on the small study. *)
Lemma later_variants_overwrite_the_module_arrays_demo :
  (exists col,
     np.column (Algorithms.best_fitness_evolution (snd Trials.first_pass)) 0 = Some col /\
     np.column (Plotting.epso (fst Trials.first_pass)) 0 = Some col) /\
  (exists col,
     np.column (Algorithms.mean_gbest_evolution (snd Trials.first_pass)) 0 = Some col /\
     np.column (Plotting.hcpso (fst Trials.first_pass)) 0 = Some col).
Proof.
  apply (@later_variants_overwrite_the_module_arrays Study.study lcg Sphere 0%nat
           Trials.blank (fst Trials.first_pass) Study.store (snd Trials.first_pass)).
  vm_compute. reflexivity.
Defined.

(** X18 on the small study. *)
Lemma plot_runs_every_variant_demo :
  exists cv st,
    Plotting.plot lcg Sphere (Algorithms.import_module lcg 0) = Some (cv, st) /\
    curves_fit cv /\
    forall (u' : np.stream) (g : np.vec -> float),
      exists cv' st', Plotting.plot u' g st = Some (cv', st') /\ curves_fit cv'.
Proof.
  apply (@plot_runs_every_variant Study.study lcg 0%N lcg Sphere).
  vm_compute. lia.
Defined.

(** X20 on the four curves of the first pass, read one after the other. *)
Lemma variants_continue_one_descent_demo :
  non_increasing
    (firstn 2 [142693.26210021973; 103290.08356627416] ++
     firstn 2 [58617.21483636921; 31063.829098815164] ++
     firstn 2 [4025.4989452387244; 3380.2904425314759] ++
     firstn 2 [3380.2904425314759; 3380.2904425314759]) = true.
Proof.
  apply (@variants_continue_one_descent Study.study lcg Sphere 0%nat Trials.blank
           (fst Trials.first_pass) Study.store (snd Trials.first_pass)).
  - unfold numeric. vm_compute. repeat constructor.
  - vm_compute. reflexivity.
  - vm_compute. reflexivity.
  - vm_compute. reflexivity.
  - vm_compute. reflexivity.
  - vm_compute. reflexivity.
Defined.

(** X21 on the curve of SPSO in the small study. *)
Lemma min_run_is_the_last_cost_demo :
  nth_error (curve SPSO (fst Trials.plotted)) (2 - 1) =
    Some (Summary.min_run SPSO Trials.table) /\
  forall c col, (c < 1)%nat -> np.column (curve SPSO (fst Trials.plotted)) c = Some col ->
    non_increasing col = true.
Proof.
  apply (@min_run_is_the_last_cost Study.study Trials.in_order lcg Sphere Study.store
           (snd Trials.plotted) (fst Trials.plotted) Trials.table SPSO).
  - unfold numeric. vm_compute. repeat constructor.
  - vm_compute. lia.
  - vm_compute. reflexivity.
  - vm_compute. reflexivity.
Defined.

(** X22 on the zero objective: every cost is zero, and the summaries fail. *)
Lemma plot_raises_once_a_cost_is_zero_demo :
  @Summary.summaries Study.study Trials.in_order (fst Trials.plotted_zero) = None.
Proof.
  apply (@plot_raises_once_a_cost_is_zero Study.study Trials.in_order lcg zero_objective
           Study.store (snd Trials.plotted_zero) (fst Trials.plotted_zero) 0%nat 0).
  - exact sum_zeros.
  - vm_compute. reflexivity.
  - intros x. reflexivity.
  - vm_compute. reflexivity.
  - vm_compute. reflexivity.
  - reflexivity.
Defined.

(** X6 on the run of the study. *)
Lemma history_ends_with_the_returned_cost_demo :
  exists h, EntropyGbest.history Demo.result =
            h ++ [EntropyGbest.final_best_cost Demo.result].
Proof.
  apply (@history_ends_with_the_returned_cost dyadic nearest_unmodified lcg Sphere
           Demo.optimizer 400%N 201%nat Demo.result);
    [lia|vm_compute; reflexivity].
Defined.

(** X15 on the module of the small study as imported. *)
Lemma SPSO_does_what_CPSO_does_demo :
  Algorithms.swarm (snd Trials.after_SPSO) = Algorithms.swarm (snd Study.after_CPSO) /\
  firstn 2 (Demo.get [] (np.column (fst Trials.after_SPSO) 0)) =
    firstn 2 (Demo.get [] (np.column (fst Study.after_CPSO) 0)).
Proof.
  apply (@SPSO_does_what_CPSO_does Study.study lcg 0%nat Sphere Study.store
           (snd Study.after_CPSO) (snd Trials.after_SPSO)
           (fst Study.after_CPSO) (fst Trials.after_SPSO));
    vm_compute; reflexivity.
Defined.

End AtTrials.
